(** * db-migration: the migration-consistency engine, embedded and verified

    A shallow embedding of the Go packages [internal/config], [internal/git]
    and [internal/migration] (tracker, validator, migrator), together with
    the few functions of Go's standard library they call, the theorems that
    settle the specification's claims C1..C10 against that code, and further
    properties X1..X27 of the same code.

    Layout: library models, results and the world, the command line, the
    git adapter, the tracker, the validator, the migrator; then the lemmas
    and theorems. *)

From stdpp Require Import base gmap strings list sorting pretty.
From Stdlib Require Import ZArith Lia Ascii.

Local Open Scope Z_scope.

(* ===================================================================== *)
(** * Go's standard library, as far as the program uses it               *)
(* ===================================================================== *)

(** Go strings are byte sequences; so are Rocq's. *)

Module Strings.

(** [strings.HasPrefix(s, prefix)]. *)
Fixpoint HasPrefix (s prefix : string) : bool :=
  match prefix, s with
  | EmptyString, _ => true
  | String _ _, EmptyString => false
  | String a p, String b t => if decide (a = b) then HasPrefix t p else false
  end.

(** [strings.HasSuffix(s, suffix)]. *)
Definition HasSuffix (s suffix : string) : bool :=
  HasPrefix (String.rev s) (String.rev suffix).

(** [strings.Contains(s, substr)]: [substr] starts at some offset of [s]. *)
Fixpoint Contains (s substr : string) : bool :=
  HasPrefix s substr ||
  match s with
  | EmptyString => false
  | String _ t => Contains t substr
  end.

(** [strings.Split(s, sep)] for a one-byte separator (the program only
    splits on the new line). The pieces between separators, empty ones
    included; the empty string gives one empty piece. *)
Fixpoint Split (s : string) (sep : ascii) : list string :=
  match s with
  | EmptyString => [EmptyString]
  | String c t =>
      if decide (c = sep) then EmptyString :: Split t sep
      else match Split t sep with
           | [] => [String c EmptyString]
           | x :: xs => String c x :: xs
           end
  end.

(** White space as [strings.TrimSpace] and [strings.Fields] see it on
    ASCII input: tab, new line, vertical tab, form feed, carriage return,
    space. (Go also treats the UTF-8 encodings of U+0085, U+00A0 and a few
    more as space; bytes above 0x7F are ordinary bytes here.) *)
Definition isSpace (c : ascii) : bool := Ascii.is_space c.

Fixpoint TrimLeft (s : string) : string :=
  match s with
  | EmptyString => EmptyString
  | String c t => if isSpace c then TrimLeft t else s
  end.

(** [strings.TrimSpace(s)]. *)
Definition TrimSpace (s : string) : string :=
  String.rev (TrimLeft (String.rev (TrimLeft s))).

(** [strings.Fields(s)]: the maximal runs of non-space bytes. *)
Definition Fields (s : string) : list string := String.words s.

(** [s[:n]]: the first [n] bytes; Go panics when [n > len(s)]. *)
Fixpoint slice_to (s : string) (n : nat) : option string :=
  match n, s with
  | O, _ => Some EmptyString
  | S _, EmptyString => None
  | S m, String c t => String c <$> slice_to t m
  end.

End Strings.

Module Filepath.

(** Unix paths: the separator is the slash and there is no volume name. *)
Definition Separator : ascii := "/"%char.

(** One pass of [filepath.Clean] over the elements of a path, kept as a
    stack (last element first): empty elements and [.] go away, [..]
    removes the element before it, is kept at the start of a relative
    path and dropped at the start of a rooted one. *)
Fixpoint clean_elems (rooted : bool) (elems : list string) (stack : list string)
  : list string :=
  match elems with
  | [] => stack
  | e :: rest =>
      if decide (e = "" ∨ e = ".") then clean_elems rooted rest stack
      else if decide (e = "..") then
        match stack with
        | [] => clean_elems rooted rest (if rooted then [] else [".."])
        | top :: below =>
            if decide (top = "..") then clean_elems rooted rest (".." :: stack)
            else clean_elems rooted rest below
        end
      else clean_elems rooted rest (e :: stack)
  end.

Fixpoint join_elems (elems : list string) : string :=
  match elems with
  | [] => ""
  | [e] => e
  | e :: rest => e +:+ "/" +:+ join_elems rest
  end.

(** [filepath.Clean(path)]: the shortest path name equivalent to [path]
    by purely lexical processing. *)
Definition Clean (path : string) : string :=
  let rooted := Strings.HasPrefix path "/" in
  let body := join_elems (rev (clean_elems rooted (Strings.Split path Separator) [])) in
  if rooted then "/" +:+ body
  else if decide (body = "") then "." else body.

(** The part of [path] up to and including its last separator. *)
Fixpoint dir_part (path : string) : string :=
  match path with
  | EmptyString => EmptyString
  | String c t =>
      if Strings.Contains path "/" then String c (dir_part t) else EmptyString
  end.

(** [filepath.Dir(path)]: all but the last element, cleaned. *)
Definition Dir (path : string) : string := Clean (dir_part path).

(** Strip the trailing separators, given the path reversed. *)
Fixpoint strip_slashes (rpath : string) : string :=
  match rpath with
  | EmptyString => EmptyString
  | String c t => if decide (c = Separator) then strip_slashes t else rpath
  end.

(** The bytes before the first separator. *)
Fixpoint until_slash (s : string) : string :=
  match s with
  | EmptyString => EmptyString
  | String c t => if decide (c = Separator) then EmptyString else String c (until_slash t)
  end.

(** [filepath.Base(path)]: the last element of [path]; ["."] for the empty
    path, ["/"] for a path of separators only. *)
Definition Base (path : string) : string :=
  if decide (path = "") then "."
  else
    let stripped := strip_slashes (String.rev path) in
    let last := String.rev (until_slash stripped) in
    if decide (last = "") then "/" else last.

(** [filepath.Join(a, b)]: the non-empty elements joined by a separator
    and cleaned; the empty string when both are empty. *)
Definition Join (a b : string) : string :=
  match decide (a = ""), decide (b = "") with
  | left _, left _ => ""
  | left _, right _ => Clean b
  | right _, left _ => Clean a
  | right _, right _ => Clean (a +:+ "/" +:+ b)
  end.

End Filepath.

Module Strconv.

Fixpoint digits (s : string) (acc : Z) : option Z :=
  match s with
  | EmptyString => Some acc
  | String c t =>
      match Ascii.is_nat c with
      | Some d => digits t (10 * acc + Z.of_nat d)
      | None => None
      end
  end.

(** [strconv.ParseInt(s, 10, 64)]: an optional sign, at least one decimal
    digit, and a value that fits in 64 bits; [None] is Go's error. *)
Definition ParseInt (s : string) : option Z :=
  let '(neg, body) :=
    match s with
    | String "+" t => (false, t)
    | String "-" t => (true, t)
    | _ => (false, s)
    end in
  if decide (body = "") then None
  else
    match digits body 0 with
    | None => None
    | Some n =>
        let v := if neg : bool then - n else n in
        if decide (- 2 ^ 63 <= v < 2 ^ 63) then Some v else None
    end.

(** [strconv.Atoi(s)] where [int] has 64 bits: [ParseInt(s, 10, 0)]. *)
Definition Atoi (s : string) : option Z := ParseInt s.

(** The verb [%d] of [fmt]. *)
Definition Itoa (n : Z) : string := pretty n.

End Strconv.

Module Time.

(** An instant, in nanoseconds since the Unix epoch. (The monotonic clock
    reading that Go attaches to [time.Now()] is left out: instants live
    on one time line.) *)
Definition Time : Type := Z.

(** [time.Unix(sec, 0)]. *)
Definition Unix (sec : Z) : Time := sec * 1000000000.

(** The zero value of [time.Time]: January 1 of year 1, 00:00 UTC. *)
Definition Zero : Time := Unix (-62135596800).

(** [t.Before(u)]. *)
Definition Before (t u : Time) : bool := bool_decide (t < u).

End Time.

Module Bufio.

(** [bufio.MaxScanTokenSize]. *)
Definition MaxScanTokenSize : Z := 64 * 1024.

(** [dropCR]: one trailing carriage return goes away. *)
Definition dropCR (line : string) : string :=
  match String.rev line with
  | String "013" t => String.rev t
  | _ => line
  end.

(** The raw lines a [bufio.Scanner] with the default split function
    meets: the pieces between new lines, without a last empty one. *)
Definition raw_lines (content : string) : list string :=
  let pieces := Strings.Split content "010"%char in
  match last pieces with
  | Some EmptyString => removelast pieces
  | _ => pieces
  end.

(** All of [scanner.Scan()]/[scanner.Text()] until the scanner stops,
    with [scanner.Err()]: a line that does not fit the buffer gives
    [ErrTooLong] ([None]), otherwise the lines come without their line
    ends. *)
Definition ScanLines (content : string) : option (list string) :=
  let raw := raw_lines content in
  if forallb (fun l => bool_decide (Z.of_nat (String.length l) < MaxScanTokenSize)) raw
  then Some (dropCR <$> raw)
  else None.

End Bufio.

(* ===================================================================== *)
(** * Results, configuration, the environment and the world              *)
(* ===================================================================== *)

(** A Go [error], by its message. *)
Definition error : Type := string.

(** What a Go function with an [error] result gives back. *)
Inductive result (A : Type) : Type :=
  | Ok (a : A)
  | Err (e : error).
Arguments Ok {A} a.
Arguments Err {A} e.

(** The same for code that can also panic: the panic unwinds through every
    caller (nothing in the program recovers) and ends the process. *)
Inductive outcome (A : Type) : Type :=
  | Ret (a : A)
  | Fail (e : error)
  | Panic (msg : string).
Arguments Ret {A} a.
Arguments Fail {A} e.
Arguments Panic {A} msg.

Definition of_result {A} (r : result A) : outcome A :=
  match r with Ok a => Ret a | Err e => Fail e end.

(** [s[:n]] with Go's run-time check. *)
Definition slice_prefix (s : string) (n : nat) : outcome string :=
  match Strings.slice_to s n with
  | Some p => Ret p
  | None =>
      Panic ("runtime error: slice bounds out of range [:" +:+ pretty n
             +:+ "] with length " +:+ pretty (String.length s))
  end.

(** [config.Config]. *)
Record Config : Type := {
  Host : string;
  User : string;
  Password : string;
  DBName : string;
  Port : Z;
  ScriptsDir : string;
  MissedScriptsFile : string
}.

(** [git.ScriptInfo]. *)
Record ScriptInfo : Type := {
  Name : string;
  Path : string;
  Timestamp : Time.Time
}.

(** [migration.ScriptRecord], without its two date columns, which no
    decision reads. *)
Record ScriptRecord : Type := {
  SNO : Z;
  ScriptName : string;
  Completed : bool;
  EndOfBatch : bool;
  LastGitID : string
}.

(** A row of the tracking table [sqlScriptExec]: [sno] is the primary key,
    [scriptName] is NOT NULL, the other three columns are nullable. *)
Record Row : Type := {
  sno : Z;
  scriptName : string;
  completed : option bool;
  endofbatch : option bool;
  lastgitid : option string
}.

#[global] Instance ScriptInfo_eq_dec : EqDecision ScriptInfo.
Proof. solve_decision. Defined.

#[global] Instance ScriptRecord_eq_dec : EqDecision ScriptRecord.
Proof. solve_decision. Defined.

#[global] Instance Row_eq_dec : EqDecision Row.
Proof. solve_decision. Defined.

(** The database the tool is pointed at: the tracking table with its
    AUTO_INCREMENT counter (an absent table and an empty one are the same
    thing here, as [CREATE TABLE IF NOT EXISTS] sees them), and the rest of
    the schema, known by the script batches committed to it so far. *)
Record Database : Type := {
  rows : list Row;
  auto_increment : Z;
  applied : list string
}.

(** An open transaction: what the schema looks like inside it, and the
    tracking rows it has inserted and not yet committed. *)
Record Tx : Type := {
  tx_applied : list string;
  tx_rows : list Row
}.

(** Calls on [console.Console]; the message is the format applied to its
    arguments. *)
Inductive ConsoleCall : Type :=
  | Header (msg : string)
  | Info (msg : string)
  | Success (msg : string)
  | Warn (msg : string)
  | Error (msg : string)
  | Failure (msg : string)
  | Script (name status : string)
  | Summary (total success failed skipped : Z).

(** Statements that write: sent inside the open transaction ([InTx]) or
    straight on the connection pool ([Direct]). *)
Inductive Mode : Type := InTx | Direct.

Inductive SqlCall : Type :=
  | Begin
  | ExecuteSQL (content : string)
  | InsertRow (mode : Mode) (scriptName : string) (completed endOfBatch : bool) (gitID : string)
  | Commit
  | Rollback.

Inductive Event : Type :=
  | Console (c : ConsoleCall)
  | Sql (s : SqlCall).

#[global] Instance ConsoleCall_eq_dec : EqDecision ConsoleCall.
Proof. solve_decision. Defined.

#[global] Instance Mode_eq_dec : EqDecision Mode.
Proof. solve_decision. Defined.

#[global] Instance SqlCall_eq_dec : EqDecision SqlCall.
Proof. solve_decision. Defined.

#[global] Instance Event_eq_dec : EqDecision Event.
Proof. solve_decision. Defined.

(** What the run cannot decide: the answers of the git command line, the
    wall clock, the files on disk, whether a script batch goes through
    against a given schema, and how [sort.Slice] orders equal keys. *)
Record Env : Type := {
  (** [Git.run]: the trimmed standard output of [git args...] in the
      scripts directory, or the error. *)
  git_run : list string → result string;
  (** [time.Now()] as read while the timestamp of the given path is
      looked up. *)
  time_Now : string → Time.Time;
  (** [os.ReadFile] / [os.Open] followed by reading to the end. *)
  os_ReadFile : string → result string;
  (** [tx.Exec(content)] for a script batch, against the schema made by the
      batches applied before it: [None] when it goes through. *)
  db_ExecuteSQL : list string → string → option error;
  (** [sort.Slice(x, less)]. *)
  sort_Slice : (ScriptInfo → ScriptInfo → bool) → list ScriptInfo → list ScriptInfo
}.

(** The world a run changes: the committed database, the transaction open
    on it (the program has at most one), the faults the connection will
    meet (one entry per round trip to the server that the tracker or the
    transaction makes: [Some e] fails that round trip with [e]; an
    exhausted list means a healthy connection), and everything the run has
    said and sent so far. *)
Record World : Type := {
  db : Database;
  tx : option Tx;
  faults : list (option error);
  trace : list Event
}.

Definition set_db (d : Database) (w : World) : World :=
  {| db := d; tx := tx w; faults := faults w; trace := trace w |}.
Definition set_tx (t : option Tx) (w : World) : World :=
  {| db := db w; tx := t; faults := faults w; trace := trace w |}.
Definition set_faults (f : list (option error)) (w : World) : World :=
  {| db := db w; tx := tx w; faults := f; trace := trace w |}.
Definition add_event (e : Event) (w : World) : World :=
  {| db := db w; tx := tx w; faults := faults w; trace := trace w ++ [e] |}.

(** ** The monad of the stateful code *)

Definition M (A : Type) : Type := World → World * outcome A.

Definition ret {A} (a : A) : M A := λ w, (w, Ret a).
Definition throw {A} (e : error) : M A := λ w, (w, Fail e).
Definition panic {A} (msg : string) : M A := λ w, (w, Panic msg).

Definition bind {A B} (m : M A) (k : A → M B) : M B :=
  λ w, match m w with
       | (w', Ret a) => k a w'
       | (w', Fail e) => (w', Fail e)
       | (w', Panic p) => (w', Panic p)
       end.

Notation "'let*' x ':=' m 'in' k" := (bind m (λ x, k))
  (at level 10, x name, m at level 100, k at level 200).

Definition lift {A} (o : outcome A) : M A := λ w, (w, o).

(** [if err != nil { return fmt.Errorf(prefix + "%w", err) }]. *)
Definition wrap {A} (prefix : string) (m : M A) : M A :=
  λ w, match m w with
       | (w', Fail e) => (w', Fail (prefix +:+ e))
       | r => r
       end.

(** Look at the error instead of returning it. *)
Definition catch {A} (m : M A) : M (result A) :=
  λ w, match m w with
       | (w', Ret a) => (w', Ret (Ok a))
       | (w', Fail e) => (w', Ret (Err e))
       | (w', Panic p) => (w', Panic p)
       end.

(** [defer cleanup()]: [cleanup] runs when [body] is left, however it is
    left, and its own result is dropped. *)
Definition defer {A} (cleanup : M unit) (body : M A) : M A :=
  λ w, let '(w', r) := body w in ((cleanup w').1, r).

Definition log (e : Event) : M unit := λ w, (add_event e w, Ret tt).
Definition say (c : ConsoleCall) : M unit := log (Console c).

(** One round trip to the database server. *)
Definition round_trip : M unit :=
  λ w, match faults w with
       | [] => (w, Ret tt)
       | None :: rest => (set_faults rest w, Ret tt)
       | Some e :: rest => (set_faults rest w, Fail e)
       end.

(** [m[key]] on a Go [map[string]bool]: a missing key reads as [false]. *)
Definition index_bool (m : gmap string bool) (key : string) : bool :=
  default false (m !! key).

(** [len(x)] as a Go [int]. *)
Definition len {A} (l : list A) : Z := Z.of_nat (length l).

(* ===================================================================== *)
(** * internal/config/config.go                                          *)
(* ===================================================================== *)

Module ConfigArgs.

Definition usage : error :=
  "usage: db-migration <host> <user> <password> <dbname> <port> <scripts_dir> [missed_scripts_file]".

(** [args[i]], for an index that the length checks around it keep in
    range. *)
Definition arg (args : list string) (i : nat) : string := default "" (args !! i).

(** [ParseArgs]. [not_exist path] is [os.IsNotExist(err)] for the [err] of
    [os.Stat(path)]: false when the path can be examined, and false too
    when it cannot for another reason than its absence. *)
Definition ParseArgs (not_exist : string → bool) (args : list string) : result Config :=
  if decide (len args < 6) then Err usage
  else
    match Strconv.Atoi (arg args 4) with
    | None => Err ("invalid port number: " +:+ arg args 4)
    | Some port =>
        let cfg := {| Host := arg args 0;
                      User := arg args 1;
                      Password := arg args 2;
                      DBName := arg args 3;
                      Port := port;
                      ScriptsDir := arg args 5;
                      MissedScriptsFile := if decide (len args >= 7) then arg args 6 else "" |} in
        (* validate scripts directory exists *)
        if not_exist (ScriptsDir cfg) then
          Err ("scripts directory does not exist: " +:+ ScriptsDir cfg)
        (* validate missed scripts file exists if provided *)
        else if bool_decide (MissedScriptsFile cfg ≠ "") && not_exist (MissedScriptsFile cfg) then
          Err ("missed scripts file does not exist: " +:+ MissedScriptsFile cfg)
        else Ok cfg
    end.

(** [DSN]. *)
Definition DSN (c : Config) : string :=
  User c +:+ ":" +:+ Password c +:+ "@tcp(" +:+ Host c +:+ ":" +:+ Strconv.Itoa (Port c)
  +:+ ")/" +:+ DBName c +:+ "?parseTime=true&multiStatements=true".

End ConfigArgs.

(* ===================================================================== *)
(** * internal/git/git.go                                                *)
(* ===================================================================== *)

Module Git.

(** [GetCurrentCommit]. *)
Definition GetCurrentCommit (env : Env) : result string :=
  git_run env ["rev-parse"; "HEAD"].

(** [GetEmptyTreeHash]. *)
Definition GetEmptyTreeHash (env : Env) : result string :=
  git_run env ["hash-object"; "-t"; "tree"; "/dev/null"].

(** [DiffFileNames]. *)
Definition DiffFileNames (env : Env) (fromCommit toCommit : string)
  : result (list string) :=
  match (if decide (fromCommit = "") then GetEmptyTreeHash env else Ok fromCommit) with
  | Err e => Err e
  | Ok fromCommit =>
      match git_run env ["diff"; "--name-only"; fromCommit; toCommit] with
      | Err e => Err e
      | Ok output =>
          if decide (output = "") then Ok []
          else Ok (Strings.Split output "010"%char)
      end
  end.

(** The loop of [DiffFileStatus] over the lines of the output: a line of
    at least two fields maps its second field to its first; a later line
    for the same file name overwrites an earlier one. *)
Definition status_of_lines (lines : list string) : gmap string string :=
  foldl (λ result line,
           match Strings.Fields line with
           | status :: filename :: _ => <[filename := status]> result
           | _ => result
           end) ∅ lines.

(** [DiffFileStatus]. *)
Definition DiffFileStatus (env : Env) (fromCommit toCommit : string)
  : result (gmap string string) :=
  match (if decide (fromCommit = "") then GetEmptyTreeHash env else Ok fromCommit) with
  | Err e => Err e
  | Ok fromCommit =>
      match git_run env ["diff"; "--name-status"; fromCommit; toCommit] with
      | Err e => Err e
      | Ok output =>
          if decide (output = "") then Ok ∅
          else Ok (status_of_lines (Strings.Split output "010"%char))
      end
  end.

(** [GetFileCommitTimestamp]; its error result is always nil. *)
Definition GetFileCommitTimestamp (env : Env) (filepath : string) : Time.Time :=
  match git_run env ["log"; "--follow"; "--diff-filter=A"; "--format=%ct"; "-1"; "--"; filepath] with
  | Err _ => time_Now env filepath
  | Ok output =>
      if decide (output = "") then time_Now env filepath
      else match Strconv.ParseInt output with
           | None => time_Now env filepath
           | Some timestamp => Time.Unix timestamp
           end
  end.

(** The condition of the directory check in [GetChangedScripts],
    [!strings.Contains(relDir, scriptsBase) && relDir != scriptsBase &&
     file[:len(scriptsBase)] != scriptsBase], evaluated left to right: the
    slice expression is reached only when the first two operands hold. *)
Definition outside_scripts_dir (file scriptsDir : string) : outcome bool :=
  let relDir := Filepath.Dir file in
  let scriptsBase := Filepath.Base scriptsDir in
  if negb (Strings.Contains relDir scriptsBase) then
    if bool_decide (relDir ≠ scriptsBase) then
      match slice_prefix file (String.length scriptsBase) with
      | Ret p => Ret (bool_decide (p ≠ scriptsBase))
      | Fail e => Fail e
      | Panic msg => Panic msg
      end
    else Ret false
  else Ret false.

(** The [for _, file := range files] loop of [GetChangedScripts], with the
    slice [scripts] built so far. *)
Fixpoint collect (env : Env) (scriptsDir : string) (files : list string)
    (scripts : list ScriptInfo) : outcome (list ScriptInfo) :=
  match files with
  | [] => Ret scripts
  | file :: rest =>
      if negb (Strings.HasSuffix file ".sql") then collect env scriptsDir rest scripts
      else
        match outside_scripts_dir file scriptsDir with
        | Panic msg => Panic msg
        | Fail e => Fail e
        | Ret outside =>
            if outside && negb (Strings.HasSuffix file ".sql")
            then collect env scriptsDir rest scripts
            else
              let timestamp := GetFileCommitTimestamp env file in
              collect env scriptsDir rest
                (scripts ++ [{| Name := Filepath.Base file;
                                Path := file;
                                Timestamp := timestamp |}])
        end
  end.

(** The [less] function handed to [sort.Slice]. *)
Definition less (a b : ScriptInfo) : bool :=
  Time.Before (Timestamp a) (Timestamp b).

(** [GetChangedScripts]. *)
Definition GetChangedScripts (env : Env) (fromCommit toCommit scriptsDir : string)
  : outcome (list ScriptInfo) :=
  match DiffFileNames env fromCommit toCommit with
  | Err e => Fail e
  | Ok files =>
      match collect env scriptsDir files [] with
      | Ret scripts => Ret (sort_Slice env less scripts)
      | Fail e => Fail e
      | Panic msg => Panic msg
      end
  end.

(** One turn of the loop of [CheckModifications] over the status map. *)
Definition check_one (fileSet : gmap string bool)
    (acc : list string * list string) (entry : string * string)
  : list string * list string :=
  let '(modified, deleted) := acc in
  let '(file, status) := entry in
  if negb (index_bool fileSet file) then (modified, deleted)
  else if decide (status = "M") then (modified ++ [file], deleted)
  else if decide (status = "D") then (modified, deleted ++ [file])
  else (modified, deleted).

(** [CheckModifications]: the two slices [modified] and [deleted]. Go
    visits the status map in an order of its own choosing, which shows in
    the order of the two slices only. *)
Definition CheckModifications (env : Env) (fromCommit toCommit : string)
    (files : list string) : result (list string * list string) :=
  if decide (fromCommit = "") then Ok ([], [])
  else
    match DiffFileStatus env fromCommit toCommit with
    | Err e => Err e
    | Ok statusMap =>
        let fileSet := foldl (λ set f, <[f := true]> set) ∅ files in
        Ok (foldl (check_one fileSet) ([], []) (map_to_list statusMap))
    end.

(** [IsGitRepository]. *)
Definition IsGitRepository (env : Env) : bool :=
  match git_run env ["rev-parse"; "--git-dir"] with
  | Ok _ => true
  | Err _ => false
  end.

End Git.

(* ===================================================================== *)
(** * The database connection ([database/sql] through the db package)    *)
(* ===================================================================== *)

Module DB.

Definition ErrTxDone : error :=
  "sql: transaction has already been committed or rolled back".

Definition get_db : M Database := λ w, (w, Ret (db w)).
Definition put_db (d : Database) : M unit := λ w, (set_db d w, Ret tt).
Definition get_tx : M (option Tx) := λ w, (w, Ret (tx w)).
Definition put_tx (t : option Tx) : M unit := λ w, (set_tx t w, Ret tt).

(** [db.Begin()]: the transaction starts from the committed schema. *)
Definition Begin : M unit :=
  let* _ := log (Sql Begin) in
  let* _ := round_trip in
  let* d := get_db in
  put_tx (Some {| tx_applied := applied d; tx_rows := [] |}).

(** [db.ExecuteSQL(tx, content)]: the whole file as one batch, inside the
    transaction. *)
Definition ExecuteSQL (env : Env) (content : string) : M unit :=
  let* _ := log (Sql (ExecuteSQL content)) in
  let* t := get_tx in
  match t with
  | None => throw ErrTxDone
  | Some t =>
      match db_ExecuteSQL env (tx_applied t) content with
      | Some e => throw e
      | None => put_tx (Some {| tx_applied := tx_applied t ++ [content];
                                tx_rows := tx_rows t |})
      end
  end.

(** AUTO_INCREMENT hands out the next ordinal at once; a value taken by
    a transaction that is rolled back later is not handed out again. *)
Definition next_sno : M Z :=
  λ w, let d := db w in
       (set_db {| rows := rows d;
                  auto_increment := auto_increment d + 1;
                  applied := applied d |} w,
        Ret (auto_increment d)).

Definition new_row (n : Z) (name : string) (completed endOfBatch : bool)
    (gitID : string) : Row :=
  {| sno := n; scriptName := name; completed := Some completed;
     endofbatch := Some endOfBatch; lastgitid := Some gitID |}.

(** [tx.Exec(INSERT INTO sqlScriptExec ...)]. *)
Definition tx_Insert (name : string) (completed endOfBatch : bool) (gitID : string)
  : M unit :=
  let* _ := log (Sql (InsertRow InTx name completed endOfBatch gitID)) in
  let* t := get_tx in
  match t with
  | None => throw ErrTxDone
  | Some t =>
      let* _ := round_trip in
      let* n := next_sno in
      put_tx (Some {| tx_applied := tx_applied t;
                      tx_rows := tx_rows t ++ [new_row n name completed endOfBatch gitID] |})
  end.

(** [db.Exec(INSERT INTO sqlScriptExec ...)]: on a connection of its own,
    committed at once. *)
Definition db_Insert (name : string) (completed endOfBatch : bool) (gitID : string)
  : M unit :=
  let* _ := log (Sql (InsertRow Direct name completed endOfBatch gitID)) in
  let* _ := round_trip in
  let* n := next_sno in
  let* d := get_db in
  put_db {| rows := rows d ++ [new_row n name completed endOfBatch gitID];
            auto_increment := auto_increment d;
            applied := applied d |}.

(** [tx.Commit()]: the transaction is done whether or not the commit goes
    through; when it does, its batches and rows become the database's. *)
Definition Commit : M unit :=
  let* _ := log (Sql Commit) in
  let* t := get_tx in
  match t with
  | None => throw ErrTxDone
  | Some t =>
      let* _ := put_tx None in
      let* _ := round_trip in
      let* d := get_db in
      put_db {| rows := rows d ++ tx_rows t;
                auto_increment := auto_increment d;
                applied := tx_applied t |}
  end.

(** [tx.Rollback()], whose error every caller drops: an open transaction
    is discarded; on a finished one nothing happens ([ErrTxDone]). *)
Definition Rollback : M unit :=
  let* t := get_tx in
  match t with
  | None => ret tt
  | Some _ =>
      let* _ := log (Sql Rollback) in
      put_tx None
  end.

End DB.

(* ===================================================================== *)
(** * internal/migration/tracker.go                                      *)
(* ===================================================================== *)

Module Tracker.

(** [WHERE endofbatch = 1]: a NULL flag does not match. *)
Definition is_terminator (r : Row) : bool := bool_decide (endofbatch r = Some true).

(** [WHERE completed = 1]. *)
Definition is_completed (r : Row) : bool := bool_decide (completed r = Some true).

Definition later (r : Row) (best : option Row) : option Row :=
  match best with
  | None => Some r
  | Some b => if bool_decide (sno b < sno r) then Some r else Some b
  end.

(** [SELECT ... WHERE endofbatch = 1 ORDER BY sno DESC LIMIT 1]: the
    terminator row of greatest ordinal, if there is one. *)
Definition last_terminator (table : list Row) : option Row :=
  foldl (λ best r, if is_terminator r then later r best else best) None table.

(** [QueryRow(...).Scan(...)] of that query; [Ret None] is
    [sql.ErrNoRows]. *)
Definition query_last_terminator : M (option Row) :=
  let* _ := round_trip in
  let* d := DB.get_db in
  ret (last_terminator (rows d)).

(** [EnsureTable]. *)
Definition EnsureTable : M unit :=
  wrap "failed to create tracking table: " round_trip.

(** [GetLastSuccessfulCommit]. *)
Definition GetLastSuccessfulCommit : M string :=
  let* found := wrap "failed to get last successful commit: " query_last_terminator in
  match found with
  | None => ret ""                       (* err == sql.ErrNoRows *)
  | Some r =>
      match lastgitid r with
      | None => ret ""                   (* !lastGitID.Valid *)
      | Some lastGitID => ret lastGitID
      end
  end.

(** The map built by the loop of [GetExecutedScriptNames]. *)
Definition executed_names (table : list Row) : gmap string bool :=
  foldl (λ executed r,
           if is_completed r then <[scriptName r := true]> executed else executed)
        ∅ table.

(** [GetExecutedScriptNames]. *)
Definition GetExecutedScriptNames : M (gmap string bool) :=
  let* _ := wrap "failed to get executed scripts: " round_trip in
  let* d := DB.get_db in
  ret (executed_names (rows d)).

(** [RecordExecution]. *)
Definition RecordExecution (scriptName : string) (completed endOfBatch : bool)
    (gitID : string) : M unit :=
  wrap ("failed to record execution for " +:+ scriptName +:+ ": ")
       (DB.tx_Insert scriptName completed endOfBatch gitID).

(** [RecordExecutionDirect]. *)
Definition RecordExecutionDirect (scriptName : string) (completed endOfBatch : bool)
    (gitID : string) : M unit :=
  wrap ("failed to record execution for " +:+ scriptName +:+ ": ")
       (DB.db_Insert scriptName completed endOfBatch gitID).

Definition quote : string := String "034"%char EmptyString.

Definition null_to_bool (index column : string) : error :=
  "sql: Scan error on column index " +:+ index +:+ ", name " +:+ quote +:+ column
  +:+ quote +:+ ": converting NULL to bool is unsupported".

(** [rows.Scan(&rec.SNO, &rec.ScriptName, &rec.Completed, &rec.EndOfBatch,
    &rec.LastGitID, ...)] with [COALESCE(lastgitid, '')]: a NULL flag
    cannot be stored in a Go [bool]. *)
Definition scan_record (r : Row) : result ScriptRecord :=
  match completed r, endofbatch r with
  | None, _ => Err (null_to_bool "2" "completed")
  | Some _, None => Err (null_to_bool "3" "endofbatch")
  | Some c, Some e =>
      Ok {| SNO := sno r; ScriptName := scriptName r; Completed := c;
            EndOfBatch := e; LastGitID := default "" (lastgitid r) |}
  end.

(** The [for rows.Next()] loop of [GetHalfCommittedScripts]. *)
Fixpoint scan_records (table : list Row) (scripts : list ScriptRecord)
  : result (list ScriptRecord) :=
  match table with
  | [] => Ok scripts
  | r :: rest =>
      match scan_record r with
      | Err e => Err ("failed to scan script record: " +:+ e)
      | Ok rec => scan_records rest (scripts ++ [rec])
      end
  end.

Definition sno_le (a b : Row) : Prop := sno a ≤ sno b.

#[global] Instance sno_le_dec : RelDecision sno_le.
Proof. intros a b. unfold sno_le. apply _. Defined.

(** [ORDER BY sno ASC]. *)
Definition order_by_sno (table : list Row) : list Row :=
  merge_sort sno_le table.

(** [WHERE sno > ? ORDER BY sno ASC]. *)
Definition rows_after (lastBatchSNO : Z) (table : list Row) : list Row :=
  order_by_sno (List.filter (λ r, bool_decide (lastBatchSNO < sno r)) table).

(** [GetHalfCommittedScripts]. *)
Definition GetHalfCommittedScripts : M (list ScriptRecord) :=
  let* found := wrap "failed to get last batch SNO: " query_last_terminator in
  let lastBatchSNO := match found with None => 0 | Some r => sno r end in
  let* _ := wrap "failed to get half-committed scripts: " round_trip in
  let* d := DB.get_db in
  lift (of_result (scan_records (rows_after lastBatchSNO (rows d)) [])).

(** [HasRecords]. *)
Definition HasRecords : M bool :=
  let* _ := wrap "failed to count records: " round_trip in
  let* d := DB.get_db in
  ret (bool_decide (len (rows d) > 0)).

(** [GetAllScripts]. *)
Definition GetAllScripts : M (list ScriptRecord) :=
  let* _ := wrap "failed to get all scripts: " round_trip in
  let* d := DB.get_db in
  lift (of_result (scan_records (order_by_sno (rows d)) [])).

End Tracker.

(** [for _, x := range l { body }] where the body neither breaks nor
    returns a value. *)
Fixpoint for_each {A} (l : list A) (body : A → M unit) : M unit :=
  match l with
  | [] => ret tt
  | x :: rest => let* _ := body x in for_each rest body
  end.

(* ===================================================================== *)
(** * internal/migration/validator.go                                    *)
(* ===================================================================== *)

Module Validator.

(** One turn of the loop of [CheckFileModifications] over the status map,
    with the two slices built so far. *)
Definition classify_one (executedScripts : gmap string bool)
    (acc : list string * list string) (entry : string * string)
  : list string * list string :=
  let '(modified, deleted) := acc in
  let '(file, status) := entry in
  let baseName := Filepath.Base file in
  if negb (index_bool executedScripts file) && negb (index_bool executedScripts baseName)
  then (modified, deleted)
  else if decide (status = "M") then (modified ++ [file], deleted)
  else if decide (status = "D") then (modified, deleted ++ [file])
  else (modified, deleted).

(** The whole loop. Go visits a map in an order of its own choosing; the
    order only shows in the order of the two slices, and what the function
    returns depends on their lengths alone. *)
Definition classify (executedScripts : gmap string bool)
    (statusMap : gmap string string) : list string * list string :=
  foldl (classify_one executedScripts) ([], []) (map_to_list statusMap).

(** [CheckFileModifications]. *)
Definition CheckFileModifications (env : Env) (fromCommit toCommit : string)
    (executedScripts : gmap string bool) : M unit :=
  if decide (fromCommit = "") then ret tt
  else
    let* statusMap :=
      wrap "failed to get file status: "
           (lift (of_result (Git.DiffFileStatus env fromCommit toCommit))) in
    let modified := (classify executedScripts statusMap).1 in
    let deleted := (classify executedScripts statusMap).2 in
    let* _ :=
      if decide (len modified > 0) then
        let* _ := say (Error "The following previously executed scripts have been MODIFIED:") in
        for_each modified (λ f, say (Failure ("  - " +:+ f)))
      else ret tt in
    let* _ :=
      if decide (len deleted > 0) then
        let* _ := say (Error "The following previously executed scripts have been DELETED:") in
        for_each deleted (λ f, say (Failure ("  - " +:+ f)))
      else ret tt in
    if decide (len modified > 0 ∨ len deleted > 0) then
      throw ("detected " +:+ Strconv.Itoa (len modified) +:+ " modified and "
            +:+ Strconv.Itoa (len deleted)
            +:+ " deleted scripts that were previously executed - migration aborted")
    else ret tt.

(** [CheckHalfCommittedFiles]. *)
Definition CheckHalfCommittedFiles (halfCommitted : list ScriptRecord) : M unit :=
  if decide (len halfCommitted = 0) then ret tt
  else
    let* _ := say (Warn ("Detected " +:+ Strconv.Itoa (len halfCommitted)
                         +:+ " scripts from incomplete previous batch:")) in
    let* _ :=
      for_each halfCommitted (λ rec,
        let status := if negb (Completed rec) then "FAILED" else "completed" in
        say (Info ("  - " +:+ ScriptName rec +:+ " (" +:+ status +:+ ")"))) in
    (* the second loop returns at the first record that is not completed *)
    match List.find (λ rec, negb (Completed rec)) halfCommitted with
    | Some rec =>
        throw ("previous migration batch has failed script: " +:+ ScriptName rec
              +:+ " - manual intervention required")
    | None =>
        say (Info "All scripts from incomplete batch were successful, continuing...")
    end.

(** [ValidateScriptsDirectory]. *)
Definition ValidateScriptsDirectory (env : Env) : M unit :=
  if Git.IsGitRepository env then ret tt
  else throw "scripts directory is not within a git repository".

End Validator.

(* ===================================================================== *)
(** * internal/migration/migrator.go                                     *)
(* ===================================================================== *)

Module Migrator.

(** [executeScript]. *)
Definition executeScript (env : Env) (cfg : Config) (script : ScriptInfo)
    (gitID : string) (isLast : bool) : M unit :=
  let scriptPath := Filepath.Join (ScriptsDir cfg) (Name script) in
  let* content :=
    match os_ReadFile env scriptPath with
    | Ok content => ret content
    | Err _ =>
        (* try the full path from git *)
        match os_ReadFile env (Path script) with
        | Ok content => ret content
        | Err err => throw ("failed to read script " +:+ Name script +:+ ": " +:+ err)
        end
    end in
  let* _ := wrap "failed to begin transaction: " DB.Begin in
  defer DB.Rollback
    (let* executed := catch (DB.ExecuteSQL env content) in
     match executed with
     | Err err =>
         (* the result of recording the failure is not looked at *)
         let* _ := catch (Tracker.RecordExecutionDirect (Name script) false false gitID) in
         throw ("script execution error: " +:+ err)
     | Ok _ =>
         let* _ := wrap "failed to record execution: "
                        (Tracker.RecordExecution (Name script) true isLast gitID) in
         wrap "failed to commit transaction: " DB.Commit
     end).

(** The lines of the missed scripts file that name a script. *)
Definition missed_lines (lines : list string) : list string :=
  List.filter (λ line, bool_decide (line ≠ "") && negb (Strings.HasPrefix line "#"))
              (Strings.TrimSpace <$> lines).

(** The [for i, scriptName := range missedScripts] loop of
    [executeMissedScripts], from index [i] on. *)
Fixpoint missed_loop (env : Env) (cfg : Config) (currentCommit : string)
    (executedScripts : gmap string bool) (lenMissed : Z) (i : Z)
    (rest : list string) : M unit :=
  match rest with
  | [] => ret tt
  | scriptName :: rest' =>
      if index_bool executedScripts scriptName then
        (* skip if already executed *)
        let* _ := say (Script scriptName "skipped") in
        missed_loop env cfg currentCommit executedScripts lenMissed (i + 1) rest'
      else
        let isLast := bool_decide (i = lenMissed - 1) in
        let script := {| Name := scriptName;
                         Path := Filepath.Join (ScriptsDir cfg) scriptName;
                         Timestamp := Time.Zero |} in
        let* _ := say (Script scriptName "executing") in
        let* r := catch (executeScript env cfg script currentCommit isLast) in
        match r with
        | Err err =>
            let* _ := say (Script scriptName "failed") in
            throw ("failed to execute missed script " +:+ scriptName +:+ ": " +:+ err)
        | Ok _ =>
            let* _ := say (Script scriptName "success") in
            missed_loop env cfg currentCommit executedScripts lenMissed (i + 1) rest'
        end
  end.

(** [executeMissedScripts]. *)
Definition executeMissedScripts (env : Env) (cfg : Config) : M unit :=
  let* _ := say (Header "Processing Missed Scripts") in
  let* content := wrap "failed to open missed scripts file: "
                       (lift (of_result (os_ReadFile env (MissedScriptsFile cfg)))) in
  match Bufio.ScanLines content with
  | None => throw "error reading missed scripts file: bufio.Scanner: token too long"
  | Some lines =>
      let missedScripts := missed_lines lines in
      if decide (len missedScripts = 0) then say (Info "No missed scripts to process")
      else
        let* _ := say (Info ("Found " +:+ Strconv.Itoa (len missedScripts)
                             +:+ " missed scripts to process")) in
        let* currentCommit := wrap "failed to get current commit: "
                                   (lift (of_result (Git.GetCurrentCommit env))) in
        let* executedScripts := wrap "failed to get executed scripts: "
                                     Tracker.GetExecutedScriptNames in
        let* _ := missed_loop env cfg currentCommit executedScripts
                              (len missedScripts) 0 missedScripts in
        say (Success "All missed scripts processed successfully")
  end.

(** What steps 1 to 10 of [Run] hand to the execution loop. *)
Record Discovery : Type := {
  scripts : list ScriptInfo;
  pendingScripts : list ScriptInfo;
  currentCommit : string
}.

(** Step 10: the scripts whose name the tracking table does not hold as
    completed. *)
Definition pending (executedScripts : gmap string bool) (scripts : list ScriptInfo)
  : list ScriptInfo :=
  List.filter (λ script, negb (index_bool executedScripts (Name script))) scripts.

(** [Run], steps 1 to 10 (up to [if len(pendingScripts) == 0]): [None]
    when there is nothing to execute and [Run] returns nil there. *)
Definition Run_discover (env : Env) (cfg : Config) : M (option Discovery) :=
  let* _ := say (Header "DB Migration Started") in
  (* 1. validate git repository *)
  let* _ := say (Info "Validating scripts directory...") in
  let* _ := Validator.ValidateScriptsDirectory env in
  (* 2. ensure tracking table exists *)
  let* _ := say (Info "Ensuring tracking table exists...") in
  let* _ := Tracker.EnsureTable in
  (* 3. get last successful git commit from DB *)
  let* lastGitID := wrap "failed to get last successful commit: "
                         Tracker.GetLastSuccessfulCommit in
  let* _ :=
    if decide (lastGitID = "") then
      say (Info "No previous migration found - this is a fresh migration")
    else
      let* short := lift (slice_prefix lastGitID 8) in
      say (Info ("Last successful migration at commit: " +:+ short)) in
  (* 4. execute missed scripts if file provided *)
  let* _ :=
    if decide (MissedScriptsFile cfg ≠ "") then executeMissedScripts env cfg
    else ret tt in
  (* 5. get executed scripts for modification check *)
  let* executedScripts := wrap "failed to get executed scripts: "
                               Tracker.GetExecutedScriptNames in
  (* 6. get current commit *)
  let* currentCommit := wrap "failed to get current commit: "
                             (lift (of_result (Git.GetCurrentCommit env))) in
  let* short := lift (slice_prefix currentCommit 8) in
  let* _ := say (Info ("Current commit: " +:+ short)) in
  (* 7. check file modifications *)
  let* _ := say (Info "Checking for modifications to executed scripts...") in
  let* _ := Validator.CheckFileModifications env lastGitID currentCommit executedScripts in
  (* 8. check half-committed files *)
  let* halfCommitted := wrap "failed to get half-committed scripts: "
                             Tracker.GetHalfCommittedScripts in
  let* _ := Validator.CheckHalfCommittedFiles halfCommitted in
  (* 9. get changed files from git, sorted by commit time *)
  let* _ := say (Info "Discovering new scripts...") in
  let* scripts := wrap "failed to get changed scripts: "
                       (lift (Git.GetChangedScripts env lastGitID currentCommit
                                                    (ScriptsDir cfg))) in
  (* 10. filter out already-executed scripts *)
  let pendingScripts := pending executedScripts scripts in
  if decide (len pendingScripts = 0) then
    let* _ := say (Success "No new scripts to execute") in
    ret None
  else
    ret (Some {| scripts := scripts;
                 pendingScripts := pendingScripts;
                 currentCommit := currentCommit |}).

(** The [for i, script := range pendingScripts] loop of [Run], from index
    [i] on, with the counters as they stand; it gives back the counters
    when it runs to the end. *)
Fixpoint pending_loop (env : Env) (cfg : Config) (currentCommit : string)
    (lenScripts lenPending skippedCount : Z) (i successCount failedCount : Z)
    (rest : list ScriptInfo) : M (Z * Z) :=
  match rest with
  | [] => ret (successCount, failedCount)
  | script :: rest' =>
      let isLast := bool_decide (i = lenPending - 1) in
      let* _ := say (Script (Name script) "executing") in
      let* r := catch (executeScript env cfg script currentCommit isLast) in
      match r with
      | Err err =>
          let* _ := say (Script (Name script) "failed") in
          let* _ := say (Error ("Script execution failed: " +:+ err)) in
          let failedCount := failedCount + 1 in
          (* report summary and exit *)
          let* _ := say (Summary lenScripts successCount failedCount skippedCount) in
          throw ("migration failed at script: " +:+ Name script)
      | Ok _ =>
          let* _ := say (Script (Name script) "success") in
          pending_loop env cfg currentCommit lenScripts lenPending skippedCount
                       (i + 1) (successCount + 1) failedCount rest'
      end
  end.

(** [Run], steps 11 and 12. *)
Definition Run_execute (env : Env) (cfg : Config) (found : Discovery) : M unit :=
  let scripts := scripts found in
  let pendingScripts := pendingScripts found in
  let* _ := say (Info ("Found " +:+ Strconv.Itoa (len pendingScripts)
                       +:+ " new scripts to execute")) in
  (* 11. execute each script in its own transaction *)
  let skippedCount := len scripts - len pendingScripts in
  let* counts := pending_loop env cfg (currentCommit found) (len scripts)
                              (len pendingScripts) skippedCount 0 0 0 pendingScripts in
  (* 12. report final status *)
  let* _ := say (Summary (len scripts) counts.1 counts.2 skippedCount) in
  say (Success "Migration completed successfully!").

(** [Run]. *)
Definition Run (env : Env) (cfg : Config) : M unit :=
  let* found := Run_discover env cfg in
  match found with
  | None => ret tt
  | Some found => Run_execute env cfg found
  end.

(** [ExecuteSingleScript]. *)
Definition ExecuteSingleScript (env : Env) (cfg : Config) (scriptName : string) : M unit :=
  let currentCommit :=
    match Git.GetCurrentCommit env with
    | Ok currentCommit => currentCommit
    | Err _ => "manual"
    end in
  let script := {| Name := scriptName;
                   Path := Filepath.Join (ScriptsDir cfg) scriptName;
                   Timestamp := Time.Zero |} in
  executeScript env cfg script currentCommit true.

End Migrator.

(* ===================================================================== *)
(** * Notions the theorems are stated with                               *)
(* ===================================================================== *)

(** The next round trip to the database server goes through. *)
Definition answered (w : World) : Prop :=
  ∀ e rest, faults w ≠ Some e :: rest.

(** The world after the next round trip. *)
Definition after_round_trip (w : World) : World := (round_trip w).1.

(** The status map holds a path, Modified or Deleted, whose full path or
    base name the tracking table holds as completed. *)
Definition tampered (executedScripts : gmap string bool)
    (statusMap : gmap string string) : Prop :=
  ∃ file status,
    statusMap !! file = Some status ∧
    (status = "M" ∨ status = "D") ∧
    (index_bool executedScripts file = true ∨
     index_bool executedScripts (Filepath.Base file) = true).



(** The entry [GetChangedScripts] makes for a path. *)
Definition script_of (env : Env) (file : string) : ScriptInfo :=
  {| Name := Filepath.Base file; Path := file;
     Timestamp := Git.GetFileCommitTimestamp env file |}.

(** The paths of a diff that end in [.sql]. *)
Definition sql_files (files : list string) : list string :=
  List.filter (λ file, Strings.HasSuffix file ".sql") files.


(** The fault, if any, that the round trip number [k] from now will meet. *)
Definition fault_at (k : nat) (w : World) : option error :=
  match faults w !! k with
  | Some (Some e) => Some e
  | _ => None
  end.

(** The rows a batch appends when every script of it goes through: the
    scripts from index [i] on of a pending list of length [lenPending],
    with ordinals from [n] on. *)
Fixpoint batch_rows (n : Z) (gitID : string) (lenPending i : Z)
    (batch : list ScriptInfo) : list Row :=
  match batch with
  | [] => []
  | script :: rest =>
      DB.new_row n (Name script) true (bool_decide (i = lenPending - 1)) gitID
      :: batch_rows (n + 1) gitID lenPending (i + 1) rest
  end.



(** The revision the tracking table gives as checkpoint: the empty string
    stands for none. *)
Definition checkpoint (table : list Row) : string :=
  match Tracker.last_terminator table with
  | Some r => default "" (lastgitid r)
  | None => ""
  end.

(** The tracking table holds a completed row of that name. *)
Definition completed_in (table : list Row) (name : string) : Prop :=
  index_bool (Tracker.executed_names table) name = true.

(** What [executeScript] reads for a script: the file in the scripts
    directory, else the file at the path git gave. *)
Definition script_content (env : Env) (cfg : Config) (script : ScriptInfo)
  : option string :=
  match os_ReadFile env (Filepath.Join (ScriptsDir cfg) (Name script)) with
  | Ok content => Some content
  | Err _ =>
      match os_ReadFile env (Path script) with
      | Ok content => Some content
      | Err _ => None
      end
  end.

(** The names the missed scripts file asks for; none when no file is
    configured or the file cannot be read. *)
Definition missed_names (env : Env) (cfg : Config) : list string :=
  if decide (MissedScriptsFile cfg = "") then []
  else
    match os_ReadFile env (MissedScriptsFile cfg) with
    | Ok content =>
        match Bufio.ScanLines content with
        | Some lines => Migrator.missed_lines lines
        | None => []
        end
    | Err _ => []
    end.

(** The summaries a trace holds, in order. *)
Definition summaries (t : list Event) : list (Z * Z * Z * Z) :=
  omap (λ e, match e with
             | Console (Summary total success failed skipped) =>
                 Some (total, success, failed, skipped)
             | _ => None
             end) t.

(** A console line that is neither a summary nor the start of a script. *)
Definition harmless (e : Event) : Prop :=
  match e with
  | Console (Summary _ _ _ _) => False
  | Console (Script _ status) => status ≠ "executing"
  | Console _ => True
  | Sql _ => False
  end.

(** A step that leaves the database alone and says only harmless things. *)
Definition quiet (w w' : World) : Prop :=
  db w' = db w ∧ ∃ said, trace w' = trace w ++ said ∧ Forall harmless said.



(** What steps 5 to 10 hand over, from the world [w2] they start in. *)
Definition handed_over (env : Env) (cfg : Config) (lastGitID : string) (w2 : World)
    (w' : World) (r : outcome (option Migrator.Discovery)) : Prop :=
  quiet w2 w' ∧
  ∀ found, r = Ret (Some found) →
    Git.GetCurrentCommit env = Ok (Migrator.currentCommit found) ∧
    Git.GetChangedScripts env lastGitID (Migrator.currentCommit found) (ScriptsDir cfg)
    = Ret (Migrator.scripts found) ∧
    Migrator.pendingScripts found
    = Migrator.pending (Tracker.executed_names (rows (db w2))) (Migrator.scripts found) ∧
    Migrator.pendingScripts found ≠ [].

(** What steps 1 to 10 do, from the world [w] they start in. *)
Definition discovered (env : Env) (cfg : Config) (w : World)
    (w' : World) (r : outcome (option Migrator.Discovery)) : Prop :=
  ∃ w1 w2,
    quiet w w1 ∧
    (w2 = w1 ∨
     (MissedScriptsFile cfg ≠ "" ∧ w2 = (Migrator.executeMissedScripts env cfg w1).1)) ∧
    handed_over env cfg (checkpoint (rows (db w))) w2 w' r.

(** From [w] to [w'] the tracking table only grew, by rows that satisfy
    [okrow], and what was said and sent satisfies [okev]. *)
Definition grows (okrow : Row → Prop) (okev : Event → Prop) (w w' : World) : Prop :=
  ∃ new said,
    rows (db w') = rows (db w) ++ new ∧
    trace w' = trace w ++ said ∧
    Forall okrow new ∧
    Forall okev said.

(** [okev] lets pass what has nothing to do with the execution of a named
    script: the harmless console lines and the SQL that is not an insert
    into the tracking table. *)
Definition tolerant (okev : Event → Prop) : Prop :=
  (∀ e, harmless e → okev e) ∧
  (∀ s, (∀ mode n c b g, s ≠ InsertRow mode n c b g) → okev (Sql s)).

(** [okrow] and [okev] let pass the execution of the script [name]. *)
Definition admits (okrow : Row → Prop) (okev : Event → Prop) (name : string) : Prop :=
  okev (Console (Script name "executing")) ∧
  (∀ mode c b g, okev (Sql (InsertRow mode name c b g))) ∧
  (∀ r, scriptName r = name → okrow r).

Definition is_summary (e : Event) : Prop :=
  match e with
  | Console (Summary _ _ _ _) => True
  | _ => False
  end.

(** A relation on worlds that every step of [m] respects. *)
Definition keeps {A} (R : World → World → Prop) (m : M A) : Prop :=
  ∀ w, R w (m w).1.

(** Running [m] from [w] ends in a world and an outcome that satisfy [Q]. *)
Definition spec {A} (m : M A) (w : World) (Q : World → outcome A → Prop) : Prop :=
  Q (m w).1 (m w).2.

(** ** The tracking table and its schema *)

(** The tracking table as its schema keeps it: [sno] is the primary key,
    handed out by AUTO_INCREMENT from 1 on, so the counter is positive and
    the ordinals are distinct, positive and below the counter. *)
Definition well_formed (d : Database) : Prop :=
  0 < auto_increment d ∧
  NoDup (sno <$> rows d) ∧
  Forall (λ r, 0 < sno r < auto_increment d) (rows d).

(** The ordinal [GetHalfCommittedScripts] takes as the end of the last
    batch: that of the terminator row of greatest ordinal, 0 without one. *)
Definition checkpoint_sno (table : list Row) : Z :=
  match Tracker.last_terminator table with
  | Some r => sno r
  | None => 0
  end.

(** The record that the scan of a row gives when neither flag is NULL. *)
Definition record_of (r : Row) : ScriptRecord :=
  {| SNO := sno r; ScriptName := scriptName r;
     Completed := default false (completed r);
     EndOfBatch := default false (endofbatch r);
     LastGitID := default "" (lastgitid r) |}.

(** Neither flag of the row is NULL. *)
Definition flagged (r : Row) : Prop := completed r ≠ None ∧ endofbatch r ≠ None.

(** From [w] to [w'] the tracking table only grew, by rows whose ordinals
    are fresh and ascend in the order of insertion. *)
Definition extends (w w' : World) : Prop :=
  auto_increment (db w) ≤ auto_increment (db w') ∧
  ∃ new,
    rows (db w') = rows (db w) ++ new ∧
    Forall (λ r, auto_increment (db w) ≤ sno r < auto_increment (db w')) new ∧
    StronglySorted (λ a b, sno a < sno b) new.

(** From [w] to [w'] no transaction was left open. *)
Definition settled (w w' : World) : Prop := tx w = None → tx w' = None.

(** From [w] to [w'] the script batches committed to the schema and the
    rows recorded as completed went together: the table grew by [new], the
    schema by [batches], one batch for each completed row. *)
Definition balanced (w w' : World) : Prop :=
  ∃ new batches,
    rows (db w') = rows (db w) ++ new ∧
    applied (db w') = applied (db w) ++ batches ∧
    length batches = length (List.filter Tracker.is_completed new).

(** The rows the missed scripts loop appends when every script it
    executes goes through: the names from index [i] on of a list of length
    [lenMissed], with ordinals from [n] on. *)
Fixpoint missed_rows (n : Z) (gitID : string) (executedScripts : gmap string bool)
    (lenMissed i : Z) (names : list string) : list Row :=
  match names with
  | [] => []
  | name :: rest =>
      if index_bool executedScripts name
      then missed_rows n gitID executedScripts lenMissed (i + 1) rest
      else DB.new_row n name true (bool_decide (i = lenMissed - 1)) gitID
           :: missed_rows (n + 1) gitID executedScripts lenMissed (i + 1) rest
  end.

(** The directory check of [GetChangedScripts] reaches [file[:len(scriptsBase)]]
    with a [file] shorter than [scriptsBase]. *)
Definition slices_past_end (scriptsDir file : string) : bool :=
  negb (Strings.Contains (Filepath.Dir file) (Filepath.Base scriptsDir))
  && bool_decide (Filepath.Dir file ≠ Filepath.Base scriptsDir)
  && bool_decide (String.length file < String.length (Filepath.Base scriptsDir))%nat.

(** No byte of the string is white space. *)
Fixpoint spaceless (s : string) : bool :=
  match s with
  | EmptyString => true
  | String c t => negb (Strings.isSpace c) && spaceless t
  end.

(* ===================================================================== *)
(** * Concrete environments                                              *)
(* ===================================================================== *)

Module Scenario.

(** Insertion sort, which is what [sort.Slice] does on slices of at most
    twelve elements. *)
Fixpoint insert (less : ScriptInfo → ScriptInfo → bool) (x : ScriptInfo)
    (sorted : list ScriptInfo) : list ScriptInfo :=
  match sorted with
  | [] => [x]
  | y :: rest => if less x y then x :: y :: rest else y :: insert less x rest
  end.

Definition insertion_sort (less : ScriptInfo → ScriptInfo → bool)
    (l : list ScriptInfo) : list ScriptInfo :=
  foldl (λ sorted x, insert less x sorted) [] l.

(** A table of answers, by key; anything else is an error. *)
Fixpoint answer {K} `{EqDecision K} (table : list (K * string)) (missing : error)
    (key : K) : result string :=
  match table with
  | [] => Err missing
  | (k, v) :: rest => if decide (k = key) then Ok v else answer rest missing key
  end.

Definition head_commit : string := "4f2a9c01d3e5b7a6c8d9e0f1a2b3c4d5e6f7a8b9".
Definition empty_tree : string := "4b825dc642cb6eb9a060e54bf8d69288fbee4904".
Definition new_line : string := String "010"%char EmptyString.
Definition tab : string := String "009"%char EmptyString.

Definition cfg : Config :=
  {| Host := "127.0.0.1"; User := "testuser"; Password := "testpassword";
     DBName := "testdb"; Port := 3307;
     ScriptsDir := "/repo/Automated_Change_Scripts";
     MissedScriptsFile := "" |}.

Definition empty_db : Database :=
  {| rows := []; auto_increment := 1; applied := [] |}.

Definition start (d : Database) (f : list (option error)) : World :=
  {| db := d; tx := None; faults := f; trace := [] |}.

(** An environment from its git answers, its files, and the batches that
    fail (each with its error). *)
Definition make_env (git : list (list string * string)) (files : list (string * string))
    (failing : list (string * string)) : Env :=
  {| git_run := answer git "exit status 128";
     time_Now := λ _, Time.Unix 1767225600;
     os_ReadFile := answer files "no such file or directory";
     db_ExecuteSQL := λ _ content,
       match answer failing "" content with Ok e => Some e | Err _ => None end;
     sort_Slice := insertion_sort |}.

(** The repository of the fresh-environment scenario: three scripts added
    by one commit, nothing applied yet. *)
Definition fresh_git : list (list string * string) :=
  [ (["rev-parse"; "--git-dir"], ".git");
    (["rev-parse"; "HEAD"], head_commit);
    (["hash-object"; "-t"; "tree"; "/dev/null"], empty_tree);
    (["diff"; "--name-only"; empty_tree; head_commit],
     "Automated_Change_Scripts/001_create_users.sql" +:+ new_line +:+
     "Automated_Change_Scripts/002_create_posts.sql" +:+ new_line +:+
     "Automated_Change_Scripts/003_add_indexes.sql");
    (["log"; "--follow"; "--diff-filter=A"; "--format=%ct"; "-1"; "--";
      "Automated_Change_Scripts/001_create_users.sql"], "1700000000");
    (["log"; "--follow"; "--diff-filter=A"; "--format=%ct"; "-1"; "--";
      "Automated_Change_Scripts/002_create_posts.sql"], "1700000000");
    (["log"; "--follow"; "--diff-filter=A"; "--format=%ct"; "-1"; "--";
      "Automated_Change_Scripts/003_add_indexes.sql"], "1700000000") ].

Definition fresh_files : list (string * string) :=
  [ ("/repo/Automated_Change_Scripts/001_create_users.sql", "CREATE TABLE users (id INT);");
    ("/repo/Automated_Change_Scripts/002_create_posts.sql", "CREATE TABLE posts (id INT);");
    ("/repo/Automated_Change_Scripts/003_add_indexes.sql", "CREATE INDEX i ON posts(id);") ].

Definition fresh_env : Env := make_env fresh_git fresh_files [].

(** The database the fresh run leaves: the three scripts applied, the last
    row the batch terminator. *)
Definition migrated_db : Database :=
  {| rows := [ DB.new_row 1 "001_create_users.sql" true false head_commit;
               DB.new_row 2 "002_create_posts.sql" true false head_commit;
               DB.new_row 3 "003_add_indexes.sql" true true head_commit ];
     auto_increment := 4;
     applied := [ "CREATE TABLE users (id INT);";
                  "CREATE TABLE posts (id INT);";
                  "CREATE INDEX i ON posts(id);" ] |}.

(** The same repository once the batch is in: nothing changed since. *)
Definition settled_git : list (list string * string) :=
  fresh_git ++
  [ (["diff"; "--name-only"; head_commit; head_commit], "");
    (["diff"; "--name-status"; head_commit; head_commit], "") ].

Definition settled_env : Env := make_env settled_git fresh_files [].

(** An operator asks for a missed script whose SQL does not go through. *)
Definition missed_cfg : Config :=
  {| Host := "127.0.0.1"; User := "testuser"; Password := "testpassword";
     DBName := "testdb"; Port := 3307;
     ScriptsDir := "/repo/Automated_Change_Scripts";
     MissedScriptsFile := "/repo/missed.txt" |}.


(** A later commit modifies a script of the batch that is in. *)
Definition later_commit : string := "9e8d7c6b5a4f3e2d1c0b9a8f7e6d5c4b3a2f1e0d".

Definition tampered_env : Env :=
  make_env
    [ (["rev-parse"; "--git-dir"], ".git");
      (["rev-parse"; "HEAD"], later_commit);
      (["diff"; "--name-status"; head_commit; later_commit],
       "M" +:+ tab +:+ "Automated_Change_Scripts/001_create_users.sql");
      (["diff"; "--name-only"; head_commit; later_commit],
       "Automated_Change_Scripts/001_create_users.sql") ]
    fresh_files [].

(** Three scripts of three commits, the second one with invalid SQL. *)
Definition failing_env : Env :=
  make_env
    [ (["rev-parse"; "--git-dir"], ".git");
      (["rev-parse"; "HEAD"], head_commit);
      (["hash-object"; "-t"; "tree"; "/dev/null"], empty_tree);
      (["diff"; "--name-only"; empty_tree; head_commit],
       "Automated_Change_Scripts/003_create_posts.sql" +:+ new_line +:+
       "Automated_Change_Scripts/001_create_users.sql" +:+ new_line +:+
       "Automated_Change_Scripts/002_invalid.sql");
      (["log"; "--follow"; "--diff-filter=A"; "--format=%ct"; "-1"; "--";
        "Automated_Change_Scripts/001_create_users.sql"], "1700000100");
      (["log"; "--follow"; "--diff-filter=A"; "--format=%ct"; "-1"; "--";
        "Automated_Change_Scripts/002_invalid.sql"], "1700000200");
      (["log"; "--follow"; "--diff-filter=A"; "--format=%ct"; "-1"; "--";
        "Automated_Change_Scripts/003_create_posts.sql"], "1700000300") ]
    [ ("/repo/Automated_Change_Scripts/001_create_users.sql", "CREATE TABLE users (id INT);");
      ("/repo/Automated_Change_Scripts/002_invalid.sql", "CREATE TABLE invalid_table;");
      ("/repo/Automated_Change_Scripts/003_create_posts.sql", "CREATE TABLE posts (id INT);") ]
    [ ("CREATE TABLE invalid_table;", "Error 1113: A table must have at least 1 column") ].



(** What discovery hands over in the fresh repository. *)
Definition fresh_found : Migrator.Discovery :=
  {| Migrator.scripts :=
       [ script_of fresh_env "Automated_Change_Scripts/001_create_users.sql";
         script_of fresh_env "Automated_Change_Scripts/002_create_posts.sql";
         script_of fresh_env "Automated_Change_Scripts/003_add_indexes.sql" ];
     Migrator.pendingScripts :=
       [ script_of fresh_env "Automated_Change_Scripts/001_create_users.sql";
         script_of fresh_env "Automated_Change_Scripts/002_create_posts.sql";
         script_of fresh_env "Automated_Change_Scripts/003_add_indexes.sql" ];
     Migrator.currentCommit := head_commit |}.

(** A tracking table whose only batch terminator has no revision. *)
Definition null_checkpoint_db : Database :=
  {| rows := [ {| sno := 1; scriptName := "001_create_users.sql";
                  completed := Some true; endofbatch := Some true;
                  lastgitid := None |} ];
     auto_increment := 2;
     applied := [ "CREATE TABLE users (id INT);" ] |}.

(** A run that was interrupted: after the batch that is in, one more
    script went through and the next one failed. *)
Definition interrupted_db : Database :=
  {| rows := rows migrated_db ++
       [ DB.new_row 4 "004_add_tags.sql" true false later_commit;
         DB.new_row 5 "005_add_votes.sql" false false later_commit ];
     auto_increment := 6;
     applied := applied migrated_db ++ [ "CREATE TABLE tags (id INT);" ] |}.

(** A table with a row inserted by hand, its flags left NULL. *)
Definition null_flag_db : Database :=
  {| rows := rows migrated_db ++
       [ {| sno := 4; scriptName := "004_by_hand.sql"; completed := None;
            endofbatch := None; lastgitid := None |} ];
     auto_increment := 5;
     applied := applied migrated_db |}.

(** No repository: every git command fails. *)
Definition no_git_env : Env := make_env [] fresh_files [].

(** The table after one script was executed on its own outside a
    repository. *)
Definition manual_db : Database :=
  {| rows := [ DB.new_row 1 "001_create_users.sql" true true "manual" ];
     auto_increment := 2;
     applied := [ "CREATE TABLE users (id INT);" ] |}.

(** An operator asks for two missed scripts, the second of which is in
    already. *)
Definition catch_up_env : Env :=
  make_env settled_git
    (("/repo/missed.txt", "900_fix.sql" +:+ new_line +:+ "001_create_users.sql" +:+ new_line)
     :: ("/repo/Automated_Change_Scripts/900_fix.sql", "ALTER TABLE users ADD c INT;")
     :: fresh_files)
    [].


End Scenario.

(* ===================================================================== *)
(** * Lemmas and theorems                                                *)
(* ===================================================================== *)

(** ** The monad *)

Lemma bind_ret {A B} (a : A) (k : A → M B) w : bind (ret a) k w = k a w.
Proof. reflexivity. Qed.

Lemma bind_Ret {A B} (m : M A) (k : A → M B) w w' a :
  m w = (w', Ret a) → bind m k w = k a w'.
Proof. unfold bind. intros ->. reflexivity. Qed.

Lemma bind_Fail {A B} (m : M A) (k : A → M B) w w' e :
  m w = (w', Fail e) → bind m k w = (w', Fail e).
Proof. unfold bind. intros ->. reflexivity. Qed.

Lemma bind_Panic {A B} (m : M A) (k : A → M B) w w' p :
  m w = (w', Panic p) → bind m k w = (w', Panic p).
Proof. unfold bind. intros ->. reflexivity. Qed.


Lemma bind_say {B} (c : ConsoleCall) (k : unit → M B) w :
  bind (say c) k w = k tt (add_event (Console c) w).
Proof. reflexivity. Qed.

Lemma bind_log {B} (e : Event) (k : unit → M B) w :
  bind (log e) k w = k tt (add_event e w).
Proof. reflexivity. Qed.

Lemma round_trip_answered w :
  answered w → round_trip w = (after_round_trip w, Ret tt).
Proof.
  unfold answered, after_round_trip, round_trip. intros H.
  destruct (faults w) as [|[e|] rest] eqn:E; try reflexivity.
  exfalso. exact (H e rest eq_refl).
Qed.

Lemma after_round_trip_db w : db (after_round_trip w) = db w.
Proof.
  unfold after_round_trip, round_trip.
  destruct (faults w) as [|[e|] rest]; reflexivity.
Qed.

Lemma after_round_trip_trace w : trace (after_round_trip w) = trace w.
Proof.
  unfold after_round_trip, round_trip.
  destruct (faults w) as [|[e|] rest]; reflexivity.
Qed.

Lemma after_round_trip_tx w : tx (after_round_trip w) = tx w.
Proof.
  unfold after_round_trip, round_trip.
  destruct (faults w) as [|[e|] rest]; reflexivity.
Qed.

(** ** The console loops *)

Lemma for_each_say {A} (l : list A) (f : A → ConsoleCall) w :
  for_each l (λ x, say (f x)) w
  = ({| db := db w; tx := tx w; faults := faults w;
        trace := trace w ++ (Console ∘ f <$> l) |}, Ret tt).
Proof.
  revert w. induction l as [|x l IH]; intros w; simpl.
  - unfold ret. rewrite app_nil_r. by destruct w.
  - rewrite bind_say, IH. simpl. by rewrite <- app_assoc.
Qed.
(** ** The half-committed check *)

Lemma find_failed_Some (halfCommitted : list ScriptRecord) :
  (∃ rec, rec ∈ halfCommitted ∧ Completed rec = false) →
  ∃ rec, List.find (λ rec, negb (Completed rec)) halfCommitted = Some rec
         ∧ rec ∈ halfCommitted ∧ Completed rec = false.
Proof.
  induction halfCommitted as [|r l IH]; intros (rec & Hin & Hc).
  - by apply elem_of_nil in Hin.
  - simpl. destruct (Completed r) eqn:Hr; simpl.
    + apply elem_of_cons in Hin as [->|Hin]; [congruence|].
      destruct IH as (rec' & Hf & Hin' & Hc'); [by eauto|].
      exists rec'. split_and!; [done| by apply elem_of_cons; right |done].
    + exists r. split_and!; [done| by apply elem_of_cons; left |done].
Qed.

Lemma find_failed_None (halfCommitted : list ScriptRecord) :
  Forall (λ rec, Completed rec = true) halfCommitted →
  List.find (λ rec, negb (Completed rec)) halfCommitted = None.
Proof.
  induction 1 as [|r l Hr _ IH]; simpl; [done|]. by rewrite Hr.
Qed.

Lemma len_nil_iff {A} (l : list A) : len l = 0 ↔ l = [].
Proof. unfold len. destruct l; simpl; [done|]. split; [lia|done]. Qed.

(** C2. The half-committed check passes on an empty list without a word;
    fails, naming a record that is not completed, as soon as there is one;
    and on a non-empty list of completed records only warns and passes,
    whatever their batch-terminator flags say. *)
Theorem CheckHalfCommittedFiles_cases (halfCommitted : list ScriptRecord) (w : World) :
  (halfCommitted = [] →
     Validator.CheckHalfCommittedFiles halfCommitted w = (w, Ret tt))
  ∧ ((∃ rec, rec ∈ halfCommitted ∧ Completed rec = false) →
     ∃ rec, rec ∈ halfCommitted ∧ Completed rec = false ∧
       (Validator.CheckHalfCommittedFiles halfCommitted w).2
       = Fail ("previous migration batch has failed script: " +:+ ScriptName rec
               +:+ " - manual intervention required"))
  ∧ (halfCommitted ≠ [] → Forall (λ rec, Completed rec = true) halfCommitted →
     (Validator.CheckHalfCommittedFiles halfCommitted w).2 = Ret tt
     ∧ Console (Warn ("Detected " +:+ Strconv.Itoa (len halfCommitted)
                      +:+ " scripts from incomplete previous batch:"))
       ∈ trace (Validator.CheckHalfCommittedFiles halfCommitted w).1
     ∧ db (Validator.CheckHalfCommittedFiles halfCommitted w).1 = db w).
Proof.
  split_and!.
  - intros ->. reflexivity.
  - intros Hex. destruct (find_failed_Some _ Hex) as (rec & Hf & Hin & Hc).
    exists rec. split_and!; [done..|].
    unfold Validator.CheckHalfCommittedFiles.
    destruct (decide (len halfCommitted = 0)) as [H0|H0].
    { apply len_nil_iff in H0. subst. by apply elem_of_nil in Hin. }
    rewrite bind_say, (bind_Ret _ _ _ _ _ (for_each_say _ _ _)), Hf.
    reflexivity.
  - intros Hne Hall.
    unfold Validator.CheckHalfCommittedFiles.
    destruct (decide (len halfCommitted = 0)) as [H0|H0].
    { by apply len_nil_iff in H0. }
    rewrite bind_say, (bind_Ret _ _ _ _ _ (for_each_say _ _ _)).
    rewrite (find_failed_None _ Hall). simpl.
    split_and!; [done| |done].
    set_solver.
Qed.

(** ** The checkpoint *)

Lemma last_terminator_app table r :
  Tracker.last_terminator (table ++ [r])
  = if Tracker.is_terminator r then Tracker.later r (Tracker.last_terminator table)
    else Tracker.last_terminator table.
Proof. unfold Tracker.last_terminator. by rewrite foldl_app. Qed.

Lemma last_terminator_spec table :
  match Tracker.last_terminator table with
  | None => ∀ r, r ∈ table → Tracker.is_terminator r = false
  | Some b =>
      b ∈ table ∧ Tracker.is_terminator b = true ∧
      ∀ r, r ∈ table → Tracker.is_terminator r = true → sno r ≤ sno b
  end.
Proof.
  induction table as [|x table IH] using rev_ind.
  - simpl. intros r Hr. by apply elem_of_nil in Hr.
  - rewrite last_terminator_app.
    destruct (Tracker.is_terminator x) eqn:Hx.
    + destruct (Tracker.last_terminator table) as [b|]; simpl.
      * destruct IH as (Hb & Hbt & Hmax).
        case_bool_decide as Hlt.
        -- split_and!; [set_solver|done|].
           intros r [Hr| ->%list_elem_of_singleton]%elem_of_app Hrt; [|lia].
           specialize (Hmax r Hr Hrt). lia.
        -- split_and!; [set_solver|done|].
           intros r [Hr| ->%list_elem_of_singleton]%elem_of_app Hrt; [|lia].
           by apply Hmax.
      * split_and!; [set_solver|done|].
        intros r [Hr| ->%list_elem_of_singleton]%elem_of_app Hrt; [|lia].
        by rewrite (IH r Hr) in Hrt.
    + destruct (Tracker.last_terminator table) as [b|].
      * destruct IH as (Hb & Hbt & Hmax). split_and!; [set_solver|done|].
        intros r [Hr| ->%list_elem_of_singleton]%elem_of_app Hrt; [|congruence].
        by apply Hmax.
      * intros r [Hr| ->%list_elem_of_singleton]%elem_of_app; [by apply IH|done].
Qed.

Lemma query_last_terminator_answered w :
  answered w →
  Tracker.query_last_terminator w
  = (after_round_trip w, Ret (Tracker.last_terminator (rows (db w)))).
Proof.
  intros H. unfold Tracker.query_last_terminator.
  rewrite (bind_Ret _ _ _ _ _ (round_trip_answered _ H)).
  unfold bind, DB.get_db, ret. by rewrite after_round_trip_db.
Qed.

(** C10. When the query is answered, [GetLastSuccessfulCommit] gives the
    empty string and no error both when the table has no batch-terminator
    row and when the terminator row of greatest ordinal has a NULL
    [lastgitid]; nothing is said on the console in either case. *)
Theorem GetLastSuccessfulCommit_empty (w : World) :
  answered w →
  ((∀ r, r ∈ rows (db w) → endofbatch r ≠ Some true)
   ∨ (∃ r, r ∈ rows (db w) ∧ endofbatch r = Some true ∧ lastgitid r = None ∧
        ∀ r', r' ∈ rows (db w) → endofbatch r' = Some true → r' ≠ r → sno r' < sno r)) →
  Tracker.GetLastSuccessfulCommit w = (after_round_trip w, Ret "")
  ∧ trace (after_round_trip w) = trace w
  ∧ db (after_round_trip w) = db w.
Proof.
  intros Hq Hrows.
  split_and!; [|apply after_round_trip_trace|apply after_round_trip_db].
  unfold Tracker.GetLastSuccessfulCommit.
  assert (Hquery : wrap "failed to get last successful commit: "
                     Tracker.query_last_terminator w
                   = (after_round_trip w, Ret (Tracker.last_terminator (rows (db w))))).
  { unfold wrap. by rewrite (query_last_terminator_answered _ Hq). }
  rewrite (bind_Ret _ _ _ _ _ Hquery).
  pose proof (last_terminator_spec (rows (db w))) as Hspec.
  destruct (Tracker.last_terminator (rows (db w))) as [b|]; [|done].
  destruct Hspec as (Hb & Hbt & Hmax).
  unfold Tracker.is_terminator in Hbt. apply bool_decide_eq_true in Hbt.
  destruct Hrows as [Hnone|(r & Hr & Hrt & Hnull & Hgreatest)].
  - by destruct (Hnone b Hb).
  - destruct (decide (b = r)) as [->|Hne].
    + by rewrite Hnull.
    + specialize (Hgreatest b Hb Hbt Hne).
      assert (sno r ≤ sno b); [|lia].
      apply Hmax; [done|]. unfold Tracker.is_terminator. by apply bool_decide_eq_true.
Qed.

(** ** The tamper check *)





(** ** Discovery *)


Lemma collect_never_fails env scriptsDir files acc e :
  Git.collect env scriptsDir files acc ≠ Fail e.
Proof.
  revert acc. induction files as [|file files IH]; intros acc; simpl; [done|].
  destruct (Strings.HasSuffix file ".sql"); simpl; [|by apply IH].
  unfold Git.outside_scripts_dir, slice_prefix.
  destruct (negb _); [|by rewrite andb_false_r].
  case_bool_decide; [|by rewrite andb_false_r].
  destruct (Strings.slice_to _ _); [|done].
  by rewrite andb_false_r.
Qed.


Lemma StronglySorted_filter {A} (R : A → A → Prop) (f : A → bool) l :
  StronglySorted R l → StronglySorted R (List.filter f l).
Proof.
  induction 1 as [|x l Hl IH Hx]; simpl; [constructor|].
  destruct (f x); [|done]. constructor; [done|].
  apply Forall_forall. intros y Hy%list_elem_of_In%filter_In.
  rewrite Forall_forall in Hx. apply Hx, list_elem_of_In. tauto.
Qed.







(** C9, on the code as it is: a changed [.sql] path that lies outside the
    scripts directory and is shorter than the directory's base name makes
    the directory check slice past the end of the path, and
    [GetChangedScripts] panics instead of returning an entry for it. *)
Theorem GetChangedScripts_short_path_panics :
  Git.GetChangedScripts
    (Scenario.make_env
       [ (["hash-object"; "-t"; "tree"; "/dev/null"], Scenario.empty_tree);
         (["diff"; "--name-only"; Scenario.empty_tree; Scenario.head_commit], "a.sql") ]
       [] [])
    "" Scenario.head_commit "/repo/Automated_Change_Scripts"
  = Panic "runtime error: slice bounds out of range [:24] with length 5".
Proof. vm_compute. reflexivity. Qed.

(** ** One script *)

Ltac unfold_db :=
  unfold Tracker.RecordExecution, Tracker.RecordExecutionDirect,
    DB.Begin, DB.ExecuteSQL, DB.tx_Insert, DB.db_Insert, DB.Commit, DB.Rollback,
    DB.next_sno, DB.get_db, DB.put_db, DB.get_tx, DB.put_tx,
    round_trip, defer, catch, wrap, bind, log, ret, throw,
    add_event, set_db, set_tx, set_faults in *.

Ltac crunch :=
  repeat (cbn in *;
          match goal with
          | |- context [match ?f with [] => _ | _ :: _ => _ end] =>
              is_var f; destruct f as [|[?|] ?]
          | |- context [db_ExecuteSQL ?e ?a ?c] =>
              destruct (db_ExecuteSQL e a c) eqn:?
          end).

Lemma executeScript_cases env cfg script gitID isLast w :
  let w' := (Migrator.executeScript env cfg script gitID isLast w).1 in
  let r := (Migrator.executeScript env cfg script gitID isLast w).2 in
  match script_content env cfg script with
  | None => w' = w ∧ ∃ e, r = Fail e
  | Some content =>
      match fault_at 0 w with
      | Some e =>
          (* the transaction does not begin *)
          r = Fail ("failed to begin transaction: " +:+ e) ∧
          db w' = db w ∧ tx w' = tx w ∧ faults w' = drop 1 (faults w) ∧
          trace w' = trace w ++ [Sql Begin]
      | None =>
          match db_ExecuteSQL env (applied (db w)) content with
          | Some err =>
              (* the batch fails: the failure is recorded if the insert
                 goes through, and the transaction is rolled back *)
              r = Fail ("script execution error: " +:+ err) ∧
              tx w' = None ∧ faults w' = drop 2 (faults w) ∧
              trace w' = trace w ++ [Sql Begin; Sql (ExecuteSQL content);
                                     Sql (InsertRow Direct (Name script) false false gitID);
                                     Sql Rollback] ∧
              match fault_at 1 w with
              | Some _ => db w' = db w
              | None =>
                  db w' = {| rows := rows (db w) ++
                               [DB.new_row (auto_increment (db w)) (Name script)
                                           false false gitID];
                             auto_increment := auto_increment (db w) + 1;
                             applied := applied (db w) |}
              end
          | None =>
              match fault_at 1 w with
              | Some e =>
                  (* the row of success is refused: rolled back *)
                  r = Fail ("failed to record execution: "
                            +:+ ("failed to record execution for " +:+ Name script +:+ ": ")
                            +:+ e) ∧
                  db w' = db w ∧ tx w' = None ∧ faults w' = drop 2 (faults w) ∧
                  trace w' = trace w ++ [Sql Begin; Sql (ExecuteSQL content);
                                         Sql (InsertRow InTx (Name script) true isLast gitID);
                                         Sql Rollback]
              | None =>
                  tx w' = None ∧ faults w' = drop 3 (faults w) ∧
                  trace w' = trace w ++ [Sql Begin; Sql (ExecuteSQL content);
                                         Sql (InsertRow InTx (Name script) true isLast gitID);
                                         Sql Commit] ∧
                  match fault_at 2 w with
                  | Some e =>
                      (* the commit fails: the ordinal is spent, nothing else *)
                      r = Fail ("failed to commit transaction: " +:+ e) ∧
                      db w' = {| rows := rows (db w);
                                 auto_increment := auto_increment (db w) + 1;
                                 applied := applied (db w) |}
                  | None =>
                      r = Ret tt ∧
                      db w' = {| rows := rows (db w) ++
                                   [DB.new_row (auto_increment (db w)) (Name script)
                                               true isLast gitID];
                                 auto_increment := auto_increment (db w) + 1;
                                 applied := applied (db w) ++ [content] |}
                  end
              end
          end
      end
  end.
Proof.
  unfold Migrator.executeScript, script_content, fault_at.
  destruct w as [d t f tr].
  destruct (os_ReadFile env (Filepath.Join (ScriptsDir cfg) (Name script))) as [content|e1];
    [|destruct (os_ReadFile env (Path script)) as [content|e2]].
  3: { cbn. eauto. }
  all: unfold_db; crunch; cbn; repeat rewrite <- app_assoc; done.
Qed.

Lemma executeScript_Ret env cfg script gitID isLast w w' :
  Migrator.executeScript env cfg script gitID isLast w = (w', Ret tt) →
  ∃ content,
    script_content env cfg script = Some content ∧
    db_ExecuteSQL env (applied (db w)) content = None ∧
    db w' = {| rows := rows (db w) ++
                 [DB.new_row (auto_increment (db w)) (Name script) true isLast gitID];
               auto_increment := auto_increment (db w) + 1;
               applied := applied (db w) ++ [content] |} ∧
    tx w' = None ∧
    trace w' = trace w ++ [Sql Begin; Sql (ExecuteSQL content);
                           Sql (InsertRow InTx (Name script) true isLast gitID);
                           Sql Commit].
Proof.
  intros Hrun. pose proof (executeScript_cases env cfg script gitID isLast w) as H.
  rewrite Hrun in H. simpl in H.
  destruct (script_content env cfg script) as [content|]; [|by destruct H as [_ [? ?]]].
  exists content. split; [done|].
  destruct (fault_at 0 w); [by destruct H|].
  destruct (db_ExecuteSQL env (applied (db w)) content); [by destruct H|].
  destruct (fault_at 1 w); [by destruct H|].
  destruct H as (? & ? & ? & H).
  destruct (fault_at 2 w); [by destruct H|].
  by destruct H.
Qed.

(** Whatever becomes of a script, the tracking table grows by at most one
    row, which bears the script's name, and what is sent is SQL, with no
    insert under another name. *)
Lemma executeScript_effect env cfg script gitID isLast w :
  ∃ new sent,
    rows (db (Migrator.executeScript env cfg script gitID isLast w).1)
    = rows (db w) ++ new ∧
    trace (Migrator.executeScript env cfg script gitID isLast w).1
    = trace w ++ (Sql <$> sent) ∧
    Forall (λ r, scriptName r = Name script) new ∧
    Forall (λ s, ∀ mode n c b g, s = InsertRow mode n c b g → n = Name script) sent.
Proof.
  pose proof (executeScript_cases env cfg script gitID isLast w) as H. simpl in H.
  assert (Hins : ∀ mode c b g,
            Forall (λ s, ∀ mode' n c' b' g', s = InsertRow mode' n c' b' g' → n = Name script)
              [InsertRow mode (Name script) c b g]).
  { intros. constructor; [|constructor]. by intros ????? [= _ -> _ _ _]. }
  assert (Hother : ∀ s, (∀ mode n c b g, s ≠ InsertRow mode n c b g) →
            (λ s, ∀ mode' n c' b' g', s = InsertRow mode' n c' b' g' → n = Name script) s).
  { intros s Hs ????? ->. by destruct (Hs mode' n c' b' g'). }
  destruct (script_content env cfg script) as [content|].
  2: { destruct H as [-> _]. exists [], []. by rewrite !app_nil_r. }
  destruct (fault_at 0 w).
  { destruct H as (_ & Hdb & _ & _ & Htr). exists [], [Begin].
    rewrite Hdb, Htr, app_nil_r. split_and!; [done..|].
    constructor; [by apply Hother|constructor]. }
  destruct (db_ExecuteSQL env (applied (db w)) content).
  { destruct H as (_ & _ & _ & Htr & Hdb).
    destruct (fault_at 1 w).
    - exists [], [Begin; ExecuteSQL content;
                  InsertRow Direct (Name script) false false gitID; Rollback].
      rewrite Hdb, Htr, app_nil_r. split_and!; [done..|].
      repeat (constructor; [first [by apply Hother | by intros ????? [= _ -> _ _ _]]|]).
      constructor.
    - exists [DB.new_row (auto_increment (db w)) (Name script) false false gitID],
             [Begin; ExecuteSQL content;
              InsertRow Direct (Name script) false false gitID; Rollback].
      rewrite Hdb, Htr. split_and!; [done..| |].
      + by repeat constructor.
      + repeat (constructor; [first [by apply Hother | by intros ????? [= _ -> _ _ _]]|]).
        constructor. }
  destruct (fault_at 1 w).
  { destruct H as (_ & Hdb & _ & _ & Htr).
    exists [], [Begin; ExecuteSQL content;
                InsertRow InTx (Name script) true isLast gitID; Rollback].
    rewrite Hdb, Htr, app_nil_r. split_and!; [done..|].
    repeat (constructor; [first [by apply Hother | by intros ????? [= _ -> _ _ _]]|]).
    constructor. }
  destruct H as (_ & _ & Htr & H).
  destruct (fault_at 2 w) as [e|]; destruct H as [_ Hdb].
  - exists [], [Begin; ExecuteSQL content;
                InsertRow InTx (Name script) true isLast gitID; Commit].
    rewrite Hdb, Htr, app_nil_r. split_and!; [done..|].
    repeat (constructor; [first [by apply Hother | by intros ????? [= _ -> _ _ _]]|]).
    constructor.
  - exists [DB.new_row (auto_increment (db w)) (Name script) true isLast gitID],
           [Begin; ExecuteSQL content;
            InsertRow InTx (Name script) true isLast gitID; Commit].
    rewrite Hdb, Htr. split_and!; [done..| |].
    + by repeat constructor.
    + repeat (constructor; [first [by apply Hother | by intros ????? [= _ -> _ _ _]]|]).
      constructor.
Qed.

Lemma executeScript_never_panics env cfg script gitID isLast w p :
  (Migrator.executeScript env cfg script gitID isLast w).2 ≠ Panic p.
Proof.
  pose proof (executeScript_cases env cfg script gitID isLast w) as H. simpl in H.
  intros Hp. rewrite Hp in H.
  destruct (script_content env cfg script) as [content|]; [|by destruct H as [_ [? ?]]].
  destruct (fault_at 0 w); [by destruct H|].
  destruct (db_ExecuteSQL env (applied (db w)) content); [by destruct H|].
  destruct (fault_at 1 w); [by destruct H|].
  destruct H as (? & ? & ? & H).
  destruct (fault_at 2 w); by destruct H.
Qed.

(** ** The loop over the pending scripts *)

Lemma catch_executeScript env cfg script gitID isLast w :
  catch (Migrator.executeScript env cfg script gitID isLast) w
  = ((Migrator.executeScript env cfg script gitID isLast w).1,
     Ret (match (Migrator.executeScript env cfg script gitID isLast w).2 with
          | Ret a => Ok a
          | Fail e => Err e
          | Panic p => Err p
          end)).
Proof.
  unfold catch.
  pose proof (executeScript_never_panics env cfg script gitID isLast w) as Hp.
  destruct (Migrator.executeScript env cfg script gitID isLast w) as [w' [[]|e|p]];
    simpl in *; [done..|]. by destruct (Hp p).
Qed.

(** One turn of the loop, when the script goes through. *)
Lemma pending_loop_cons_Ret env cfg gitID lenScripts lenPending skipped
    i successCount failedCount script rest w w1 :
  Migrator.executeScript env cfg script gitID (bool_decide (i = lenPending - 1))
    (add_event (Console (Script (Name script) "executing")) w) = (w1, Ret tt) →
  Migrator.pending_loop env cfg gitID lenScripts lenPending skipped
    i successCount failedCount (script :: rest) w
  = Migrator.pending_loop env cfg gitID lenScripts lenPending skipped
      (i + 1) (successCount + 1) failedCount rest
      (add_event (Console (Script (Name script) "success")) w1).
Proof.
  intros Hrun. simpl. rewrite bind_say.
  unfold bind at 1. rewrite catch_executeScript, Hrun. simpl.
  by rewrite bind_say.
Qed.

(** One turn of the loop, when the script fails. *)
Lemma pending_loop_cons_Fail env cfg gitID lenScripts lenPending skipped
    i successCount failedCount script rest w w1 err :
  Migrator.executeScript env cfg script gitID (bool_decide (i = lenPending - 1))
    (add_event (Console (Script (Name script) "executing")) w) = (w1, Fail err) →
  Migrator.pending_loop env cfg gitID lenScripts lenPending skipped
    i successCount failedCount (script :: rest) w
  = (add_event (Console (Summary lenScripts successCount (failedCount + 1) skipped))
       (add_event (Console (Error ("Script execution failed: " +:+ err)))
          (add_event (Console (Script (Name script) "failed")) w1)),
     Fail ("migration failed at script: " +:+ Name script)).
Proof.
  intros Hrun. simpl. rewrite bind_say.
  unfold bind at 1. rewrite catch_executeScript, Hrun. simpl.
  by rewrite !bind_say.
Qed.


(** A loop that runs to its end appended the rows of the batch and
    nothing else, and applied the scripts' batches. *)
Lemma pending_loop_Ret env cfg gitID lenScripts lenPending skipped batch :
  ∀ i successCount failedCount w w' counts,
    Migrator.pending_loop env cfg gitID lenScripts lenPending skipped
      i successCount failedCount batch w = (w', Ret counts) →
    counts = (successCount + len batch, failedCount) ∧
    rows (db w') = rows (db w) ++ batch_rows (auto_increment (db w)) gitID lenPending i batch ∧
    auto_increment (db w') = auto_increment (db w) + len batch ∧
    summaries (trace w') = summaries (trace w).
Proof.
  induction batch as [|script batch IH]; intros i s f w w' counts.
  - simpl. intros [= <- <-]. unfold len. simpl.
    by rewrite app_nil_r, !Z.add_0_r.
  - destruct (Migrator.executeScript env cfg script gitID (bool_decide (i = lenPending - 1))
                (add_event (Console (Script (Name script) "executing")) w))
      as [w2 [[]|err|p]] eqn:Hrun.
    + rewrite (pending_loop_cons_Ret _ _ _ _ _ _ _ _ _ _ _ _ _ Hrun).
      intros (-> & Hrows & Hauto & Hsum)%IH.
      apply executeScript_Ret in Hrun as (content & _ & _ & Hdb & _ & Htr).
      simpl in *. rewrite Hdb in Hrows, Hauto. simpl in *.
      rewrite Hrows, Hauto, Hsum, Htr. unfold len. cbn [length].
      rewrite Nat2Z.inj_succ, <- app_assoc. simpl.
      split_and!; [f_equal; lia|done|lia|].
      unfold summaries. by rewrite !omap_app, !app_nil_r.
    + by rewrite (pending_loop_cons_Fail _ _ _ _ _ _ _ _ _ _ _ _ _ _ Hrun).
    + pose proof (executeScript_never_panics env cfg script gitID
                    (bool_decide (i = lenPending - 1))
                    (add_event (Console (Script (Name script) "executing")) w) p) as Hp.
      by rewrite Hrun in Hp.
Qed.

(** ** The rows of a batch *)

Lemma batch_rows_names n gitID lenPending i batch :
  scriptName <$> batch_rows n gitID lenPending i batch = Name <$> batch.
Proof.
  revert n i. induction batch as [|script batch IH]; intros n i; simpl; [done|].
  by rewrite IH.
Qed.

Lemma batch_rows_completed n gitID lenPending i batch :
  Forall (λ r, completed r = Some true ∧ lastgitid r = Some gitID)
         (batch_rows n gitID lenPending i batch).
Proof.
  revert n i. induction batch as [|script batch IH]; intros n i; simpl;
    constructor; [done|apply IH].
Qed.

Lemma batch_rows_ordinals n gitID lenPending i batch k r :
  batch_rows n gitID lenPending i batch !! k = Some r → sno r = n + Z.of_nat k.
Proof.
  revert n i k. induction batch as [|script batch IH]; intros n i k; simpl; [done|].
  destruct k as [|k]; simpl.
  - intros [= <-]. simpl. lia.
  - intros ->%IH. lia.
Qed.

(** In a batch that runs from index [i] to the end of the pending list,
    the last row and no other is the batch terminator. *)
Lemma batch_rows_terminator n gitID lenPending i batch :
  batch ≠ [] → lenPending = i + len batch →
  ∃ others last,
    batch_rows n gitID lenPending i batch = others ++ [last] ∧
    endofbatch last = Some true ∧
    Forall (λ r, endofbatch r = Some false) others.
Proof.
  revert n i. induction batch as [|script batch IH]; intros n i Hne Hlen; [done|].
  destruct batch as [|next batch].
  - exists [], (DB.new_row n (Name script) true (bool_decide (i = lenPending - 1)) gitID).
    split_and!; [done| |constructor].
    simpl. rewrite bool_decide_eq_true_2; [done|]. unfold len in Hlen. simpl in Hlen. lia.
  - destruct (IH (n + 1) (i + 1)) as (others & last & Heq & Hlast & Hothers); [done| |].
    { unfold len in *. cbn [length] in *. lia. }
    exists (DB.new_row n (Name script) true (bool_decide (i = lenPending - 1)) gitID :: others),
           last.
    split_and!; [|done|].
    + cbn [batch_rows]. cbn [batch_rows] in Heq. by rewrite Heq.
    + constructor; [|done]. simpl. rewrite bool_decide_eq_false_2; [done|].
      unfold len in Hlen. cbn [length] in Hlen. lia.
Qed.

Lemma Run_execute_Ret env cfg found w w' :
  Migrator.Run_execute env cfg found w = (w', Ret tt) →
  rows (db w') = rows (db w) ++
    batch_rows (auto_increment (db w)) (Migrator.currentCommit found)
      (len (Migrator.pendingScripts found)) 0 (Migrator.pendingScripts found)
  ∧ summaries (trace w')
    = summaries (trace w) ++
      [(len (Migrator.scripts found), len (Migrator.pendingScripts found), 0,
        len (Migrator.scripts found) - len (Migrator.pendingScripts found))].
Proof.
  unfold Migrator.Run_execute. rewrite bind_say.
  match goal with
  | |- bind ?m _ ?ww = _ → _ => destruct (m ww) as [w1 [counts|err|p]] eqn:Hloop
  end.
  - rewrite (bind_Ret _ _ _ _ _ Hloop), !bind_say. intros [= <-].
    apply pending_loop_Ret in Hloop as (-> & Hrows & _ & Hsum).
    simpl in *. split; [done|].
    unfold summaries in *. rewrite !omap_app, Hsum. simpl.
    by rewrite !omap_app, !app_nil_r.
  - by rewrite (bind_Fail _ _ _ _ _ Hloop).
  - by rewrite (bind_Panic _ _ _ _ _ Hloop).
Qed.

(** The rows of a batch that went through: one per pending script, in
    order, the last one the batch terminator. *)
Lemma Run_execute_batch (env : Env) (cfg : Config)
    (found : Migrator.Discovery) (w w' : World) :
  Migrator.pendingScripts found ≠ [] →
  Migrator.Run_execute env cfg found w = (w', Ret tt) →
  ∃ others last,
    rows (db w') = rows (db w) ++ others ++ [last] ∧
    scriptName <$> (others ++ [last]) = Name <$> Migrator.pendingScripts found ∧
    endofbatch last = Some true ∧
    Forall (λ r, endofbatch r = Some false) others ∧
    Forall (λ r, completed r = Some true ∧
                 lastgitid r = Some (Migrator.currentCommit found))
           (others ++ [last]).
Proof.
  intros Hne [Hrows _]%Run_execute_Ret.
  destruct (batch_rows_terminator (auto_increment (db w)) (Migrator.currentCommit found)
              (len (Migrator.pendingScripts found)) 0 (Migrator.pendingScripts found))
    as (others & last & Heq & Hlast & Hothers); [done|lia|].
  exists others, last. rewrite <- Heq.
  split_and!; [done|apply batch_rows_names|done..|apply batch_rows_completed].
Qed.

(** ** A script that fails *)



(** ** Relations that every step respects *)

Section keeps.
Context (R : World → World → Prop) `{!PreOrder R}.

Lemma keeps_ret {A} (a : A) : keeps R (ret a).
Proof. intros w. reflexivity. Qed.

Lemma keeps_throw {A} (e : error) : keeps R (@throw A e).
Proof. intros w. reflexivity. Qed.

Lemma keeps_lift {A} (o : outcome A) : keeps R (lift o).
Proof. intros w. reflexivity. Qed.

Lemma keeps_bind {A B} (m : M A) (k : A → M B) :
  keeps R m → (∀ a, keeps R (k a)) → keeps R (bind m k).
Proof.
  intros Hm Hk w. unfold bind. specialize (Hm w).
  destruct (m w) as [w1 [a|e|p]]; simpl in *; [|done..].
  by etrans; [|apply Hk].
Qed.

Lemma keeps_wrap {A} (prefix : string) (m : M A) : keeps R m → keeps R (wrap prefix m).
Proof.
  intros Hm w. unfold wrap. specialize (Hm w).
  by destruct (m w) as [w1 [a|e|p]].
Qed.

Lemma keeps_catch {A} (m : M A) : keeps R m → keeps R (catch m).
Proof.
  intros Hm w. unfold catch. specialize (Hm w).
  by destruct (m w) as [w1 [a|e|p]].
Qed.

Lemma keeps_defer {A} (cleanup : M unit) (body : M A) :
  keeps R body → keeps R cleanup → keeps R (defer cleanup body).
Proof.
  intros Hb Hc w. unfold defer. specialize (Hb w).
  destruct (body w) as [w1 r]; simpl in *.
  by etrans; [|apply Hc].
Qed.

Lemma keeps_for_each {A} (l : list A) (body : A → M unit) :
  (∀ x, keeps R (body x)) → keeps R (for_each l body).
Proof.
  intros Hbody. induction l as [|x l IH]; simpl.
  - apply keeps_ret.
  - by apply keeps_bind.
Qed.

End keeps.

(** Break a computation down to its primitive steps. *)
Ltac keeps_steps :=
  repeat match goal with
         | |- keeps ?R (ret _) => apply (@keeps_ret R _)
         | |- keeps ?R (throw _) => apply (@keeps_throw R _)
         | |- keeps ?R (lift _) => apply (@keeps_lift R _)
         | |- keeps ?R (bind _ _) => apply (@keeps_bind R _); [|intros ?]
         | |- keeps ?R (wrap _ _) => apply (@keeps_wrap R _)
         | |- keeps ?R (catch _) => apply (@keeps_catch R _)
         | |- keeps ?R (defer _ _) => apply (@keeps_defer R _)
         | |- keeps ?R (for_each _ _) => apply (@keeps_for_each R _); intros ?
         | |- keeps _ (match ?x with _ => _ end) => destruct x
         | |- keeps _ (let _ := _ in _) => cbv zeta
         end.

(** *** Quiet steps *)

#[global] Instance quiet_preorder : PreOrder quiet.
Proof.
  split.
  - intros w. split; [done|]. exists []. by rewrite app_nil_r.
  - intros w1 w2 w3 [Hdb1 (s1 & Ht1 & Hs1)] [Hdb2 (s2 & Ht2 & Hs2)].
    split; [congruence|]. exists (s1 ++ s2).
    rewrite Ht2, Ht1, app_assoc. split; [done|]. by apply Forall_app.
Qed.

Lemma quiet_round_trip : keeps quiet round_trip.
Proof.
  intros w. fold (after_round_trip w).
  split; [apply after_round_trip_db|]. exists [].
  by rewrite after_round_trip_trace, app_nil_r.
Qed.

Lemma quiet_get_db : keeps quiet DB.get_db.
Proof. intros w. reflexivity. Qed.

Lemma quiet_say c : harmless (Console c) → keeps quiet (say c).
Proof. intros Hc w. split; [done|]. exists [Console c]. split; [done|]. by constructor. Qed.

Ltac quiet_steps :=
  keeps_steps;
  first [ apply quiet_round_trip | apply quiet_get_db
        | apply quiet_say; simpl; done ].

Lemma quiet_query_last_terminator : keeps quiet Tracker.query_last_terminator.
Proof. unfold Tracker.query_last_terminator. quiet_steps. Qed.

Lemma quiet_EnsureTable : keeps quiet Tracker.EnsureTable.
Proof. unfold Tracker.EnsureTable. quiet_steps. Qed.

Lemma quiet_GetLastSuccessfulCommit : keeps quiet Tracker.GetLastSuccessfulCommit.
Proof.
  unfold Tracker.GetLastSuccessfulCommit. keeps_steps.
  apply quiet_query_last_terminator.
Qed.

Lemma quiet_GetExecutedScriptNames : keeps quiet Tracker.GetExecutedScriptNames.
Proof. unfold Tracker.GetExecutedScriptNames. quiet_steps. Qed.

Lemma quiet_GetHalfCommittedScripts : keeps quiet Tracker.GetHalfCommittedScripts.
Proof.
  unfold Tracker.GetHalfCommittedScripts. keeps_steps;
    first [apply quiet_query_last_terminator | apply quiet_round_trip | apply quiet_get_db].
Qed.

Lemma quiet_ValidateScriptsDirectory env : keeps quiet (Validator.ValidateScriptsDirectory env).
Proof. unfold Validator.ValidateScriptsDirectory. keeps_steps. Qed.

Lemma quiet_CheckFileModifications env fromCommit toCommit executedScripts :
  keeps quiet (Validator.CheckFileModifications env fromCommit toCommit executedScripts).
Proof. unfold Validator.CheckFileModifications. quiet_steps. Qed.

Lemma quiet_CheckHalfCommittedFiles halfCommitted :
  keeps quiet (Validator.CheckHalfCommittedFiles halfCommitted).
Proof. unfold Validator.CheckHalfCommittedFiles. quiet_steps. Qed.

(** ** Steps 1 to 10 of [Run] *)

Lemma wrap_Ret {A} prefix (m : M A) w w' a :
  wrap prefix m w = (w', Ret a) → m w = (w', Ret a).
Proof. unfold wrap. by destruct (m w) as [w1 [a1|e|p]]. Qed.

Lemma lift_eq {A} (o : outcome A) w w' r : lift o w = (w', r) → w' = w ∧ r = o.
Proof. by intros [= <- <-]. Qed.

Lemma round_trip_db w w' r : round_trip w = (w', r) → db w' = db w.
Proof.
  intros H. pose proof (after_round_trip_db w) as Hd.
  unfold after_round_trip in Hd. by rewrite H in Hd.
Qed.

Lemma query_last_terminator_value w w' found :
  Tracker.query_last_terminator w = (w', Ret found) →
  found = Tracker.last_terminator (rows (db w)).
Proof.
  unfold Tracker.query_last_terminator, bind.
  destruct (round_trip w) as [w1 [[]|e|p]] eqn:Hrt; [|done..].
  apply round_trip_db in Hrt. unfold DB.get_db, ret. rewrite Hrt. by intros [= _ <-].
Qed.

Lemma GetLastSuccessfulCommit_value w w' lastGitID :
  Tracker.GetLastSuccessfulCommit w = (w', Ret lastGitID) →
  lastGitID = checkpoint (rows (db w)).
Proof.
  unfold Tracker.GetLastSuccessfulCommit, checkpoint, bind.
  destruct (wrap _ Tracker.query_last_terminator w) as [w1 [found|e|p]] eqn:Hq; [|done..].
  apply wrap_Ret, query_last_terminator_value in Hq as ->.
  destruct (Tracker.last_terminator (rows (db w))) as [r|]; [|by intros [= _ <-]].
  by destruct (lastgitid r); intros [= _ <-].
Qed.

Lemma GetExecutedScriptNames_value w w' executedScripts :
  Tracker.GetExecutedScriptNames w = (w', Ret executedScripts) →
  executedScripts = Tracker.executed_names (rows (db w)).
Proof.
  unfold Tracker.GetExecutedScriptNames, bind.
  destruct (wrap _ round_trip w) as [w1 [[]|e|p]] eqn:Hrt; [|done..].
  apply wrap_Ret, round_trip_db in Hrt. unfold DB.get_db, ret. rewrite Hrt.
  by intros [= _ <-].
Qed.

Lemma keeps_at {A} R (m : M A) w w' r : keeps R m → m w = (w', r) → R w w'.
Proof. intros H Hm. specialize (H w). by rewrite Hm in H. Qed.

Lemma quiet_say_at c w w' r : harmless (Console c) → say c w = (w', r) → quiet w w' ∧ r = Ret tt.
Proof.
  intros Hc Hs. split; [by eapply keeps_at; [apply quiet_say|]|].
  by injection Hs as _ <-.
Qed.

(** A quiet step in front of a computation: the computation stops there
    with the step's failure, or goes on from a world that is still quiet. *)
Lemma quiet_step {A B} (P : World → outcome B → Prop) (m : M A) (k : A → M B) w0 wc :
  keeps quiet m → quiet w0 wc →
  (∀ wn r, quiet w0 wn → (∀ b, r ≠ Ret b) → P wn r) →
  (∀ wn a, quiet w0 wn → m wc = (wn, Ret a) → P (k a wn).1 (k a wn).2) →
  P (bind m k wc).1 (bind m k wc).2.
Proof.
  intros Hm Hq Hstop Hgo. unfold bind.
  pose proof (Hm wc) as Hq'.
  destruct (m wc) as [wn [a|e|p]] eqn:Hmw; simpl in *.
  - apply Hgo; [by etrans|done].
  - apply Hstop; [by etrans|done].
  - apply Hstop; [by etrans|done].
Qed.

(** Any step in front of a computation. *)
Lemma any_step {A B} (P : World → outcome B → Prop) (m : M A) (k : A → M B) wc :
  (∀ wn r, m wc = (wn, r) →
     match r with
     | Ret a => P (k a wn).1 (k a wn).2
     | Fail e => P wn (Fail e)
     | Panic p => P wn (Panic p)
     end) →
  P (bind m k wc).1 (bind m k wc).2.
Proof.
  intros H. unfold bind. specialize (H (m wc).1 (m wc).2).
  destruct (m wc) as [wn [a|e|p]]; by apply H.
Qed.

Ltac quiet_lemma :=
  first [ apply quiet_say; simpl; done
        | apply quiet_ValidateScriptsDirectory
        | apply quiet_EnsureTable
        | apply (@keeps_wrap quiet _);
          first [ apply quiet_GetLastSuccessfulCommit
                | apply quiet_GetExecutedScriptNames
                | apply quiet_GetHalfCommittedScripts
                | apply (@keeps_lift quiet _) ]
        | apply quiet_CheckFileModifications
        | apply quiet_CheckHalfCommittedFiles
        | apply (@keeps_lift quiet _) ].

Ltac quiet_next w0 :=
  match goal with
  | |- ?P (bind ?m ?k ?wc).1 (bind ?m ?k ?wc).2 => apply (quiet_step P m k w0 wc)
  end.

Lemma Run_discover_inv env cfg w :
  discovered env cfg w (Migrator.Run_discover env cfg w).1 (Migrator.Run_discover env cfg w).2.
Proof.
  assert (Hstop : ∀ wn r, quiet w wn → (∀ b, r ≠ Ret b) → discovered env cfg w wn r).
  { intros wn r Hq Hr. exists wn, wn. split_and!; [done|by left|].
    split; [reflexivity|]. intros found ->. by destruct (Hr (Some found)). }
  unfold Migrator.Run_discover.
  quiet_next w; [quiet_lemma|reflexivity|exact Hstop|]. intros wa [] Hqa _.
  quiet_next w; [quiet_lemma|exact Hqa|exact Hstop|]. intros wb [] Hqb _. clear wa Hqa.
  quiet_next w; [quiet_lemma|exact Hqb|exact Hstop|]. intros wa [] Hqa _. clear wb Hqb.
  quiet_next w; [quiet_lemma|exact Hqa|exact Hstop|]. intros wb [] Hqb _. clear wa Hqa.
  quiet_next w; [quiet_lemma|exact Hqb|exact Hstop|]. intros wa [] Hqa _. clear wb Hqb.
  assert (Hdb : db wa = db w) by apply Hqa.
  quiet_next w; [quiet_lemma|exact Hqa|exact Hstop|]. intros wb lastGitID Hqb Hlast.
  apply wrap_Ret, GetLastSuccessfulCommit_value in Hlast. rewrite Hdb in Hlast.
  subst lastGitID. clear wa Hqa Hdb.
  quiet_next w; [|exact Hqb|exact Hstop|].
  { destruct (decide _); [quiet_lemma|].
    apply (@keeps_bind quiet _); [quiet_lemma|]. intros short. quiet_lemma. }
  intros w1 [] Hq1 _. clear wb Hqb.
  (* 4. the missed scripts *)
  assert (Hafter : ∀ w2,
            w2 = w1 ∨ (MissedScriptsFile cfg ≠ ""
                       ∧ w2 = (Migrator.executeMissedScripts env cfg w1).1) →
            ∀ wn r, handed_over env cfg (checkpoint (rows (db w))) w2 wn r →
                    discovered env cfg w wn r).
  { intros w2 Hw2 wn r H. by exists w1, w2. }
  assert (Hstop2 : ∀ w2 wn r, quiet w2 wn → (∀ b, r ≠ Ret b) →
            handed_over env cfg (checkpoint (rows (db w))) w2 wn r).
  { intros w2 wn r Hq Hr. split; [done|]. intros found ->. by destruct (Hr (Some found)). }
  match goal with
  | |- ?P (bind ?m ?k ?wc).1 (bind ?m ?k ?wc).2 => apply (any_step P m k wc)
  end.
  intros w2 r2 Hmissed.
  assert (Hw2 : w2 = w1 ∨ (MissedScriptsFile cfg ≠ ""
                           ∧ w2 = (Migrator.executeMissedScripts env cfg w1).1)).
  { destruct (decide (MissedScriptsFile cfg ≠ "")) as [Hfile|Hfile].
    - right. split; [done|]. by rewrite Hmissed.
    - left. by injection Hmissed as <- _. }
  clear Hmissed.
  destruct r2 as [[]|e|p].
  2,3: apply (Hafter w2 Hw2), Hstop2; [reflexivity|intros b; discriminate].
  apply (Hafter w2 Hw2). clear Hafter Hstop Hw2 Hq1 w1.
  specialize (Hstop2 w2).
  (* 5. to 10. *)
  quiet_next w2; [quiet_lemma|reflexivity|exact Hstop2|]. intros wa executedScripts Hqa Hex.
  apply wrap_Ret, GetExecutedScriptNames_value in Hex. subst executedScripts.
  quiet_next w2; [quiet_lemma|exact Hqa|exact Hstop2|]. intros wb currentCommit Hqb Hcur.
  apply wrap_Ret, lift_eq in Hcur as [_ Hcur]. clear wa Hqa.
  quiet_next w2; [quiet_lemma|exact Hqb|exact Hstop2|]. intros wa short Hqa _. clear wb Hqb.
  quiet_next w2; [quiet_lemma|exact Hqa|exact Hstop2|]. intros wb [] Hqb _. clear wa Hqa.
  quiet_next w2; [quiet_lemma|exact Hqb|exact Hstop2|]. intros wa [] Hqa _. clear wb Hqb.
  quiet_next w2; [quiet_lemma|exact Hqa|exact Hstop2|]. intros wb [] Hqb _. clear wa Hqa.
  quiet_next w2; [quiet_lemma|exact Hqb|exact Hstop2|]. intros wa halfCommitted Hqa _.
  clear wb Hqb.
  quiet_next w2; [quiet_lemma|exact Hqa|exact Hstop2|]. intros wb [] Hqb _. clear wa Hqa.
  quiet_next w2; [quiet_lemma|exact Hqb|exact Hstop2|]. intros wa [] Hqa _. clear wb Hqb.
  quiet_next w2; [quiet_lemma|exact Hqa|exact Hstop2|]. intros wb scripts Hqb Hscripts.
  apply wrap_Ret, lift_eq in Hscripts as [_ Hscripts]. clear wa Hqa.
  destruct (decide _) as [Hnone|Hsome].
  - rewrite bind_say. simpl. split; [|done].
    etrans; [exact Hqb|].
    eapply keeps_at; [apply (quiet_say (Success "No new scripts to execute"))|]; done.
  - simpl. split; [done|]. intros found [= <-]. simpl.
    split_and!; [by destruct (Git.GetCurrentCommit env); simplify_eq/=|done|done|].
    by rewrite <- len_nil_iff.
Qed.

(** ** What a run adds to the table and to the trace *)

#[global] Instance grows_preorder okrow okev : PreOrder (grows okrow okev).
Proof.
  split.
  - intros w. exists [], []. by rewrite !app_nil_r.
  - intros w1 w2 w3 (n1 & s1 & Hr1 & Ht1 & Hn1 & Hs1) (n2 & s2 & Hr2 & Ht2 & Hn2 & Hs2).
    exists (n1 ++ n2), (s1 ++ s2).
    rewrite Hr2, Hr1, Ht2, Ht1, !app_assoc.
    split_and!; [done|done|by apply Forall_app|by apply Forall_app].
Qed.

Lemma quiet_grows okrow okev w w' :
  tolerant okev → quiet w w' → grows okrow okev w w'.
Proof.
  intros [Hok _] [Hdb (said & Ht & Hsaid)]. exists [], said.
  rewrite Hdb, app_nil_r. split_and!; [done|done|constructor|].
  eapply Forall_impl; [exact Hsaid|exact Hok].
Qed.

Lemma keeps_quiet_grows {A} okrow okev (m : M A) :
  tolerant okev → keeps quiet m → keeps (grows okrow okev) m.
Proof. intros Hok Hm w. by apply quiet_grows. Qed.

Lemma grows_say okrow okev c : okev (Console c) → keeps (grows okrow okev) (say c).
Proof.
  intros Hc w. exists [], [Console c]. rewrite app_nil_r.
  split_and!; [done|done|constructor|by constructor].
Qed.

Lemma executeScript_grows okrow okev env cfg script gitID isLast :
  tolerant okev → admits okrow okev (Name script) →
  keeps (grows okrow okev) (Migrator.executeScript env cfg script gitID isLast).
Proof.
  intros [_ Hsql] (_ & Hins & Hrow) w.
  destruct (executeScript_effect env cfg script gitID isLast w)
    as (new & sent & Hr & Ht & Hnew & Hsent).
  exists new, (Sql <$> sent). split_and!; [done|done| |].
  - eapply Forall_impl; [exact Hnew|]. intros r Hname. by apply Hrow.
  - apply Forall_fmap. eapply Forall_impl; [exact Hsent|]. intros s Hs. simpl.
    destruct s as [|content|mode n c b g| |];
      try (apply Hsql; by intros ?????).
    rewrite (Hs mode n c b g eq_refl). apply Hins.
Qed.

Lemma missed_loop_grows okrow okev env cfg gitID executedScripts lenMissed rest :
  tolerant okev →
  (∀ name, name ∈ rest → index_bool executedScripts name = false →
           admits okrow okev name) →
  ∀ i, keeps (grows okrow okev)
         (Migrator.missed_loop env cfg gitID executedScripts lenMissed i rest).
Proof.
  intros Hok. induction rest as [|name rest IH]; intros Hnames i; simpl.
  - apply (@keeps_ret _ _).
  - assert (Hrest : ∀ i, keeps (grows okrow okev)
              (Migrator.missed_loop env cfg gitID executedScripts lenMissed i rest)).
    { apply IH. intros n Hn. apply Hnames. by right. }
    destruct (index_bool executedScripts name) eqn:Hex.
    + apply (@keeps_bind _ _); [|by intros _].
      apply grows_say, Hok. simpl. done.
    + specialize (Hnames name (list_elem_of_here _ _) Hex).
      apply (@keeps_bind _ _); [apply grows_say, Hnames|intros _].
      apply (@keeps_bind _ _);
        [apply (@keeps_catch _ _); by apply executeScript_grows|intros [[]|err]].
      * apply (@keeps_bind _ _); [|by intros _].
        apply grows_say, Hok. simpl. done.
      * apply (@keeps_bind _ _); [|intros _; apply (@keeps_throw _ _)].
        apply grows_say, Hok. simpl. done.
Qed.


(** The step lemmas, for a property of the final world alone. *)
Lemma quiet_step_world {A B} (P : World → Prop) (m : M A) (k : A → M B) w0 wc :
  keeps quiet m → quiet w0 wc →
  (∀ wn, quiet w0 wn → P wn) →
  (∀ wn a, quiet w0 wn → m wc = (wn, Ret a) → P (k a wn).1) →
  P (bind m k wc).1.
Proof.
  intros Hm Hq Hstop Hgo.
  apply (quiet_step (λ wn _, P wn) m k w0 wc); [done|done| |done].
  intros wn r Hqn _. by apply Hstop.
Qed.

Lemma any_step_world {A B} (P : World → Prop) (m : M A) (k : A → M B) wc :
  (∀ wn r, m wc = (wn, r) →
     match r with
     | Ret a => P (k a wn).1
     | _ => P wn
     end) →
  P (bind m k wc).1.
Proof.
  intros H. apply (any_step (λ wn _, P wn) m k wc).
  intros wn r Hm. specialize (H wn r Hm). by destruct r.
Qed.

Ltac quiet_next_world w0 :=
  match goal with
  | |- ?P (bind ?m ?k ?wc).1 => apply (quiet_step_world P m k w0 wc)
  end.

(** The missed scripts: only the names the tracking table does not hold as
    completed when the path is entered are executed. *)
Lemma executeMissedScripts_grows okrow okev env cfg w :
  tolerant okev →
  (∀ name, name ∈ missed_names env cfg → ¬ completed_in (rows (db w)) name →
           admits okrow okev name) →
  MissedScriptsFile cfg ≠ "" →
  grows okrow okev w (Migrator.executeMissedScripts env cfg w).1.
Proof.
  intros Hok Hnames Hfile.
  assert (Hstop : ∀ wn, quiet w wn → grows okrow okev w wn).
  { intros wn Hq. by apply quiet_grows. }
  unfold Migrator.executeMissedScripts.
  quiet_next_world w; [quiet_lemma|reflexivity|exact Hstop|]. intros wa [] Hqa _.
  quiet_next_world w; [quiet_lemma|exact Hqa|exact Hstop|]. intros wb content Hqb Hread.
  apply wrap_Ret, lift_eq in Hread as [_ Hread]. clear wa Hqa.
  unfold missed_names in Hnames. destruct (decide _) as [|_]; [done|].
  destruct (os_ReadFile env (MissedScriptsFile cfg)) as [content'|]; [|done].
  injection Hread as <-.
  destruct (Bufio.ScanLines content) as [lines|]; [|by apply Hstop].
  destruct (decide _) as [Hnone|Hsome].
  { apply Hstop. etrans; [exact Hqb|].
    eapply keeps_at; [apply (quiet_say (Info "No missed scripts to process"))|]; done. }
  quiet_next_world w; [quiet_lemma|exact Hqb|exact Hstop|]. intros wa [] Hqa _. clear wb Hqb.
  quiet_next_world w; [quiet_lemma|exact Hqa|exact Hstop|]. intros wb currentCommit Hqb _.
  clear wa Hqa.
  assert (Hdb : db wb = db w) by apply Hqb.
  quiet_next_world w; [quiet_lemma|exact Hqb|exact Hstop|].
  intros wa executedScripts Hqa Hex.
  apply wrap_Ret, GetExecutedScriptNames_value in Hex. rewrite Hdb in Hex.
  subst executedScripts. clear wb Hqb Hdb.
  match goal with
  | |- ?P (bind ?m ?k ?wc).1 => apply (any_step_world P m k wc)
  end.
  intros wb r Hloop.
  assert (Hgrow : grows okrow okev w wb).
  { etrans; [by apply quiet_grows|].
    eapply keeps_at; [|exact Hloop]. apply missed_loop_grows; [done|].
    intros name Hin Hno. apply Hnames; [done|].
    unfold completed_in. by rewrite Hno. }
  destruct r as [[]|e|p]; [|done..].
  etrans; [exact Hgrow|]. apply grows_say, Hok. simpl. done.
Qed.

(** ** Completed scripts are not executed again *)

Lemma executed_names_app table r :
  Tracker.executed_names (table ++ [r])
  = if Tracker.is_completed r then <[scriptName r := true]> (Tracker.executed_names table)
    else Tracker.executed_names table.
Proof. unfold Tracker.executed_names. by rewrite foldl_app. Qed.

Lemma executed_names_spec table name :
  completed_in table name ↔
  ∃ r, r ∈ table ∧ scriptName r = name ∧ completed r = Some true.
Proof.
  unfold completed_in, index_bool.
  induction table as [|r table IH] using rev_ind.
  - unfold Tracker.executed_names. simpl. rewrite lookup_empty. simpl.
    split; [done|]. intros (r & Hr & _). by apply elem_of_nil in Hr.
  - rewrite executed_names_app. unfold Tracker.is_completed.
    case_bool_decide as Hc.
    + destruct (decide (scriptName r = name)) as [Hn|Hn].
      * rewrite Hn, lookup_insert_eq. simpl. split; [|done]. intros _.
        exists r. split_and!; [|done..]. apply elem_of_app. right. by left.
      * rewrite lookup_insert_ne by done. rewrite IH. split.
        -- intros (r' & Hin & H). exists r'. split; [|done]. apply elem_of_app. by left.
        -- intros (r' & [Hin| ->%list_elem_of_singleton]%elem_of_app & Hname & Hcomp);
             [by exists r'|done].
    + rewrite IH. split.
      * intros (r' & Hin & H). exists r'. split; [|done]. apply elem_of_app. by left.
      * intros (r' & [Hin| ->%list_elem_of_singleton]%elem_of_app & Hname & Hcomp);
          [by exists r'|done].
Qed.






(** Steps 1 to 10 add to the table and to the trace only what the missed
    scripts add. *)
Lemma Run_discover_grows okrow okev env cfg w :
  tolerant okev →
  (∀ name, name ∈ missed_names env cfg → ¬ completed_in (rows (db w)) name →
           admits okrow okev name) →
  ∃ w2, grows okrow okev w w2 ∧
        grows okrow okev w2 (Migrator.Run_discover env cfg w).1 ∧
        handed_over env cfg (checkpoint (rows (db w))) w2
          (Migrator.Run_discover env cfg w).1 (Migrator.Run_discover env cfg w).2.
Proof.
  intros Hok Hnames.
  destruct (Run_discover_inv env cfg w) as (w1 & w2 & Hq1 & Hw2 & Hover).
  exists w2. split_and!; [|by apply quiet_grows, Hover|done].
  etrans; [by apply quiet_grows|].
  destruct Hw2 as [->|[Hfile ->]]; [reflexivity|].
  apply executeMissedScripts_grows; [done| |done].
  destruct Hq1 as [-> _]. exact Hnames.
Qed.


(** ** The summary *)

Lemma summaries_app t1 t2 : summaries (t1 ++ t2) = summaries t1 ++ summaries t2.
Proof. unfold summaries. apply omap_app. Qed.

Lemma summaries_not_summary said :
  Forall (λ e, ¬ is_summary e) said → summaries said = [].
Proof.
  induction 1 as [|e said He _ IH]; [done|].
  change (e :: said) with ([e] ++ said). rewrite summaries_app, IH, app_nil_r.
  destruct e as [[]|]; simpl in *; done.
Qed.

Lemma grows_summaries okrow w w' :
  grows okrow (λ e, ¬ is_summary e) w w' → summaries (trace w') = summaries (trace w).
Proof.
  intros (new & said & _ & -> & _ & Hsaid).
  by rewrite summaries_app, (summaries_not_summary _ Hsaid), app_nil_r.
Qed.

Lemma tolerant_not_summary : tolerant (λ e, ¬ is_summary e).
Proof.
  split.
  - intros e He Hs. by destruct e as [[]|s].
  - by intros s _ Hs.
Qed.

Lemma admits_not_summary name : admits (λ _, True) (λ e, ¬ is_summary e) name.
Proof. split_and!; simpl; [by intros []|by intros ???? []|done]. Qed.

(** Steps 1 to 10, missed scripts included, print no summary. *)
Lemma Run_discover_no_summary env cfg w :
  summaries (trace (Migrator.Run_discover env cfg w).1) = summaries (trace w).
Proof.
  destruct (Run_discover_grows (λ _, True) (λ e, ¬ is_summary e) env cfg w)
    as (w2 & Hg1 & Hg2 & _).
  { apply tolerant_not_summary. }
  { intros name _ _. apply admits_not_summary. }
  apply (grows_summaries (λ _, True)). by etrans.
Qed.

Lemma executeScript_no_summary env cfg script gitID isLast w :
  summaries (trace (Migrator.executeScript env cfg script gitID isLast w).1)
  = summaries (trace w).
Proof.
  apply (grows_summaries (λ _, True)).
  apply executeScript_grows; [apply tolerant_not_summary|apply admits_not_summary].
Qed.

(** The loop prints the summary when a script fails, and only then. *)
Lemma pending_loop_summary env cfg gitID lenScripts lenPending skipped rest :
  ∀ i successCount failedCount w,
    let w' := (Migrator.pending_loop env cfg gitID lenScripts lenPending skipped
                 i successCount failedCount rest w).1 in
    match (Migrator.pending_loop env cfg gitID lenScripts lenPending skipped
             i successCount failedCount rest w).2 with
    | Ret counts =>
        counts = (successCount + len rest, failedCount) ∧
        summaries (trace w') = summaries (trace w)
    | Fail _ =>
        ∃ before, 0 ≤ before < len rest ∧
          summaries (trace w')
          = summaries (trace w) ++
            [(lenScripts, successCount + before, failedCount + 1, skipped)]
    | Panic _ => False
    end.
Proof.
  induction rest as [|script rest IH]; intros i s f w; [|cbv zeta in *].
  - simpl. unfold len. simpl. by rewrite Z.add_0_r.
  - pose proof (executeScript_no_summary env cfg script gitID
                  (bool_decide (i = lenPending - 1))
                  (add_event (Console (Script (Name script) "executing")) w)) as Hsum.
    destruct (Migrator.executeScript env cfg script gitID (bool_decide (i = lenPending - 1))
                (add_event (Console (Script (Name script) "executing")) w))
      as [w1 [[]|err|p]] eqn:Hrun.
    + rewrite (pending_loop_cons_Ret _ _ _ _ _ _ _ _ _ _ _ _ _ Hrun).
      specialize (IH (i + 1) (s + 1) f
                     (add_event (Console (Script (Name script) "success")) w1)).
      assert (Hw : summaries (trace (add_event (Console (Script (Name script) "success")) w1))
                   = summaries (trace w)).
      { simpl in *. rewrite summaries_app, Hsum, summaries_app. simpl.
        by rewrite !app_nil_r. }
      destruct (Migrator.pending_loop env cfg gitID lenScripts lenPending skipped
                  (i + 1) (s + 1) f rest _) as [w2 [counts|e|p]]; simpl in *.
      * destruct IH as [-> Hs]. rewrite Hs, Hw. split; [|done].
        unfold len. cbn [length]. rewrite Nat2Z.inj_succ. f_equal; lia.
      * destruct IH as (k & Hk & Hs). exists (k + 1). split.
        -- unfold len in *. cbn [length]. lia.
        -- rewrite Hs, Hw. by replace (s + (k + 1)) with (s + 1 + k) by lia.
      * done.
    + rewrite (pending_loop_cons_Fail _ _ _ _ _ _ _ _ _ _ _ _ _ _ Hrun). simpl.
      exists 0. split; [unfold len; cbn [length]; lia|].
      simpl in Hsum. rewrite !summaries_app, Hsum, summaries_app. simpl.
      by rewrite !app_nil_r, Z.add_0_r.
    + pose proof (executeScript_never_panics env cfg script gitID
                    (bool_decide (i = lenPending - 1))
                    (add_event (Console (Script (Name script) "executing")) w) p) as Hp.
      by rewrite Hrun in Hp.
Qed.

Lemma Run_execute_summary env cfg found w :
  ∃ success failed,
    summaries (trace (Migrator.Run_execute env cfg found w).1)
    = summaries (trace w) ++
      [(len (Migrator.scripts found), success, failed,
        len (Migrator.scripts found) - len (Migrator.pendingScripts found))]
    ∧ (((Migrator.Run_execute env cfg found w).2 = Ret tt
        ∧ success = len (Migrator.pendingScripts found) ∧ failed = 0)
       ∨ ((∃ e, (Migrator.Run_execute env cfg found w).2 = Fail e)
          ∧ 0 ≤ success < len (Migrator.pendingScripts found) ∧ failed = 1)).
Proof.
  unfold Migrator.Run_execute. cbv zeta. rewrite bind_say.
  match goal with
  | |- context [bind (Migrator.pending_loop ?a ?b ?c ?d ?e ?f ?i ?s ?fl ?r) _ ?ww] =>
      pose proof (pending_loop_summary a b c d e f r i s fl ww) as H;
      destruct (Migrator.pending_loop a b c d e f i s fl r ww) as [w1 [counts|err|p]] eqn:Hloop
  end; cbv zeta in H; simpl in H.
  - destruct H as [-> Hs]. rewrite (bind_Ret _ _ _ _ _ Hloop), !bind_say. simpl.
    exists (len (Migrator.pendingScripts found)), 0.
    split; [|by left].
    rewrite !summaries_app, Hs, summaries_app. simpl. by rewrite !app_nil_r.
  - destruct H as (k & Hk & Hs). rewrite (bind_Fail _ _ _ _ _ Hloop). simpl.
    exists k, 1. split; [|right; split; [by eexists|lia]].
    rewrite Hs, summaries_app. simpl. by rewrite !app_nil_r.
  - done.
Qed.

(** C8, as the code has it. A run prints the summary exactly when steps 1
    to 10 hand a non-empty pending set to the execution loop: once, with
    the counts, after the last script went through or right after the first
    one that failed. A run that ends before that, on a failed validation,
    a tracker or git error, a missed script that failed, or with nothing
    pending, returns without a summary. *)
Theorem Run_summary (env : Env) (cfg : Config) (w : World) :
  match (Migrator.Run_discover env cfg w).2 with
  | Ret (Some found) =>
      ∃ success failed,
        summaries (trace (Migrator.Run env cfg w).1)
        = summaries (trace w) ++
          [(len (Migrator.scripts found), success, failed,
            len (Migrator.scripts found) - len (Migrator.pendingScripts found))]
        ∧ (((Migrator.Run env cfg w).2 = Ret tt
            ∧ success = len (Migrator.pendingScripts found) ∧ failed = 0)
           ∨ ((∃ e, (Migrator.Run env cfg w).2 = Fail e)
              ∧ 0 ≤ success < len (Migrator.pendingScripts found) ∧ failed = 1))
  | Ret None =>
      summaries (trace (Migrator.Run env cfg w).1) = summaries (trace w)
      ∧ (Migrator.Run env cfg w).2 = Ret tt
  | Fail e =>
      summaries (trace (Migrator.Run env cfg w).1) = summaries (trace w)
      ∧ (Migrator.Run env cfg w).2 = Fail e
  | Panic p =>
      summaries (trace (Migrator.Run env cfg w).1) = summaries (trace w)
      ∧ (Migrator.Run env cfg w).2 = Panic p
  end.
Proof.
  pose proof (Run_discover_no_summary env cfg w) as Hd.
  unfold Migrator.Run, bind.
  destruct (Migrator.Run_discover env cfg w) as [wd [[found|]|e|p]]; simpl in *;
    [|done..].
  rewrite <- Hd. apply Run_execute_summary.
Qed.

(** ** Running again *)





(** ** The batch terminator *)

(** C5. When the execution loop gets through a non-empty pending list,
    the rows it appended are one per pending script, in order; the last of
    them, the row of the last script executed, is the only one with the
    batch-terminator flag; all are completed and bear the revision that
    discovery read as the current one when the run started. *)
Theorem Run_execute_batch_terminator (env : Env) (cfg : Config)
    (found : Migrator.Discovery) (w w' : World) :
  Migrator.pendingScripts found ≠ [] →
  Migrator.Run_execute env cfg found w = (w', Ret tt) →
  (∃ others last,
     rows (db w') = rows (db w) ++ others ++ [last] ∧
     scriptName <$> (others ++ [last]) = Name <$> Migrator.pendingScripts found ∧
     endofbatch last = Some true ∧
     Forall (λ r, endofbatch r = Some false) others ∧
     Forall (λ r, completed r = Some true ∧
                  lastgitid r = Some (Migrator.currentCommit found))
            (others ++ [last]))
  ∧ (∀ w0, Migrator.Run_discover env cfg w0 = (w, Ret (Some found)) →
           Git.GetCurrentCommit env = Ok (Migrator.currentCommit found)).
Proof.
  intros Hne Hrun. split; [by eapply Run_execute_batch|].
  intros w0 Hdiscover.
  destruct (Run_discover_inv env cfg w0) as (w1 & w2 & _ & _ & _ & Hfound).
  rewrite Hdiscover in Hfound. by destruct (Hfound found eq_refl) as [? _].
Qed.

(** ** The theorems at work *)

Lemma GetLastSuccessfulCommit_empty_witness :
  Tracker.GetLastSuccessfulCommit (Scenario.start Scenario.null_checkpoint_db [])
  = (after_round_trip (Scenario.start Scenario.null_checkpoint_db []), Ret "").
Proof.
  refine (proj1 (GetLastSuccessfulCommit_empty
                   (Scenario.start Scenario.null_checkpoint_db []) _ _)).
  - intros e rest. simpl. discriminate.
  - right. eexists. split; [apply list_elem_of_here|].
    split; [reflexivity|]. split; [reflexivity|].
    intros r' Hr' _ Hne. simpl in Hr'. apply list_elem_of_singleton in Hr'. by destruct Hne.
Defined.


Lemma Run_execute_batch_terminator_witness :
  ∃ others last,
    rows (db (Migrator.Run_execute Scenario.fresh_env Scenario.cfg Scenario.fresh_found
                (Scenario.start Scenario.empty_db [])).1)
    = rows Scenario.empty_db ++ others ++ [last]
    ∧ endofbatch last = Some true
    ∧ Forall (λ r, endofbatch r = Some false) others.
Proof.
  destruct (Run_execute_batch_terminator Scenario.fresh_env Scenario.cfg Scenario.fresh_found
              (Scenario.start Scenario.empty_db [])
              (Migrator.Run_execute Scenario.fresh_env Scenario.cfg Scenario.fresh_found
                 (Scenario.start Scenario.empty_db [])).1)
    as [(others & last & Hrows & _ & Hlast & Hothers & _) _].
  - discriminate.
  - vm_compute. reflexivity.
  - exists others, last. split; [exact Hrows|]. split; [exact Hlast|exact Hothers].
Defined.



(** C8 as the claim has it fails: the run that finds a modified script
    returns the tamper error and prints no summary. *)
Lemma Run_tampered_no_summary :
  (Migrator.Run Scenario.tampered_env Scenario.cfg
     (Scenario.start Scenario.migrated_db [])).2
  = Fail "detected 1 modified and 0 deleted scripts that were previously executed - migration aborted"
  ∧ summaries (trace (Migrator.Run Scenario.tampered_env Scenario.cfg
                        (Scenario.start Scenario.migrated_db [])).1) = [].
Proof. vm_compute. split; reflexivity. Qed.


(* ===================================================================== *)
(** * Further properties of the code                                     *)
(* ===================================================================== *)

(** ** The tracker's queries *)

Lemma answered_fault_at w : answered w ↔ fault_at 0 w = None.
Proof.
  unfold answered, fault_at. destruct (faults w) as [|[e|] rest]; simpl.
  - split; [done|]. by intros _ ??.
  - split; [|done]. intros H. by destruct (H e rest).
  - split; [done|]. by intros _ ??.
Qed.

Lemma faults_after_round_trip w : faults (after_round_trip w) = drop 1 (faults w).
Proof.
  unfold after_round_trip, round_trip.
  destruct (faults w) as [|[e|] rest] eqn:E; simpl; by rewrite ?E.
Qed.

Lemma fault_at_after_round_trip k w : fault_at k (after_round_trip w) = fault_at (S k) w.
Proof.
  unfold fault_at. rewrite faults_after_round_trip.
  by destruct (faults w).
Qed.

Lemma answered_after_round_trip w : answered (after_round_trip w) ↔ fault_at 1 w = None.
Proof. by rewrite answered_fault_at, fault_at_after_round_trip. Qed.

#[global] Instance sno_le_total : Total Tracker.sno_le.
Proof. intros a b. unfold Tracker.sno_le. lia. Qed.

#[global] Instance sno_le_trans : Transitive Tracker.sno_le.
Proof. intros a b c. unfold Tracker.sno_le. lia. Qed.

Lemma order_by_sno_Permutation table : Tracker.order_by_sno table ≡ₚ table.
Proof. apply merge_sort_Permutation. Qed.

Lemma order_by_sno_sorted table : StronglySorted Tracker.sno_le (Tracker.order_by_sno table).
Proof. apply StronglySorted_merge_sort; apply _. Qed.

Lemma scan_record_flagged r : flagged r → Tracker.scan_record r = Ok (record_of r).
Proof.
  unfold flagged, Tracker.scan_record, record_of.
  destruct (completed r), (endofbatch r); intros [Hc He]; done.
Qed.

Lemma scan_record_Ok r rec : Tracker.scan_record r = Ok rec → flagged r ∧ rec = record_of r.
Proof.
  unfold flagged, Tracker.scan_record, record_of.
  destruct (completed r), (endofbatch r); intros [= <-]; done.
Qed.

Lemma scan_records_flagged table acc :
  Forall flagged table →
  Tracker.scan_records table acc = Ok (acc ++ (record_of <$> table)).
Proof.
  intros H. revert acc. induction H as [|r table Hr _ IH]; intros acc; simpl.
  - by rewrite app_nil_r.
  - rewrite (scan_record_flagged r Hr), IH. by rewrite <- app_assoc.
Qed.

Lemma scan_records_Ok table acc recs :
  Tracker.scan_records table acc = Ok recs →
  Forall flagged table ∧ recs = acc ++ (record_of <$> table).
Proof.
  revert acc. induction table as [|r table IH]; intros acc; simpl.
  - intros [= <-]. by rewrite app_nil_r.
  - destruct (Tracker.scan_record r) as [rec|e] eqn:Hr; [|done].
    apply scan_record_Ok in Hr as [Hf ->].
    intros [Hall ->]%IH. split; [by constructor|]. by rewrite <- app_assoc.
Qed.

Lemma scan_records_null table acc :
  ¬ Forall flagged table →
  ∃ e, Tracker.scan_records table acc = Err ("failed to scan script record: " +:+ e).
Proof.
  revert acc. induction table as [|r table IH]; intros acc Hno; simpl.
  - by destruct Hno.
  - destruct (Tracker.scan_record r) as [rec|e] eqn:Hr; [|by eexists].
    apply scan_record_Ok in Hr as [Hf _]. apply IH.
    intros Hall. apply Hno. by constructor.
Qed.

Lemma GetAllScripts_answered w :
  answered w →
  Tracker.GetAllScripts w
  = (after_round_trip w,
     of_result (Tracker.scan_records (Tracker.order_by_sno (rows (db w))) [])).
Proof.
  intros H. unfold Tracker.GetAllScripts.
  assert (Hrt : wrap "failed to get all scripts: " round_trip w = (after_round_trip w, Ret tt)).
  { unfold wrap. by rewrite (round_trip_answered _ H). }
  rewrite (bind_Ret _ _ _ _ _ Hrt).
  unfold bind, DB.get_db, lift. by rewrite after_round_trip_db.
Qed.

Lemma HasRecords_answered w :
  answered w →
  Tracker.HasRecords w = (after_round_trip w, Ret (bool_decide (len (rows (db w)) > 0))).
Proof.
  intros H. unfold Tracker.HasRecords.
  assert (Hrt : wrap "failed to count records: " round_trip w = (after_round_trip w, Ret tt)).
  { unfold wrap. by rewrite (round_trip_answered _ H). }
  rewrite (bind_Ret _ _ _ _ _ Hrt).
  unfold bind, DB.get_db, ret. by rewrite after_round_trip_db.
Qed.

Lemma GetHalfCommittedScripts_answered w :
  fault_at 0 w = None → fault_at 1 w = None →
  Tracker.GetHalfCommittedScripts w
  = (after_round_trip (after_round_trip w),
     of_result (Tracker.scan_records
                  (Tracker.rows_after (checkpoint_sno (rows (db w))) (rows (db w))) [])).
Proof.
  intros H0%answered_fault_at H1%answered_after_round_trip.
  unfold Tracker.GetHalfCommittedScripts.
  assert (Hq : wrap "failed to get last batch SNO: " Tracker.query_last_terminator w
               = (after_round_trip w, Ret (Tracker.last_terminator (rows (db w))))).
  { unfold wrap. by rewrite (query_last_terminator_answered _ H0). }
  rewrite (bind_Ret _ _ _ _ _ Hq).
  assert (Hrt : wrap "failed to get half-committed scripts: " round_trip (after_round_trip w)
                = (after_round_trip (after_round_trip w), Ret tt)).
  { unfold wrap. by rewrite (round_trip_answered _ H1). }
  rewrite (bind_Ret _ _ _ _ _ Hrt).
  unfold bind, DB.get_db, lift, checkpoint_sno. by rewrite !after_round_trip_db.
Qed.

Lemma StronglySorted_sno_fmap (l : list Row) :
  StronglySorted Tracker.sno_le l → StronglySorted Z.le (SNO <$> (record_of <$> l)).
Proof.
  induction 1 as [|r l _ IH Hr]; simpl; constructor; [done|].
  rewrite Forall_fmap, Forall_fmap. eapply Forall_impl; [exact Hr|]. done.
Qed.

(** X1. When the query is answered and no row has a NULL flag, [GetAllScripts]
    returns one record for each row of the tracking table, in ascending
    order of the ordinal, and leaves the database as it was. *)
Theorem GetAllScripts_in_order (w : World) :
  answered w →
  Forall flagged (rows (db w)) →
  ∃ all,
    Tracker.GetAllScripts w = (after_round_trip w, Ret all)
    ∧ StronglySorted Z.le (SNO <$> all)
    ∧ all ≡ₚ record_of <$> rows (db w)
    ∧ db (after_round_trip w) = db w.
Proof.
  intros Hq Hflags.
  exists (record_of <$> Tracker.order_by_sno (rows (db w))).
  rewrite (GetAllScripts_answered _ Hq), scan_records_flagged.
  2: { by rewrite order_by_sno_Permutation. }
  split_and!; [done| | |apply after_round_trip_db].
  - apply StronglySorted_sno_fmap, order_by_sno_sorted.
  - by rewrite order_by_sno_Permutation.
Qed.

(** X2. The two flags are nullable columns read into Go [bool]s: one row with
    a NULL [completed] or a NULL [endofbatch], anywhere in the table, makes
    [GetAllScripts] fail as a whole with a scan error. *)
Theorem GetAllScripts_null_flag (w : World) (r : Row) :
  answered w →
  r ∈ rows (db w) →
  completed r = None ∨ endofbatch r = None →
  ∃ e, (Tracker.GetAllScripts w).2 = Fail ("failed to scan script record: " +:+ e).
Proof.
  intros Hq Hin Hnull. rewrite (GetAllScripts_answered _ Hq). simpl.
  destruct (scan_records_null (Tracker.order_by_sno (rows (db w))) []) as [e ->];
    [|by exists e].
  rewrite order_by_sno_Permutation, Forall_forall. intros Hall.
  destruct (Hall r Hin) as [Hc He]. by destruct Hnull.
Qed.

(** The rows after the checkpoint, in the order of the full listing. *)
Lemma rows_after_filter n table :
  NoDup (sno <$> table) →
  Tracker.rows_after n table
  = List.filter (λ r, bool_decide (n < sno r)) (Tracker.order_by_sno table).
Proof.
  intros Hnd. unfold Tracker.rows_after.
  apply (StronglySorted_unique_strong Tracker.sno_le).
  - intros x1 x2 Hx1 Hx2 H12 H21.
    assert (Hin1 : x1 ∈ table).
    { rewrite order_by_sno_Permutation in Hx1.
      apply list_elem_of_In, filter_In in Hx1 as [Hx1 _]. by apply list_elem_of_In. }
    assert (Hin2 : x2 ∈ table).
    { apply list_elem_of_In, filter_In in Hx2 as [Hx2 _].
      apply list_elem_of_In in Hx2. by rewrite order_by_sno_Permutation in Hx2. }
    assert (Heq : sno x1 = sno x2) by (unfold Tracker.sno_le in *; lia).
    apply list_elem_of_lookup in Hin1 as [i Hi], Hin2 as [j Hj].
    assert (i = j) as ->; [|congruence].
    eapply NoDup_lookup; [exact Hnd| |]; rewrite list_lookup_fmap.
    + by rewrite Hi.
    + rewrite Hj. simpl. by rewrite Heq.
  - apply order_by_sno_sorted.
  - apply StronglySorted_filter, order_by_sno_sorted.
  - rewrite !order_by_sno_Permutation.
    assert (Hperm : ∀ l1 l2 : list Row, l1 ≡ₚ l2 →
              List.filter (λ r, bool_decide (n < sno r)) l1
              ≡ₚ List.filter (λ r, bool_decide (n < sno r)) l2).
    { induction 1 as [|x l1 l2 _ IH|x y l|l1 l2 l3 _ IH1 _ IH2]; simpl.
      - done.
      - destruct (bool_decide _); by rewrite IH.
      - repeat destruct (bool_decide _); try done. apply Permutation_swap.
      - by etrans. }
    apply Hperm. symmetry. apply order_by_sno_Permutation.
Qed.

Lemma filter_record_of n (l : list Row) :
  List.filter (λ rec, bool_decide (n < SNO rec)) (record_of <$> l)
  = record_of <$> List.filter (λ r, bool_decide (n < sno r)) l.
Proof.
  induction l as [|r l IH]; [done|].
  cbn [fmap list_fmap List.filter record_of SNO].
  destruct (bool_decide (n < sno r)); cbn [fmap list_fmap]; by rewrite <- IH.
Qed.

Lemma Forall_filter_In {A} (P : A → Prop) (f : A → bool) l :
  Forall P l → Forall P (List.filter f l).
Proof.
  rewrite !Forall_forall. intros H x Hx%list_elem_of_In%filter_In.
  apply H, list_elem_of_In. tauto.
Qed.

(** X3. On a table whose ordinals are distinct (the primary key),
    [GetHalfCommittedScripts] returns exactly the records of the full
    listing of [GetAllScripts] whose ordinal is greater than that of the
    last batch terminator (greater than 0 without one), in the same
    order. *)
Theorem GetHalfCommittedScripts_of_GetAllScripts (w : World) (all : list ScriptRecord) :
  NoDup (sno <$> rows (db w)) →
  fault_at 0 w = None → fault_at 1 w = None →
  (Tracker.GetAllScripts w).2 = Ret all →
  (Tracker.GetHalfCommittedScripts w).2
  = Ret (List.filter (λ rec, bool_decide (checkpoint_sno (rows (db w)) < SNO rec)) all).
Proof.
  intros Hkey H0 H1.
  rewrite (GetAllScripts_answered w) by (by apply answered_fault_at).
  rewrite (GetHalfCommittedScripts_answered w H0 H1). simpl.
  destruct (Tracker.scan_records (Tracker.order_by_sno (rows (db w))) [])
    as [recs|e] eqn:Hall; [|done].
  intros [= <-]. apply scan_records_Ok in Hall as [Hflags ->].
  rewrite (rows_after_filter _ _ Hkey), scan_records_flagged.
  - cbn [app of_result]. by rewrite filter_record_of.
  - by apply Forall_filter_In.
Qed.

Lemma rows_after_elem n table r :
  r ∈ Tracker.rows_after n table ↔ r ∈ table ∧ n < sno r.
Proof.
  unfold Tracker.rows_after. rewrite order_by_sno_Permutation.
  rewrite list_elem_of_In, filter_In, <- list_elem_of_In, bool_decide_eq_true. done.
Qed.

Lemma after_checkpoint_not_terminator table r :
  r ∈ table → checkpoint_sno table < sno r → endofbatch r ≠ Some true.
Proof.
  intros Hin Hlt Ht. unfold checkpoint_sno in Hlt.
  pose proof (last_terminator_spec table) as Hspec.
  assert (Hterm : Tracker.is_terminator r = true).
  { unfold Tracker.is_terminator. by apply bool_decide_eq_true. }
  destruct (Tracker.last_terminator table) as [b|].
  - destruct Hspec as (_ & _ & Hmax). specialize (Hmax r Hin Hterm). lia.
  - by rewrite (Hspec r Hin) in Hterm.
Qed.

Lemma GetHalfCommittedScripts_value w w' half :
  Tracker.GetHalfCommittedScripts w = (w', Ret half) →
  Forall flagged (Tracker.rows_after (checkpoint_sno (rows (db w))) (rows (db w)))
  ∧ half = record_of <$> Tracker.rows_after (checkpoint_sno (rows (db w))) (rows (db w)).
Proof.
  unfold Tracker.GetHalfCommittedScripts, bind.
  destruct (wrap _ Tracker.query_last_terminator w) as [w1 [found|e|p]] eqn:Hq; [|done..].
  pose proof (keeps_at _ _ _ _ _ (keeps_wrap quiet _ _ quiet_query_last_terminator) Hq) as [Hdb1 _].
  apply wrap_Ret, query_last_terminator_value in Hq as ->.
  destruct (wrap _ round_trip w1) as [w2 [[]|e|p]] eqn:Hrt; [|done..].
  apply wrap_Ret, round_trip_db in Hrt.
  unfold DB.get_db, lift. rewrite Hrt, Hdb1. fold (checkpoint_sno (rows (db w))).
  destruct (Tracker.scan_records _ _) as [recs|e] eqn:Hscan; [|done].
  intros [= _ <-]. by apply scan_records_Ok in Hscan.
Qed.

(** X4. Whatever [GetHalfCommittedScripts] returns is in ascending order of
    the ordinal, lies after the last batch terminator, holds every row that
    lies after it, and holds no batch terminator. *)
Theorem GetHalfCommittedScripts_no_terminator (w w' : World) (half : list ScriptRecord) :
  Tracker.GetHalfCommittedScripts w = (w', Ret half) →
  Forall (λ rec, EndOfBatch rec = false ∧ checkpoint_sno (rows (db w)) < SNO rec) half
  ∧ StronglySorted Z.le (SNO <$> half)
  ∧ ∀ r, r ∈ rows (db w) → checkpoint_sno (rows (db w)) < sno r → record_of r ∈ half.
Proof.
  intros [Hflags ->]%GetHalfCommittedScripts_value. split_and!.
  - rewrite Forall_fmap, Forall_forall. intros r Hr. simpl.
    rewrite Forall_forall in Hflags. destruct (Hflags r Hr) as [_ He].
    apply rows_after_elem in Hr as [Hin Hlt]. split; [|done].
    pose proof (after_checkpoint_not_terminator _ _ Hin Hlt) as Hno.
    destruct (endofbatch r) as [[]|]; done.
  - apply StronglySorted_sno_fmap, order_by_sno_sorted.
  - intros r Hin Hlt. apply list_elem_of_fmap. exists r. split; [done|].
    by apply rows_after_elem.
Qed.

(** X5. [HasRecords] answers true exactly when the listing of
    [GetAllScripts] is not empty. *)
Theorem HasRecords_agrees_with_GetAllScripts (w : World) (all : list ScriptRecord) :
  answered w →
  (Tracker.GetAllScripts w).2 = Ret all →
  (Tracker.HasRecords w).2 = Ret (bool_decide (all ≠ [])).
Proof.
  intros Hq. rewrite (GetAllScripts_answered _ Hq), (HasRecords_answered _ Hq). simpl.
  destruct (Tracker.scan_records _ _) as [recs|e] eqn:Hscan; [|done].
  intros [= <-]. apply scan_records_Ok in Hscan as [_ ->]. simpl. f_equal.
  assert (Hlen : length (record_of <$> Tracker.order_by_sno (rows (db w)))
                 = length (rows (db w))).
  { by rewrite length_fmap, order_by_sno_Permutation. }
  apply bool_decide_ext. unfold len. rewrite <- Hlen.
  destruct (record_of <$> _); simpl; split; (done || lia).
Qed.

(** ** Recording and reading back *)

Lemma RecordExecutionDirect_Ret name completed endOfBatch gitID w w1 :
  Tracker.RecordExecutionDirect name completed endOfBatch gitID w = (w1, Ret tt) →
  db w1 = {| rows := rows (db w) ++
               [DB.new_row (auto_increment (db w)) name completed endOfBatch gitID];
             auto_increment := auto_increment (db w) + 1;
             applied := applied (db w) |}
  ∧ tx w1 = tx w
  ∧ faults w1 = drop 1 (faults w)
  ∧ trace w1 = trace w ++ [Sql (InsertRow Direct name completed endOfBatch gitID)].
Proof.
  destruct w as [d t f tr]. unfold_db. cbn.
  destruct f as [|[e|] rest]; cbn; intros [= <-]; done.
Qed.

Lemma GetExecutedScriptNames_answered w :
  answered w →
  Tracker.GetExecutedScriptNames w
  = (after_round_trip w, Ret (Tracker.executed_names (rows (db w)))).
Proof.
  intros H. unfold Tracker.GetExecutedScriptNames.
  assert (Hrt : wrap "failed to get executed scripts: " round_trip w
                = (after_round_trip w, Ret tt)).
  { unfold wrap. by rewrite (round_trip_answered _ H). }
  rewrite (bind_Ret _ _ _ _ _ Hrt).
  unfold bind, DB.get_db, ret. by rewrite after_round_trip_db.
Qed.

Lemma GetLastSuccessfulCommit_answered w :
  answered w →
  Tracker.GetLastSuccessfulCommit w = (after_round_trip w, Ret (checkpoint (rows (db w)))).
Proof.
  intros H. unfold Tracker.GetLastSuccessfulCommit, checkpoint.
  assert (Hq : wrap "failed to get last successful commit: " Tracker.query_last_terminator w
               = (after_round_trip w, Ret (Tracker.last_terminator (rows (db w))))).
  { unfold wrap. by rewrite (query_last_terminator_answered _ H). }
  rewrite (bind_Ret _ _ _ _ _ Hq).
  destruct (Tracker.last_terminator (rows (db w))) as [r|]; [|done].
  by destruct (lastgitid r).
Qed.

(** X6. What [RecordExecutionDirect] records is read back by
    [GetExecutedScriptNames]: afterwards a name counts as executed exactly
    when it did before, or when it is the recorded name and the record says
    completed. A record of failure adds no name. *)
Theorem RecordExecutionDirect_read_back (name : string) (completed endOfBatch : bool)
    (gitID : string) (w w1 w2 : World) (executed : gmap string bool) :
  Tracker.RecordExecutionDirect name completed endOfBatch gitID w = (w1, Ret tt) →
  Tracker.GetExecutedScriptNames w1 = (w2, Ret executed) →
  ∀ n, index_bool executed n
       = index_bool (Tracker.executed_names (rows (db w))) n
         || (completed && bool_decide (n = name)).
Proof.
  intros (Hdb & _)%RecordExecutionDirect_Ret ->%GetExecutedScriptNames_value n.
  rewrite Hdb. cbn [rows]. rewrite executed_names_app.
  unfold Tracker.is_completed, index_bool, DB.new_row. simpl.
  destruct completed; cbn [andb].
  - rewrite bool_decide_eq_true_2 by done. case_bool_decide as Hn.
    + subst. rewrite lookup_insert_eq. cbn. by rewrite orb_true_r.
    + rewrite lookup_insert_ne by done. by rewrite orb_false_r.
  - rewrite bool_decide_eq_false_2 by done. by rewrite orb_false_r.
Qed.

(** A terminator row of fresh ordinal, after rows that are no terminators,
    is the last terminator. *)
Lemma last_terminator_others table others :
  Forall (λ r, endofbatch r = Some false) others →
  Tracker.last_terminator (table ++ others) = Tracker.last_terminator table.
Proof.
  induction others as [|r others IH] using rev_ind; intros Hall.
  - by rewrite app_nil_r.
  - apply Forall_app in Hall as [Hothers [Hr _]%Forall_cons].
    rewrite app_assoc, last_terminator_app, IH by done.
    unfold Tracker.is_terminator. rewrite Hr. by rewrite bool_decide_eq_false_2.
Qed.

Lemma last_terminator_fresh table t :
  Forall (λ r, sno r < sno t) table →
  endofbatch t = Some true →
  Tracker.last_terminator (table ++ [t]) = Some t.
Proof.
  intros Hall Ht. rewrite last_terminator_app.
  unfold Tracker.is_terminator. rewrite bool_decide_eq_true_2 by done.
  pose proof (last_terminator_spec table) as Hspec.
  destruct (Tracker.last_terminator table) as [b|]; [|done]. simpl.
  destruct Hspec as (Hb & _). rewrite Forall_forall in Hall.
  by rewrite bool_decide_eq_true_2 by (by apply Hall).
Qed.

Lemma rows_after_nil n table :
  Forall (λ r, sno r ≤ n) table → Tracker.rows_after n table = [].
Proof.
  intros Hall. unfold Tracker.rows_after.
  assert (List.filter (λ r, bool_decide (n < sno r)) table = []) as ->; [|done].
  induction Hall as [|r l Hr _ IH]; simpl; [done|].
  by rewrite bool_decide_eq_false_2 by lia.
Qed.

(** Appending a row of the next ordinal keeps the table as its schema
    wants it. *)
Lemma well_formed_append d name completed endOfBatch gitID :
  well_formed d →
  well_formed {| rows := rows d ++ [DB.new_row (auto_increment d) name completed endOfBatch gitID];
                 auto_increment := auto_increment d + 1;
                 applied := applied d |}.
Proof.
  intros (Hpos & Hnd & Hall). split_and!; simpl.
  - lia.
  - rewrite fmap_app. apply NoDup_app. split_and!; [done| |by apply NoDup_singleton].
    intros n Hn [= ->]%list_elem_of_singleton.
    apply list_elem_of_fmap in Hn as (r & Hr & Hin).
    rewrite Forall_forall in Hall. specialize (Hall r Hin). simpl in Hr. lia.
  - apply Forall_app. split.
    + eapply Forall_impl; [exact Hall|]. intros r ?. simpl in *. lia.
    + constructor; [|constructor]. simpl. lia.
Qed.

(** X7. On a table that respects its schema, a row recorded with the
    batch-terminator flag becomes the checkpoint: afterwards
    [GetLastSuccessfulCommit] returns its revision,
    [GetHalfCommittedScripts] returns nothing, and the table still respects
    its schema. *)
Theorem RecordExecutionDirect_terminator_is_checkpoint (name : string) (completed : bool)
    (gitID : string) (w w1 : World) :
  well_formed (db w) →
  Tracker.RecordExecutionDirect name completed true gitID w = (w1, Ret tt) →
  fault_at 0 w1 = None → fault_at 1 w1 = None →
  (Tracker.GetLastSuccessfulCommit w1).2 = Ret gitID
  ∧ (Tracker.GetHalfCommittedScripts w1).2 = Ret []
  ∧ well_formed (db w1).
Proof.
  intros Hwf (Hdb & _)%RecordExecutionDirect_Ret H0 H1.
  pose proof Hwf as (Hpos & Hnd & Hall).
  assert (Hlast : Tracker.last_terminator (rows (db w1))
                  = Some (DB.new_row (auto_increment (db w)) name completed true gitID)).
  { rewrite Hdb. cbn [rows]. apply last_terminator_fresh; [|done].
    eapply Forall_impl; [exact Hall|]. intros r ?. simpl in *. lia. }
  split_and!.
  - rewrite GetLastSuccessfulCommit_answered by (by apply answered_fault_at).
    unfold checkpoint. by rewrite Hlast.
  - rewrite (GetHalfCommittedScripts_answered _ H0 H1).
    unfold checkpoint_sno. rewrite Hlast. cbn [snd sno DB.new_row].
    rewrite rows_after_nil; [done|].
    rewrite Hdb. cbn [rows]. apply Forall_app. split.
    + eapply Forall_impl; [exact Hall|]. intros r ?. simpl in *. lia.
    + constructor; [|constructor]. simpl. lia.
  - rewrite Hdb. by apply well_formed_append.
Qed.

(** ** What becomes of one script, in short *)

Lemma executeScript_outcomes env cfg script gitID isLast w :
  let w' := (Migrator.executeScript env cfg script gitID isLast w).1 in
  let r := (Migrator.executeScript env cfg script gitID isLast w).2 in
  (tx w = None → tx w' = None) ∧
  ((db w' = db w ∧ ∃ e, r = Fail e)
   ∨ (db w' = {| rows := rows (db w) ++
                   [DB.new_row (auto_increment (db w)) (Name script) false false gitID];
                 auto_increment := auto_increment (db w) + 1;
                 applied := applied (db w) |} ∧ ∃ e, r = Fail e)
   ∨ (db w' = {| rows := rows (db w);
                 auto_increment := auto_increment (db w) + 1;
                 applied := applied (db w) |} ∧ ∃ e, r = Fail e)
   ∨ (∃ content,
        script_content env cfg script = Some content ∧
        db w' = {| rows := rows (db w) ++
                     [DB.new_row (auto_increment (db w)) (Name script) true isLast gitID];
                   auto_increment := auto_increment (db w) + 1;
                   applied := applied (db w) ++ [content] |} ∧
        r = Ret tt)).
Proof.
  pose proof (executeScript_cases env cfg script gitID isLast w) as H. cbv zeta in *.
  destruct (script_content env cfg script) as [content|].
  2: { destruct H as [-> He]. split; [done|]. by left. }
  destruct (fault_at 0 w).
  { destruct H as (-> & Hdb & Htx & _). split; [by rewrite Htx|]. left. eauto. }
  destruct (db_ExecuteSQL env (applied (db w)) content).
  { destruct H as (-> & Htx & _ & _ & Hdb). split; [done|].
    destruct (fault_at 1 w); [left|right; left]; eauto. }
  destruct (fault_at 1 w).
  { destruct H as (-> & Hdb & Htx & _). split; [done|]. left. eauto. }
  destruct H as (Htx & _ & _ & H). split; [done|].
  destruct (fault_at 2 w); destruct H as [-> Hdb].
  - right; right; left. eauto.
  - right; right; right. eauto.
Qed.

(** X8. [executeScript] is all or nothing and never panics: when it returns
    nil, the transaction that ran the script's batch and inserted the one
    row that says completed has been committed; when it returns an error,
    nothing of that transaction is committed, and the table has grown by
    nothing or by the one row of failure, written outside it. (What is
    committed is what the transaction holds: statements that a server
    commits on its own account are outside the embedding.) *)
Theorem executeScript_atomic (env : Env) (cfg : Config) (script : ScriptInfo)
    (gitID : string) (isLast : bool) (w : World) :
  let w' := (Migrator.executeScript env cfg script gitID isLast w).1 in
  match (Migrator.executeScript env cfg script gitID isLast w).2 with
  | Ret _ =>
      ∃ content,
        script_content env cfg script = Some content ∧
        applied (db w') = applied (db w) ++ [content] ∧
        rows (db w') = rows (db w) ++
          [DB.new_row (auto_increment (db w)) (Name script) true isLast gitID]
  | Fail _ =>
      applied (db w') = applied (db w) ∧
      (rows (db w') = rows (db w)
       ∨ rows (db w') = rows (db w) ++
           [DB.new_row (auto_increment (db w)) (Name script) false false gitID])
  | Panic _ => False
  end.
Proof.
  destruct (executeScript_outcomes env cfg script gitID isLast w) as [_ H].
  cbv zeta in *.
  destruct H as [[Hdb [e ->]]|[[Hdb [e ->]]|[[Hdb [e ->]]|(content & Hc & Hdb & ->)]]];
    rewrite Hdb; simpl; eauto.
Qed.

(** ** Relations that the whole run respects *)

Section run_keeps.
Context (R : World → World → Prop) `{!PreOrder R}.
Context (R_say : ∀ c, keeps R (say c)).
Context (R_round_trip : keeps R round_trip).
Context (R_executeScript : ∀ env cfg script gitID isLast,
           keeps R (Migrator.executeScript env cfg script gitID isLast)).

Lemma R_get_db : keeps R DB.get_db.
Proof. intros w. reflexivity. Qed.

Ltac R_base := first [apply R_say | apply R_round_trip | apply R_get_db
                      | apply R_executeScript].

Lemma R_query_last_terminator : keeps R Tracker.query_last_terminator.
Proof. unfold Tracker.query_last_terminator. keeps_steps; R_base. Qed.

Lemma R_EnsureTable : keeps R Tracker.EnsureTable.
Proof. unfold Tracker.EnsureTable. keeps_steps; R_base. Qed.

Lemma R_GetLastSuccessfulCommit : keeps R Tracker.GetLastSuccessfulCommit.
Proof.
  unfold Tracker.GetLastSuccessfulCommit. keeps_steps. apply R_query_last_terminator.
Qed.

Lemma R_GetExecutedScriptNames : keeps R Tracker.GetExecutedScriptNames.
Proof. unfold Tracker.GetExecutedScriptNames. keeps_steps; R_base. Qed.

Lemma R_GetHalfCommittedScripts : keeps R Tracker.GetHalfCommittedScripts.
Proof.
  unfold Tracker.GetHalfCommittedScripts. keeps_steps;
    first [apply R_query_last_terminator | R_base].
Qed.

Lemma R_ValidateScriptsDirectory env : keeps R (Validator.ValidateScriptsDirectory env).
Proof. unfold Validator.ValidateScriptsDirectory. keeps_steps. Qed.

Lemma R_CheckFileModifications env fromCommit toCommit executedScripts :
  keeps R (Validator.CheckFileModifications env fromCommit toCommit executedScripts).
Proof. unfold Validator.CheckFileModifications. keeps_steps; R_base. Qed.

Lemma R_CheckHalfCommittedFiles halfCommitted :
  keeps R (Validator.CheckHalfCommittedFiles halfCommitted).
Proof. unfold Validator.CheckHalfCommittedFiles. keeps_steps; R_base. Qed.

Lemma R_missed_loop env cfg gitID executedScripts lenMissed rest :
  ∀ i, keeps R (Migrator.missed_loop env cfg gitID executedScripts lenMissed i rest).
Proof.
  induction rest as [|name rest IH]; intros i; simpl.
  - apply (@keeps_ret R _).
  - keeps_steps; first [apply IH | R_base].
Qed.

Lemma R_pending_loop env cfg gitID lenScripts lenPending skipped rest :
  ∀ i successCount failedCount,
    keeps R (Migrator.pending_loop env cfg gitID lenScripts lenPending skipped
               i successCount failedCount rest).
Proof.
  induction rest as [|script rest IH]; intros i s f; simpl.
  - apply (@keeps_ret R _).
  - keeps_steps; first [apply IH | R_base].
Qed.

Lemma R_executeMissedScripts env cfg : keeps R (Migrator.executeMissedScripts env cfg).
Proof.
  unfold Migrator.executeMissedScripts. keeps_steps;
    first [apply R_missed_loop | apply R_GetExecutedScriptNames | R_base].
Qed.

Lemma R_Run_discover env cfg : keeps R (Migrator.Run_discover env cfg).
Proof.
  unfold Migrator.Run_discover. keeps_steps;
    first [ apply R_ValidateScriptsDirectory | apply R_EnsureTable
          | apply R_GetLastSuccessfulCommit | apply R_executeMissedScripts
          | apply R_GetExecutedScriptNames | apply R_CheckFileModifications
          | apply R_GetHalfCommittedScripts | apply R_CheckHalfCommittedFiles
          | R_base ].
Qed.

Lemma R_Run_execute env cfg found : keeps R (Migrator.Run_execute env cfg found).
Proof.
  unfold Migrator.Run_execute. keeps_steps; first [apply R_pending_loop | R_base].
Qed.

Lemma R_Run env cfg : keeps R (Migrator.Run env cfg).
Proof.
  unfold Migrator.Run. keeps_steps; first [apply R_Run_discover | apply R_Run_execute].
Qed.

Lemma R_ExecuteSingleScript env cfg scriptName :
  keeps R (Migrator.ExecuteSingleScript env cfg scriptName).
Proof. unfold Migrator.ExecuteSingleScript. cbv zeta. apply R_executeScript. Qed.

End run_keeps.

(** *** No transaction is left open *)

#[global] Instance settled_preorder : PreOrder settled.
Proof. split; unfold settled; [by intros w|]. intros w1 w2 w3 H12 H23 H. by apply H23, H12. Qed.

Lemma settled_say c : keeps settled (say c).
Proof. intros w H. exact H. Qed.

Lemma settled_round_trip : keeps settled round_trip.
Proof. intros w H. fold (after_round_trip w). by rewrite after_round_trip_tx. Qed.

Lemma settled_executeScript env cfg script gitID isLast :
  keeps settled (Migrator.executeScript env cfg script gitID isLast).
Proof. intros w. by destruct (executeScript_outcomes env cfg script gitID isLast w). Qed.

(** X9. A run started with no transaction open ends with no transaction
    open, however it ends: every transaction that [executeScript] begins is
    committed or rolled back before it returns. *)
Theorem Run_leaves_no_transaction (env : Env) (cfg : Config) (w : World) :
  tx w = None → tx (Migrator.Run env cfg w).1 = None.
Proof.
  apply (R_Run settled settled_say settled_round_trip settled_executeScript env cfg w).
Qed.

(** *** The table only grows, by fresh ordinals *)

#[global] Instance extends_preorder : PreOrder extends.
Proof.
  split.
  - intros w. split; [done|]. exists []. rewrite app_nil_r.
    split_and!; [done|constructor|constructor].
  - intros w1 w2 w3 (Ha1 & n1 & Hr1 & Hn1 & Hs1) (Ha2 & n2 & Hr2 & Hn2 & Hs2).
    split; [lia|]. exists (n1 ++ n2). rewrite Hr2, Hr1, app_assoc.
    split_and!; [done| |].
    + apply Forall_app. split; (eapply Forall_impl; [eassumption|]); intros r ?; simpl in *; lia.
    + apply StronglySorted_app_2; [|exact Hs1|exact Hs2].
      intros r1 r2 H1 H2. rewrite Forall_forall in Hn1, Hn2.
      specialize (Hn1 r1 H1). specialize (Hn2 r2 H2). simpl in *. lia.
Qed.

Lemma same_db_extends w w' : db w' = db w → extends w w'.
Proof.
  intros H. unfold extends. rewrite H. split; [done|]. exists []. rewrite app_nil_r.
  split_and!; [done|constructor|constructor].
Qed.

Lemma extends_say c : keeps extends (say c).
Proof. intros w. by apply same_db_extends. Qed.

Lemma extends_round_trip : keeps extends round_trip.
Proof. intros w. apply same_db_extends, after_round_trip_db. Qed.

Lemma extends_executeScript env cfg script gitID isLast :
  keeps extends (Migrator.executeScript env cfg script gitID isLast).
Proof.
  intros w. destruct (executeScript_outcomes env cfg script gitID isLast w) as [_ H].
  cbv zeta in H.
  assert (Hone : ∀ r, sno r = auto_increment (db w) →
            Forall (λ r, auto_increment (db w) ≤ sno r < auto_increment (db w) + 1) [r]
            ∧ StronglySorted (λ a b, sno a < sno b) [r]).
  { intros r Hr. split; repeat constructor; lia. }
  destruct H as [[Hdb _]|[[Hdb _]|[[Hdb _]|(content & _ & Hdb & _)]]].
  - by apply same_db_extends.
  - split; rewrite Hdb; simpl; [lia|]. eexists. split; [done|]. by apply Hone.
  - split; rewrite Hdb; simpl; [lia|]. exists []. rewrite app_nil_r.
    split_and!; [done|constructor|constructor].
  - split; rewrite Hdb; simpl; [lia|]. eexists. split; [done|]. by apply Hone.
Qed.

Lemma extends_well_formed w w' :
  extends w w' → well_formed (db w) → well_formed (db w').
Proof.
  intros (Hai & new & Hrows & Hnew & Hsorted) (Hpos & Hnd & Hall).
  split_and!; [lia| |]; rewrite Hrows.
  - rewrite fmap_app. apply NoDup_app. split_and!; [done| |].
    + intros n (r1 & -> & H1)%list_elem_of_fmap (r2 & Heq & H2)%list_elem_of_fmap.
      rewrite Forall_forall in Hall, Hnew.
      specialize (Hall r1 H1). specialize (Hnew r2 H2). simpl in *. lia.
    + clear Hrows Hnew. induction Hsorted as [|r l _ IH Hr]; simpl; constructor; [|done].
      intros (r' & Heq & Hin)%list_elem_of_fmap.
      rewrite Forall_forall in Hr. specialize (Hr r' Hin). lia.
  - apply Forall_app. split; (eapply Forall_impl; [eassumption|]); intros r ?; simpl in *; lia.
Qed.

(** X10. A run never deletes or changes a row of the tracking table: the table
    only grows, by rows whose ordinals are fresh and ascend in the order of
    insertion; so a table that respects its schema still does after any
    run. *)
Theorem Run_extends (env : Env) (cfg : Config) (w : World) :
  extends w (Migrator.Run env cfg w).1
  ∧ (well_formed (db w) → well_formed (db (Migrator.Run env cfg w).1)).
Proof.
  assert (H : extends w (Migrator.Run env cfg w).1).
  { apply (R_Run extends extends_say extends_round_trip extends_executeScript env cfg w). }
  split; [done|]. by apply extends_well_formed.
Qed.

(** *** Batches and completed rows go together *)

#[global] Instance balanced_preorder : PreOrder balanced.
Proof.
  split.
  - intros w. exists [], []. by rewrite !app_nil_r.
  - intros w1 w2 w3 (n1 & b1 & Hr1 & Ha1 & Hl1) (n2 & b2 & Hr2 & Ha2 & Hl2).
    exists (n1 ++ n2), (b1 ++ b2). rewrite Hr2, Hr1, Ha2, Ha1, !app_assoc.
    split_and!; [done..|].
    rewrite List.filter_app, !length_app. lia.
Qed.

Lemma same_db_balanced w w' : db w' = db w → balanced w w'.
Proof. intros H. unfold balanced. rewrite H. exists [], []. by rewrite !app_nil_r. Qed.

Lemma balanced_say c : keeps balanced (say c).
Proof. intros w. by apply same_db_balanced. Qed.

Lemma balanced_round_trip : keeps balanced round_trip.
Proof. intros w. apply same_db_balanced, after_round_trip_db. Qed.

Lemma balanced_executeScript env cfg script gitID isLast :
  keeps balanced (Migrator.executeScript env cfg script gitID isLast).
Proof.
  intros w. destruct (executeScript_outcomes env cfg script gitID isLast w) as [_ H].
  cbv zeta in H.
  destruct H as [[Hdb _]|[[Hdb _]|[[Hdb _]|(content & _ & Hdb & _)]]].
  - by apply same_db_balanced.
  - exists [DB.new_row (auto_increment (db w)) (Name script) false false gitID], [].
    rewrite Hdb. simpl. by rewrite app_nil_r.
  - exists [], []. rewrite Hdb. simpl. by rewrite !app_nil_r.
  - exists [DB.new_row (auto_increment (db w)) (Name script) true isLast gitID], [content].
    rewrite Hdb. simpl. done.
Qed.

(** X11. Over a whole run, whatever its outcome, the script batches that
    the run's transactions committed and the rows recorded as completed go
    together: one batch for each completed row that the run appended. *)
Theorem Run_balanced (env : Env) (cfg : Config) (w : World) :
  balanced w (Migrator.Run env cfg w).1.
Proof.
  apply (R_Run balanced balanced_say balanced_round_trip balanced_executeScript env cfg w).
Qed.

(** ** A run only reads until the execution loop *)

Lemma Run_discover_quiet env cfg w :
  MissedScriptsFile cfg = "" → quiet w (Migrator.Run_discover env cfg w).1.
Proof.
  intros Hfile.
  destruct (Run_discover_inv env cfg w) as (w1 & w2 & Hq1 & Hw2 & Hq2 & _).
  destruct Hw2 as [->|[Hne _]]; [by etrans|done].
Qed.


(** ** A failed script blocks the next run *)

Lemma CheckHalfCommittedFiles_fails halfCommitted rec w :
  rec ∈ halfCommitted → Completed rec = false →
  ∃ e, (Validator.CheckHalfCommittedFiles halfCommitted w).2 = Fail e.
Proof.
  intros Hin Hc.
  destruct (find_failed_Some halfCommitted) as (rec' & Hf & _); [by eauto|].
  unfold Validator.CheckHalfCommittedFiles.
  destruct (decide (len halfCommitted = 0)) as [H0|H0].
  { apply len_nil_iff in H0. subst. by apply elem_of_nil in Hin. }
  rewrite bind_say, (bind_Ret _ _ _ _ _ (for_each_say _ _ _)), Hf.
  by eexists.
Qed.

Lemma after_every_terminator table r :
  r ∈ table → 0 < sno r →
  (∀ t, t ∈ table → endofbatch t = Some true → sno t < sno r) →
  checkpoint_sno table < sno r.
Proof.
  intros Hin Hpos Hafter. unfold checkpoint_sno.
  pose proof (last_terminator_spec table) as Hspec.
  destruct (Tracker.last_terminator table) as [b|]; [|done].
  destruct Hspec as (Hb & Hbt & _). apply Hafter; [done|].
  unfold Tracker.is_terminator in Hbt. by apply bool_decide_eq_true in Hbt.
Qed.

Lemma Run_discover_blocked env cfg w r :
  MissedScriptsFile cfg = "" →
  r ∈ rows (db w) →
  completed r ≠ Some true →
  0 < sno r →
  (∀ t, t ∈ rows (db w) → endofbatch t = Some true → sno t < sno r) →
  ∀ b, (Migrator.Run_discover env cfg w).2 ≠ Ret b.
Proof.
  intros Hfile Hin Hfailed Hpos Hafter.
  pose (P := λ (wn : World) (res : outcome (option Migrator.Discovery)), ∀ b, res ≠ Ret b).
  change (P (Migrator.Run_discover env cfg w).1 (Migrator.Run_discover env cfg w).2).
  assert (Hstop : ∀ wn res, quiet w wn → (∀ b, res ≠ Ret b) → P wn res) by (by intros).
  unfold Migrator.Run_discover.
  quiet_next w; [quiet_lemma|reflexivity|exact Hstop|]. intros wa [] Hqa _.
  quiet_next w; [quiet_lemma|exact Hqa|exact Hstop|]. intros wb [] Hqb _. clear wa Hqa.
  quiet_next w; [quiet_lemma|exact Hqb|exact Hstop|]. intros wa [] Hqa _. clear wb Hqb.
  quiet_next w; [quiet_lemma|exact Hqa|exact Hstop|]. intros wb [] Hqb _. clear wa Hqa.
  quiet_next w; [quiet_lemma|exact Hqb|exact Hstop|]. intros wa [] Hqa _. clear wb Hqb.
  quiet_next w; [quiet_lemma|exact Hqa|exact Hstop|]. intros wb lastGitID Hqb _.
  clear wa Hqa.
  quiet_next w; [|exact Hqb|exact Hstop|].
  { destruct (decide _); [quiet_lemma|].
    apply (@keeps_bind quiet _); [quiet_lemma|]. intros short. quiet_lemma. }
  intros wa [] Hqa _. clear wb Hqb.
  destruct (decide (MissedScriptsFile cfg ≠ "")) as [Hne|_]; [done|].
  rewrite bind_ret.
  quiet_next w; [quiet_lemma|exact Hqa|exact Hstop|]. intros wb executedScripts Hqb _.
  clear wa Hqa.
  quiet_next w; [quiet_lemma|exact Hqb|exact Hstop|]. intros wa currentCommit Hqa _.
  clear wb Hqb.
  quiet_next w; [quiet_lemma|exact Hqa|exact Hstop|]. intros wb short Hqb _. clear wa Hqa.
  quiet_next w; [quiet_lemma|exact Hqb|exact Hstop|]. intros wa [] Hqa _. clear wb Hqb.
  quiet_next w; [quiet_lemma|exact Hqa|exact Hstop|]. intros wb [] Hqb _. clear wa Hqa.
  quiet_next w; [quiet_lemma|exact Hqb|exact Hstop|]. intros wa [] Hqa _. clear wb Hqb.
  assert (Hdb : db wa = db w) by apply Hqa.
  quiet_next w; [quiet_lemma|exact Hqa|exact Hstop|]. intros wb halfCommitted Hqb Hhalf.
  apply wrap_Ret, GetHalfCommittedScripts_value in Hhalf as [Hflags ->].
  rewrite Hdb in *. clear wa Hqa Hdb.
  assert (Hr : r ∈ Tracker.rows_after (checkpoint_sno (rows (db w))) (rows (db w))).
  { apply rows_after_elem. split; [done|]. by apply after_every_terminator. }
  assert (Hrec : Completed (record_of r) = false).
  { rewrite Forall_forall in Hflags. destruct (Hflags r Hr) as [Hc _].
    unfold record_of. simpl. by destruct (completed r) as [[]|]. }
  match goal with
  | |- ?P (bind ?m ?k ?wc).1 (bind ?m ?k ?wc).2 => apply (any_step P m k wc)
  end.
  intros wn res Hcheck.
  destruct (CheckHalfCommittedFiles_fails
              (record_of <$> Tracker.rows_after (checkpoint_sno (rows (db w))) (rows (db w)))
              (record_of r) wb) as [e He]; [|done|].
  { apply list_elem_of_fmap. by exists r. }
  rewrite Hcheck in He. simpl in He. subst res. by intros b.
Qed.

(** X13. A row that is not completed and lies after every batch terminator
    blocks the tool: without a missed-scripts file, whatever git answers, a
    run does not return nil and leaves the database as it was. *)
Theorem Run_blocked_by_failed_script (env : Env) (cfg : Config) (w : World) (r : Row) :
  MissedScriptsFile cfg = "" →
  r ∈ rows (db w) →
  completed r ≠ Some true →
  0 < sno r →
  (∀ t, t ∈ rows (db w) → endofbatch t = Some true → sno t < sno r) →
  (Migrator.Run env cfg w).2 ≠ Ret tt
  ∧ db (Migrator.Run env cfg w).1 = db w.
Proof.
  intros Hfile Hin Hfailed Hpos Hafter.
  pose proof (Run_discover_blocked env cfg w r Hfile Hin Hfailed Hpos Hafter) as Hno.
  pose proof (Run_discover_quiet env cfg w Hfile) as [Hdb _].
  unfold Migrator.Run, bind.
  destruct (Migrator.Run_discover env cfg w) as [w' [found|e|p]]; simpl in *;
    [by destruct (Hno found)|done..].
Qed.

(** ** A checkpoint too short to abbreviate *)

Lemma slice_to_None s n : Strings.slice_to s n = None ↔ (String.length s < n)%nat.
Proof.
  revert s. induction n as [|n IH]; intros s.
  - destruct s; simpl; split; (done || lia).
  - destruct s as [|c s]; simpl.
    + split; intros; [lia|done].
    + rewrite <- Nat.succ_lt_mono, <- IH.
      destruct (Strings.slice_to s n); simpl; split; done.
Qed.

Lemma EnsureTable_answered w :
  answered w → Tracker.EnsureTable w = (after_round_trip w, Ret tt).
Proof. intros H. unfold Tracker.EnsureTable, wrap. by rewrite (round_trip_answered _ H). Qed.

Lemma Run_discover_short_checkpoint env cfg w c :
  Git.IsGitRepository env = true →
  fault_at 0 w = None → fault_at 1 w = None →
  checkpoint (rows (db w)) = c →
  c ≠ "" → (String.length c < 8)%nat →
  (Migrator.Run env cfg w).2
  = Panic ("runtime error: slice bounds out of range [:8] with length "
           +:+ pretty (String.length c))
  ∧ db (Migrator.Run env cfg w).1 = db w.
Proof.
  intros Hgit H0 H1 Hc Hne Hshort.
  unfold Migrator.Run.
  set (w1 := add_event (Console (Info "Validating scripts directory..."))
               (add_event (Console (Header "DB Migration Started")) w)).
  set (w2 := add_event (Console (Info "Ensuring tracking table exists...")) w1).
  assert (Hdisc : Migrator.Run_discover env cfg w
                  = (after_round_trip (after_round_trip w2),
                     Panic ("runtime error: slice bounds out of range [:8] with length "
                            +:+ pretty (String.length c)))).
  { unfold Migrator.Run_discover. rewrite !bind_say. fold w1.
    unfold Validator.ValidateScriptsDirectory. rewrite Hgit, bind_ret, bind_say. fold w2.
    assert (Hq0 : answered w2) by (by apply answered_fault_at).
    assert (Hq1 : answered (after_round_trip w2)) by (by apply answered_after_round_trip).
    rewrite (bind_Ret _ _ _ _ _ (EnsureTable_answered w2 Hq0)).
    assert (Hlast : wrap "failed to get last successful commit: "
                      Tracker.GetLastSuccessfulCommit (after_round_trip w2)
                    = (after_round_trip (after_round_trip w2), Ret c)).
    { unfold wrap. rewrite GetLastSuccessfulCommit_answered by exact Hq1.
      rewrite after_round_trip_db. by rewrite <- Hc. }
    rewrite (bind_Ret _ _ _ _ _ Hlast).
    destruct (decide (c = "")) as [|_]; [done|].
    unfold bind, lift, slice_prefix.
    apply slice_to_None in Hshort. by rewrite Hshort. }
  rewrite (bind_Panic _ _ _ _ _ Hdisc). split; [done|].
  simpl. by rewrite !after_round_trip_db.
Qed.

(** X14. [Run] abbreviates the checkpoint with [lastGitID[:8]] without looking
    at its length: a checkpoint revision that is not empty and shorter than
    8 bytes makes the run panic in step 3, before anything is written. *)
Theorem Run_short_checkpoint_panics (env : Env) (cfg : Config) (w : World) (c : string) :
  Git.IsGitRepository env = true →
  fault_at 0 w = None → fault_at 1 w = None →
  checkpoint (rows (db w)) = c →
  c ≠ "" → (String.length c < 8)%nat →
  (Migrator.Run env cfg w).2
  = Panic ("runtime error: slice bounds out of range [:8] with length "
           +:+ pretty (String.length c))
  ∧ db (Migrator.Run env cfg w).1 = db w.
Proof. apply Run_discover_short_checkpoint. Qed.

(** ** A script executed on its own *)

Lemma ExecuteSingleScript_Ret env cfg scriptName w w' :
  Migrator.ExecuteSingleScript env cfg scriptName w = (w', Ret tt) →
  rows (db w') = rows (db w) ++
    [DB.new_row (auto_increment (db w)) scriptName true true
       (match Git.GetCurrentCommit env with
        | Ok currentCommit => currentCommit
        | Err _ => "manual"
        end)]
  ∧ auto_increment (db w') = auto_increment (db w) + 1.
Proof.
  unfold Migrator.ExecuteSingleScript. cbv zeta.
  intros (content & Hc & _ & Hdb & _)%executeScript_Ret.
  by rewrite Hdb.
Qed.

Lemma checkpoint_fresh_terminator d name completed gitID :
  well_formed d →
  checkpoint (rows d ++ [DB.new_row (auto_increment d) name completed true gitID]) = gitID.
Proof.
  intros (_ & _ & Hall). unfold checkpoint.
  rewrite last_terminator_fresh; [done| |done].
  eapply Forall_impl; [exact Hall|]. intros r ?. simpl in *. lia.
Qed.

(** X15. [ExecuteSingleScript] records the script as a batch terminator under
    the current revision, or under the word [manual] when git gives none: on
    a table that respects its schema, once it returns nil that revision is
    what [GetLastSuccessfulCommit] returns, and the script counts as
    executed. *)
Theorem ExecuteSingleScript_sets_checkpoint (env : Env) (cfg : Config)
    (scriptName : string) (w w' : World) :
  well_formed (db w) →
  Migrator.ExecuteSingleScript env cfg scriptName w = (w', Ret tt) →
  fault_at 0 w' = None →
  (Tracker.GetLastSuccessfulCommit w').2
  = Ret (match Git.GetCurrentCommit env with
         | Ok currentCommit => currentCommit
         | Err _ => "manual"
         end)
  ∧ completed_in (rows (db w')) scriptName.
Proof.
  intros Hwf [Hrows _]%ExecuteSingleScript_Ret H0.
  split_and!.
  - rewrite GetLastSuccessfulCommit_answered by (by apply answered_fault_at).
    rewrite Hrows. simpl. f_equal. by apply checkpoint_fresh_terminator.
  - rewrite Hrows. apply executed_names_spec.
    exists (DB.new_row (auto_increment (db w)) scriptName true true
              (match Git.GetCurrentCommit env with
               | Ok currentCommit => currentCommit
               | Err _ => "manual"
               end)).
    split_and!; [|done..]. apply elem_of_app. right. by left.
Qed.

(** X16. After [ExecuteSingleScript] went through while git gave no
    revision, the checkpoint is the 6-byte word [manual], and the next
    [Run], in whatever repository, panics on [lastGitID[:8]]. *)
Theorem Run_after_manual_script_panics (env env' : Env) (cfg cfg' : Config)
    (scriptName : string) (e : error) (w w' : World) :
  well_formed (db w) →
  Git.GetCurrentCommit env = Err e →
  Migrator.ExecuteSingleScript env cfg scriptName w = (w', Ret tt) →
  Git.IsGitRepository env' = true →
  fault_at 0 w' = None → fault_at 1 w' = None →
  (Migrator.Run env' cfg' w').2
  = Panic "runtime error: slice bounds out of range [:8] with length 6"
  ∧ db (Migrator.Run env' cfg' w').1 = db w'.
Proof.
  intros Hwf Hgit [Hrows _]%ExecuteSingleScript_Ret Hrepo H0 H1.
  rewrite Hgit in Hrows.
  apply (Run_discover_short_checkpoint env' cfg' w' "manual"); [done..| |done|simpl; lia].
  rewrite Hrows. by apply checkpoint_fresh_terminator.
Qed.

(** ** The first refusals *)

(** X17. Outside a git repository [Run] stops at step 1 with the validator's
    error, having said two lines and sent nothing to the database: no round
    trip is made. *)
Theorem Run_outside_repository (env : Env) (cfg : Config) (w : World) :
  Git.IsGitRepository env = false →
  Migrator.Run env cfg w
  = (add_event (Console (Info "Validating scripts directory..."))
       (add_event (Console (Header "DB Migration Started")) w),
     Fail "scripts directory is not within a git repository").
Proof.
  intros Hgit. unfold Migrator.Run.
  apply bind_Fail. unfold Migrator.Run_discover. rewrite !bind_say.
  apply bind_Fail. unfold Validator.ValidateScriptsDirectory. by rewrite Hgit.
Qed.



(** ** After a batch that went through *)

Lemma batch_rows_last n gitID lenPending i batch others last :
  batch_rows n gitID lenPending i batch = others ++ [last] →
  sno last = n + len others
  ∧ Forall (λ r, n ≤ sno r < n + len others) others.
Proof.
  intros Heq. split.
  - apply (batch_rows_ordinals n gitID lenPending i batch (length others) last).
    rewrite Heq. by apply list_lookup_middle.
  - apply Forall_forall. intros r Hr.
    apply list_elem_of_lookup in Hr as [k Hk].
    pose proof (lookup_lt_Some _ _ _ Hk) as Hlt.
    rewrite (batch_rows_ordinals n gitID lenPending i batch k r).
    + unfold len. lia.
    + rewrite Heq. by apply lookup_app_l_Some.
Qed.

(** X19. After the execution loop has gone through a non-empty pending list on
    a table that respects its schema, the batch is closed: the next
    [GetLastSuccessfulCommit] returns the current revision, the next
    [GetHalfCommittedScripts] returns nothing, and every pending script
    counts as executed. *)
Theorem Run_execute_moves_checkpoint (env : Env) (cfg : Config)
    (found : Migrator.Discovery) (w w' : World) :
  well_formed (db w) →
  Migrator.pendingScripts found ≠ [] →
  Migrator.Run_execute env cfg found w = (w', Ret tt) →
  fault_at 0 w' = None → fault_at 1 w' = None →
  (Tracker.GetLastSuccessfulCommit w').2 = Ret (Migrator.currentCommit found)
  ∧ (Tracker.GetHalfCommittedScripts w').2 = Ret []
  ∧ ∀ script, script ∈ Migrator.pendingScripts found →
      completed_in (rows (db w')) (Name script).
Proof.
  intros (Hpos & Hnd & Hall) Hne [Hrows _]%Run_execute_Ret H0 H1.
  set (n := auto_increment (db w)) in *.
  set (gitID := Migrator.currentCommit found) in *.
  set (batch := batch_rows n gitID (len (Migrator.pendingScripts found)) 0
                  (Migrator.pendingScripts found)) in *.
  destruct (batch_rows_terminator n gitID (len (Migrator.pendingScripts found)) 0
              (Migrator.pendingScripts found)) as (others & last & Heq & Hlast & Hothers);
    [done|lia|].
  destruct (batch_rows_last _ _ _ _ _ _ _ Heq) as [Hsno Hsnos].
  pose proof (batch_rows_completed n gitID (len (Migrator.pendingScripts found)) 0
                (Migrator.pendingScripts found)) as Hcompleted.
  fold batch in Heq, Hcompleted.
  assert (Hterm : Tracker.last_terminator (rows (db w')) = Some last).
  { rewrite Hrows, Heq, app_assoc. apply last_terminator_fresh; [|done].
    apply Forall_app. split.
    - eapply Forall_impl; [exact Hall|]. intros r ?. simpl in *. unfold len in *. lia.
    - eapply Forall_impl; [exact Hsnos|]. intros r ?. simpl in *. lia. }
  assert (Hgit : lastgitid last = Some gitID).
  { rewrite Heq in Hcompleted. by apply Forall_app in Hcompleted as [_ [[_ ?] _]%Forall_cons]. }
  split_and!.
  - rewrite GetLastSuccessfulCommit_answered by (by apply answered_fault_at).
    unfold checkpoint. by rewrite Hterm, Hgit.
  - rewrite (GetHalfCommittedScripts_answered _ H0 H1).
    unfold checkpoint_sno. rewrite Hterm. cbn [snd].
    rewrite rows_after_nil; [done|].
    rewrite Hrows, Heq. repeat (apply Forall_app; split).
    + eapply Forall_impl; [exact Hall|]. intros r ?. simpl in *. unfold len in *. lia.
    + eapply Forall_impl; [exact Hsnos|]. intros r ?. simpl in *. lia.
    + by repeat constructor.
  - intros script Hin. apply executed_names_spec.
    assert (Hname : Name script ∈ scriptName <$> batch).
    { unfold batch. rewrite batch_rows_names. apply list_elem_of_fmap. by exists script. }
    apply list_elem_of_fmap in Hname as (r & Hr & Hrin).
    exists r. rewrite Hrows. split_and!; [apply elem_of_app; by right|done|].
    rewrite Forall_forall in Hcompleted. by apply Hcompleted.
Qed.

(** ** The missed scripts *)

Lemma missed_loop_Ret env cfg gitID executedScripts lenMissed rest :
  ∀ i w w',
    Migrator.missed_loop env cfg gitID executedScripts lenMissed i rest w = (w', Ret tt) →
    rows (db w') = rows (db w) ++
      missed_rows (auto_increment (db w)) gitID executedScripts lenMissed i rest.
Proof.
  induction rest as [|name rest IH]; intros i w w'; simpl.
  - intros [= <-]. by rewrite app_nil_r.
  - destruct (index_bool executedScripts name) eqn:Hex.
    + rewrite bind_say. by intros ->%IH.
    + rewrite bind_say. unfold bind at 1. rewrite catch_executeScript.
      match goal with
      | |- context [Migrator.executeScript ?e ?c ?s ?g ?l ?ww] =>
          destruct (Migrator.executeScript e c s g l ww) as [w1 [[]|err|p]] eqn:Hrun
      end; simpl.
      * rewrite bind_say. intros ->%IH.
        apply executeScript_Ret in Hrun as (content & _ & _ & Hdb & _).
        simpl in *. rewrite Hdb. simpl. by rewrite <- app_assoc.
      * by rewrite bind_say.
      * by rewrite bind_say.
Qed.

Lemma missed_rows_names n gitID executedScripts lenMissed i names :
  scriptName <$> missed_rows n gitID executedScripts lenMissed i names
  = List.filter (λ name, negb (index_bool executedScripts name)) names.
Proof.
  revert n i. induction names as [|name names IH]; intros n i; simpl; [done|].
  destruct (index_bool executedScripts name); simpl; by rewrite IH.
Qed.

Lemma missed_rows_completed n gitID executedScripts lenMissed i names :
  Forall (λ r, completed r = Some true ∧ lastgitid r = Some gitID)
         (missed_rows n gitID executedScripts lenMissed i names).
Proof.
  revert n i. induction names as [|name names IH]; intros n i; simpl; [constructor|].
  destruct (index_bool executedScripts name); [apply IH|]. constructor; [done|apply IH].
Qed.

(** Only the row of the last listed name can be the terminator. *)
Lemma missed_rows_terminator n gitID executedScripts lenMissed i names :
  lenMissed = i + len names →
  match last names with
  | None => missed_rows n gitID executedScripts lenMissed i names = []
  | Some name =>
      if index_bool executedScripts name then
        Forall (λ r, endofbatch r = Some false)
               (missed_rows n gitID executedScripts lenMissed i names)
      else
        ∃ others t,
          missed_rows n gitID executedScripts lenMissed i names = others ++ [t] ∧
          scriptName t = name ∧ endofbatch t = Some true ∧
          Forall (λ r, endofbatch r = Some false) others
  end.
Proof.
  revert n i. induction names as [|name names IH]; intros n i Hlen; [done|].
  destruct names as [|next names].
  - simpl. destruct (index_bool executedScripts name); [constructor|].
    exists [], (DB.new_row n name true (bool_decide (i = lenMissed - 1)) gitID).
    split_and!; [done|done| |constructor].
    simpl. rewrite bool_decide_eq_true_2; [done|]. unfold len in Hlen. simpl in Hlen. lia.
  - assert (Hlen' : lenMissed = (i + 1) + len (next :: names)).
    { unfold len in *. cbn [length] in *. lia. }
    assert (Hnot : bool_decide (i = lenMissed - 1) = false).
    { apply bool_decide_eq_false_2. unfold len in Hlen. cbn [length] in Hlen. lia. }
    change (last (name :: next :: names)) with (last (next :: names)).
    cbn [missed_rows] in *.
    destruct (index_bool executedScripts name).
    + apply (IH n (i + 1) Hlen').
    + specialize (IH (n + 1) (i + 1) Hlen'). rewrite Hnot.
      destruct (last (next :: names)) as [l|] eqn:Hl; [|by apply last_None in Hl].
      destruct (index_bool executedScripts l).
      * by constructor.
      * destruct IH as (others & t & Heq & Hname & Hend & Hothers).
        exists (DB.new_row n name true false gitID :: others), t.
        rewrite Heq. split_and!; [done..|]. by constructor.
Qed.

Lemma bind_Ret_inv {A B} (m : M A) (k : A → M B) w w' b :
  bind m k w = (w', Ret b) → ∃ w1 a, m w = (w1, Ret a) ∧ k a w1 = (w', Ret b).
Proof. unfold bind. destruct (m w) as [w1 [a|e|p]]; [by eauto|done..]. Qed.

Lemma executeMissedScripts_Ret env cfg w w' :
  MissedScriptsFile cfg ≠ "" →
  Migrator.executeMissedScripts env cfg w = (w', Ret tt) →
  missed_names env cfg = []
  ∧ rows (db w') = rows (db w)
  ∨ ∃ gitID,
      Git.GetCurrentCommit env = Ok gitID ∧
      rows (db w') = rows (db w) ++
        missed_rows (auto_increment (db w)) gitID (Tracker.executed_names (rows (db w)))
          (len (missed_names env cfg)) 0 (missed_names env cfg).
Proof.
  intros Hfile. unfold Migrator.executeMissedScripts, missed_names.
  destruct (decide (MissedScriptsFile cfg = "")) as [|_]; [done|].
  rewrite bind_say.
  intros (w0 & content0 & [-> Hread]%wrap_Ret%lift_eq & Hrun)%bind_Ret_inv.
  destruct (os_ReadFile env (MissedScriptsFile cfg)) as [content|e]; [|done].
  injection Hread as ->.
  destruct (Bufio.ScanLines content) as [lines|]; [|done].
  destruct (decide (len (Migrator.missed_lines lines) = 0)) as [Hnone|Hsome].
  { injection Hrun as <-. left. split; [|done]. by apply len_nil_iff. }
  rewrite bind_say in Hrun.
  apply bind_Ret_inv in Hrun as (w1 & gitID0 & [-> Hgit]%wrap_Ret%lift_eq & Hrun).
  destruct (Git.GetCurrentCommit env) as [gitID|e]; [|done]. injection Hgit as ->.
  apply bind_Ret_inv in Hrun as (w2 & executed & Hex & Hrun).
  pose proof (keeps_at _ _ _ _ _ (keeps_wrap quiet _ _ quiet_GetExecutedScriptNames) Hex)
    as [Hdb2 _].
  apply wrap_Ret, GetExecutedScriptNames_value in Hex. simpl in Hex, Hdb2. subst executed.
  apply bind_Ret_inv in Hrun as (w3 & [] & Hloop & Hrun).
  injection Hrun as <-. right. exists gitID. split; [done|].
  apply missed_loop_Ret in Hloop. simpl. by rewrite Hloop, Hdb2.
Qed.

(** X20. When [executeMissedScripts] returns nil it has appended one completed
    row, under the current revision, for each line of the file whose name
    the table did not hold as completed on entry, in file order (a name
    listed twice is executed twice); and only the row of the last line can
    be a batch terminator: when that line names a script that is skipped,
    the rows of the missed scripts get no terminator. *)
Theorem executeMissedScripts_rows (env : Env) (cfg : Config) (w w' : World) :
  MissedScriptsFile cfg ≠ "" →
  Migrator.executeMissedScripts env cfg w = (w', Ret tt) →
  let executed := Tracker.executed_names (rows (db w)) in
  ∃ new,
    rows (db w') = rows (db w) ++ new
    ∧ scriptName <$> new
      = List.filter (λ name, negb (index_bool executed name)) (missed_names env cfg)
    ∧ Forall (λ r, completed r = Some true
                   ∧ ∃ gitID, lastgitid r = Some gitID
                              ∧ Git.GetCurrentCommit env = Ok gitID) new
    ∧ match last (missed_names env cfg) with
      | None => new = []
      | Some name =>
          if index_bool executed name then
            Forall (λ r, endofbatch r = Some false) new
          else
            ∃ others t,
              new = others ++ [t] ∧ scriptName t = name ∧ endofbatch t = Some true ∧
              Forall (λ r, endofbatch r = Some false) others
      end.
Proof.
  intros Hfile Hrun executed.
  destruct (executeMissedScripts_Ret env cfg w w' Hfile Hrun)
    as [[Hnone Hrows]|(gitID & Hgit & Hrows)].
  - exists []. rewrite Hnone, Hrows, app_nil_r. by split_and!.
  - eexists. split; [exact Hrows|]. split_and!.
    + apply missed_rows_names.
    + eapply Forall_impl; [apply missed_rows_completed|].
      intros r [Hc Hid]. split; [done|]. by exists gitID.
    + apply missed_rows_terminator. lia.
Qed.

(** ** The directory check, in full *)

Lemma outside_scripts_dir_cases file scriptsDir :
  if slices_past_end scriptsDir file then
    Git.outside_scripts_dir file scriptsDir
    = Panic ("runtime error: slice bounds out of range [:"
             +:+ pretty (String.length (Filepath.Base scriptsDir))
             +:+ "] with length " +:+ pretty (String.length file))
  else ∃ outside, Git.outside_scripts_dir file scriptsDir = Ret outside.
Proof.
  unfold slices_past_end, Git.outside_scripts_dir, slice_prefix.
  destruct (negb (Strings.Contains _ _)); simpl; [|by eexists].
  destruct (bool_decide (Filepath.Dir file ≠ Filepath.Base scriptsDir)); simpl; [|by eexists].
  case_bool_decide as Hlen.
  - apply slice_to_None in Hlen. by rewrite Hlen.
  - destruct (Strings.slice_to file _) eqn:Hs; [by eexists|].
    by apply slice_to_None in Hs.
Qed.

Lemma collect_cases env scriptsDir files acc :
  Git.collect env scriptsDir files acc
  = match List.find (slices_past_end scriptsDir) (sql_files files) with
    | Some file =>
        Panic ("runtime error: slice bounds out of range [:"
               +:+ pretty (String.length (Filepath.Base scriptsDir))
               +:+ "] with length " +:+ pretty (String.length file))
    | None => Ret (acc ++ (script_of env <$> sql_files files))
    end.
Proof.
  revert acc. induction files as [|file files IH]; intros acc; simpl.
  - by rewrite app_nil_r.
  - unfold sql_files in *. simpl.
    destruct (Strings.HasSuffix file ".sql") eqn:Hsql; simpl; [|apply IH].
    pose proof (outside_scripts_dir_cases file scriptsDir) as H.
    destruct (slices_past_end scriptsDir file).
    + by rewrite H.
    + destruct H as [outside ->]. rewrite andb_false_r, IH.
      destruct (List.find _ _); [done|]. by rewrite <- app_assoc.
Qed.

(** X21. [GetChangedScripts] in full: it fails exactly when the diff fails,
    with that error; it panics exactly when a listed [.sql] path outside the
    scripts directory is shorter than the directory's base name, on the
    first such path; otherwise it returns the sorted entries of all listed
    [.sql] paths, whatever their directory. *)
Theorem GetChangedScripts_outcome (env : Env) (fromCommit toCommit scriptsDir : string) :
  Git.GetChangedScripts env fromCommit toCommit scriptsDir
  = match Git.DiffFileNames env fromCommit toCommit with
    | Err e => Fail e
    | Ok files =>
        match List.find (slices_past_end scriptsDir) (sql_files files) with
        | Some file =>
            Panic ("runtime error: slice bounds out of range [:"
                   +:+ pretty (String.length (Filepath.Base scriptsDir))
                   +:+ "] with length " +:+ pretty (String.length file))
        | None => Ret (sort_Slice env Git.less (script_of env <$> sql_files files))
        end
    end.
Proof.
  unfold Git.GetChangedScripts.
  destruct (Git.DiffFileNames env fromCommit toCommit) as [files|e]; [|done].
  rewrite collect_cases. by destruct (List.find _ _).
Qed.

(** ** The status map *)

Lemma spaceless_rev_app s1 s2 :
  spaceless (String.rev_app s1 s2) = spaceless s1 && spaceless s2.
Proof.
  revert s2. induction s1 as [|c s1 IH]; intros s2; simpl; [done|].
  rewrite IH. simpl. by destruct (Strings.isSpace c), (spaceless s1), (spaceless s2).
Qed.

Lemma rev_app_nonempty s1 s2 : s2 ≠ "" → String.rev_app s1 s2 ≠ "".
Proof. revert s2. induction s1 as [|c s1 IH]; intros s2 Hs2; simpl; [done|]. by apply IH. Qed.

Lemma words_go_words cur s :
  (∀ c, cur = Some c → c ≠ "" ∧ spaceless c = true) →
  Forall (λ word, word ≠ "" ∧ spaceless word = true) (String.words_go cur s).
Proof.
  revert cur. induction s as [|a s IH]; intros cur Hcur; simpl.
  - destruct cur as [c|]; simpl; [|constructor].
    destruct (Hcur c eq_refl) as [Hne Hsp]. constructor; [|constructor].
    unfold String.rev. split.
    + destruct c; [done|]. simpl. by apply rev_app_nonempty.
    + by rewrite spaceless_rev_app, Hsp.
  - destruct (Ascii.is_space a) eqn:Ha.
    + apply Forall_app. split; [|by apply IH].
      destruct cur as [c|]; simpl; [|constructor].
      destruct (Hcur c eq_refl) as [Hne Hsp]. constructor; [|constructor].
      unfold String.rev. split.
      * destruct c; [done|]. simpl. by apply rev_app_nonempty.
      * by rewrite spaceless_rev_app, Hsp.
    + apply IH. intros c [= <-]. destruct cur as [c|]; simpl.
      * destruct (Hcur c eq_refl) as [Hne Hsp]. split; [done|].
        simpl. unfold Strings.isSpace. by rewrite Ha, Hsp.
      * split; [done|]. simpl. unfold Strings.isSpace. by rewrite Ha.
Qed.

Lemma Fields_words line : Forall (λ word, word ≠ "" ∧ spaceless word = true) (Strings.Fields line).
Proof. apply words_go_words. by intros c. Qed.

Lemma status_of_lines_app lines line :
  Git.status_of_lines (lines ++ [line])
  = match Strings.Fields line with
    | status :: filename :: _ => <[filename := status]> (Git.status_of_lines lines)
    | _ => Git.status_of_lines lines
    end.
Proof. unfold Git.status_of_lines. by rewrite foldl_app. Qed.

Lemma status_of_lines_entries lines file status :
  Git.status_of_lines lines !! file = Some status →
  ∃ line rest, line ∈ lines ∧ Strings.Fields line = status :: file :: rest.
Proof.
  induction lines as [|line lines IH] using rev_ind.
  - unfold Git.status_of_lines. simpl. by rewrite lookup_empty.
  - rewrite status_of_lines_app.
    assert (Hold : Git.status_of_lines lines !! file = Some status →
            ∃ line0 rest, line0 ∈ lines ++ [line]
                          ∧ Strings.Fields line0 = status :: file :: rest).
    { intros (l & rest & Hl & Hf)%IH. exists l, rest. split; [|done].
      apply elem_of_app. by left. }
    destruct (Strings.Fields line) as [|st [|fn rest]] eqn:Hfields; [done..|].
    destruct (decide (fn = file)) as [->|Hne].
    + rewrite lookup_insert_eq. intros [= ->]. exists line, rest.
      split; [|done]. apply elem_of_app. right. by left.
    + by rewrite lookup_insert_ne.
Qed.

(** X22. Every entry of the map of [DiffFileStatus] comes from a line of the
    diff whose first two white-space separated fields are the status and
    the file name: both are non-empty and hold no white space, so a path
    that contains a space is entered cut at it. *)
Theorem DiffFileStatus_entries (env : Env) (fromCommit toCommit : string)
    (statusMap : gmap string string) (file status : string) :
  Git.DiffFileStatus env fromCommit toCommit = Ok statusMap →
  statusMap !! file = Some status →
  (file ≠ "" ∧ spaceless file = true)
  ∧ (status ≠ "" ∧ spaceless status = true)
  ∧ ∃ from output line rest,
      git_run env ["diff"; "--name-status"; from; toCommit] = Ok output ∧
      line ∈ Strings.Split output "010"%char ∧
      Strings.Fields line = status :: file :: rest.
Proof.
  unfold Git.DiffFileStatus.
  destruct (if decide (fromCommit = "") then Git.GetEmptyTreeHash env else Ok fromCommit)
    as [from|e]; [|done].
  destruct (git_run env ["diff"; "--name-status"; from; toCommit]) as [output|e] eqn:Hgit;
    [|done].
  destruct (decide (output = "")) as [|_].
  { intros [= <-]. by rewrite lookup_empty. }
  intros [= <-] (line & rest & Hline & Hfields)%status_of_lines_entries.
  pose proof (Fields_words line) as Hwords. rewrite Hfields in Hwords.
  apply Forall_cons in Hwords as [Hst [Hfile _]%Forall_cons].
  split; [exact Hfile|]. split; [exact Hst|].
  by exists from, output, line, rest.
Qed.

(** ** [CheckModifications] *)

Lemma fileSet_spec (files : list string) f :
  index_bool (foldl (λ set f, <[f := true]> set) ∅ files) f = true ↔ f ∈ files.
Proof.
  unfold index_bool. induction files as [|x files IH] using rev_ind; simpl.
  - rewrite lookup_empty. simpl. split; [done|]. by intros ?%elem_of_nil.
  - rewrite foldl_app. simpl. destruct (decide (x = f)) as [->|Hne].
    + rewrite lookup_insert_eq. simpl. split; [|done]. intros _.
      apply elem_of_app. right. by left.
    + rewrite lookup_insert_ne by done. rewrite IH, elem_of_app, list_elem_of_singleton.
      split; [by left|]. by intros [?|?].
Qed.

Lemma check_one_elem fileSet acc entry f :
  let r := Git.check_one fileSet acc entry in
  (f ∈ r.1 ↔ f ∈ acc.1 ∨ (entry = (f, "M") ∧ index_bool fileSet f = true))
  ∧ (f ∈ r.2 ↔ f ∈ acc.2 ∨ (entry = (f, "D") ∧ index_bool fileSet f = true)).
Proof.
  destruct acc as [modified deleted], entry as [file status]. simpl.
  destruct (index_bool fileSet file) eqn:Hset; simpl.
  - destruct (decide (status = "M")) as [->|HM]; simpl;
      [|destruct (decide (status = "D")) as [->|HD]; simpl].
    + rewrite elem_of_app, list_elem_of_singleton. split; split.
      * intros [? | ->]; [by left|by right].
      * intros [?|[[= ->] _]]; [by left|by right].
      * by left.
      * by intros [?|[[=] _]].
    + rewrite elem_of_app, list_elem_of_singleton. split; split.
      * by left.
      * by intros [?|[[=] _]].
      * intros [? | ->]; [by left|by right].
      * intros [?|[[= ->] _]]; [by left|by right].
    + split; split.
      * by left.
      * intros [?|[[= _ ?] _]]; [done|]. by subst.
      * by left.
      * intros [?|[[= _ ?] _]]; [done|]. by subst.
  - split; split.
    + by left.
    + intros [?|[[= -> _] H]]; [done|]. by rewrite Hset in H.
    + by left.
    + intros [?|[[= -> _] H]]; [done|]. by rewrite Hset in H.
Qed.

Lemma check_foldl_elem fileSet l acc f :
  let r := foldl (Git.check_one fileSet) acc l in
  (f ∈ r.1 ↔ f ∈ acc.1 ∨ ((f, "M") ∈ l ∧ index_bool fileSet f = true))
  ∧ (f ∈ r.2 ↔ f ∈ acc.2 ∨ ((f, "D") ∈ l ∧ index_bool fileSet f = true)).
Proof.
  revert acc. induction l as [|entry l IH]; intros acc; simpl.
  - split; (split; [by left|]); by intros [?|[?%elem_of_nil _]].
  - destruct (IH (Git.check_one fileSet acc entry)) as [IH1 IH2].
    destruct (check_one_elem fileSet acc entry f) as [H1 H2]. simpl in *.
    rewrite IH1, IH2, H1, H2, !elem_of_cons. split; split.
    + intros [[?|[-> ?]]|[? ?]]; [by left|right; split; [by left|done]|right; split; [by right|done]].
    + intros [?|[[<-|?] ?]]; [by left; left|by left; right|by right].
    + intros [[?|[-> ?]]|[? ?]]; [by left|right; split; [by left|done]|right; split; [by right|done]].
    + intros [?|[[<-|?] ?]]; [by left; left|by left; right|by right].
Qed.

Lemma check_one_NoDup fileSet acc entry :
  NoDup acc.1 → NoDup acc.2 → (entry.1) ∉ acc.1 → (entry.1) ∉ acc.2 →
  NoDup (Git.check_one fileSet acc entry).1 ∧ NoDup (Git.check_one fileSet acc entry).2.
Proof.
  destruct acc as [modified deleted], entry as [file status]. simpl.
  intros Hm Hd Hfm Hfd.
  assert (Hsnoc : ∀ l : list string, NoDup l → file ∉ l → NoDup (l ++ [file])).
  { intros l Hl Hf. apply NoDup_app. split_and!; [done| |by apply NoDup_singleton].
    by intros x Hx ->%list_elem_of_singleton. }
  destruct (negb _); simpl; [done|]. repeat case_decide; simpl; auto.
Qed.

Lemma check_foldl_NoDup fileSet l acc :
  NoDup (l.*1) →
  NoDup acc.1 → NoDup acc.2 →
  (∀ f, f ∈ l.*1 → (f ∉ acc.1) ∧ (f ∉ acc.2)) →
  NoDup (foldl (Git.check_one fileSet) acc l).1
  ∧ NoDup (foldl (Git.check_one fileSet) acc l).2.
Proof.
  revert acc. induction l as [|entry l IH]; intros acc Hl Hm Hd Hfresh; simpl; [done|].
  simpl in Hl. apply NoDup_cons in Hl as [Hentry Hl].
  destruct (Hfresh entry.1) as [Hfm Hfd]; [by left|].
  destruct (check_one_NoDup fileSet acc entry Hm Hd Hfm Hfd) as [Hm' Hd'].
  apply IH; [done..|].
  intros f Hf. destruct (Hfresh f) as [H1 H2]; [by right|].
  destruct (check_one_elem fileSet acc entry f) as [E1 E2]. simpl in *.
  rewrite E1, E2. split; intros [?|[-> _]]; try done; by apply Hentry.
Qed.

(** X23. [CheckModifications] without a [fromCommit] reports nothing and does
    not ask git; with one, it reports as modified exactly the given files
    whose status is [M] and as deleted exactly those whose status is [D],
    each once; and whatever it reports for files that the table holds as
    executed, the validator's check rejects too. *)
Theorem CheckModifications_spec (env : Env) (toCommit : string) (files : list string) :
  Git.CheckModifications env "" toCommit files = Ok ([], [])
  ∧ ∀ fromCommit statusMap,
      fromCommit ≠ "" →
      Git.DiffFileStatus env fromCommit toCommit = Ok statusMap →
      ∃ modified deleted,
        Git.CheckModifications env fromCommit toCommit files = Ok (modified, deleted)
        ∧ (∀ f, f ∈ modified ↔ f ∈ files ∧ statusMap !! f = Some "M")
        ∧ (∀ f, f ∈ deleted ↔ f ∈ files ∧ statusMap !! f = Some "D")
        ∧ NoDup modified ∧ NoDup deleted
        ∧ ∀ executedScripts,
            (modified ≠ [] ∨ deleted ≠ []) →
            (∀ f, f ∈ files → index_bool executedScripts f = true) →
            tampered executedScripts statusMap.
Proof.
  split; [reflexivity|].
  intros fromCommit statusMap Hfrom Hdiff. unfold Git.CheckModifications.
  destruct (decide (fromCommit = "")) as [|_]; [done|]. rewrite Hdiff.
  set (fileSet := foldl (λ set f, <[f := true]> set) ∅ files).
  set (r := foldl (Git.check_one fileSet) ([], []) (map_to_list statusMap)).
  exists r.1, r.2.
  assert (Hm : ∀ f, f ∈ r.1 ↔ f ∈ files ∧ statusMap !! f = Some "M").
  { intros f. destruct (check_foldl_elem fileSet (map_to_list statusMap) ([], []) f) as [E _].
    fold r in E. rewrite E, elem_of_map_to_list. unfold fileSet. rewrite fileSet_spec. simpl.
    split; [intros [?%elem_of_nil|[? ?]]; done|intros [? ?]; by right]. }
  assert (Hd : ∀ f, f ∈ r.2 ↔ f ∈ files ∧ statusMap !! f = Some "D").
  { intros f. destruct (check_foldl_elem fileSet (map_to_list statusMap) ([], []) f) as [_ E].
    fold r in E. rewrite E, elem_of_map_to_list. unfold fileSet. rewrite fileSet_spec. simpl.
    split; [intros [?%elem_of_nil|[? ?]]; done|intros [? ?]; by right]. }
  destruct (check_foldl_NoDup fileSet (map_to_list statusMap) ([], [])) as [Hn1 Hn2];
    [apply NoDup_fst_map_to_list|constructor|constructor| |].
  { intros f _. split; by intros ?%elem_of_nil. }
  split_and!; [by destruct r|done..|].
  intros executedScripts Hsome Hall.
  assert (∃ f status, (status = "M" ∨ status = "D") ∧ f ∈ files ∧ statusMap !! f = Some status)
    as (f & status & Hst & Hin & Hlook).
  { assert (Hex : ∀ l : list string, l ≠ [] → ∃ x, x ∈ l).
    { intros [|x l] ?; [done|]. exists x. by left. }
    destruct Hsome as [[f Hf]%Hex|[f Hf]%Hex].
    - exists f, "M". apply Hm in Hf as [? ?]. split; [by left|done].
    - exists f, "D". apply Hd in Hf as [? ?]. split; [by right|done]. }
  exists f, status. split_and!; [done..|]. left. by apply Hall.
Qed.

(** ** The command line *)

Lemma is_nat_pretty_N_char d :
  (d < 10)%N → Ascii.is_nat (pretty_N_char d) = Some (N.to_nat d).
Proof.
  intros Hd.
  assert (d = 0 ∨ d = 1 ∨ d = 2 ∨ d = 3 ∨ d = 4 ∨ d = 5 ∨ d = 6 ∨ d = 7 ∨ d = 8 ∨ d = 9)%N
    as Hcases by lia.
  repeat (destruct Hcases as [->|Hcases]; [reflexivity|]). by subst.
Qed.

Lemma digits_pretty_N_go x s :
  Strconv.digits (pretty_N_go x s) 0 = Strconv.digits s (Z.of_N x).
Proof.
  revert s. induction (N.lt_wf_0 x) as [x _ IH]; intros s.
  destruct (decide (x = 0)%N) as [->|Hx]; [done|].
  rewrite pretty_N_go_step by lia.
  rewrite IH by (apply N.div_lt; lia). simpl.
  rewrite is_nat_pretty_N_char by (apply N.mod_lt; lia).
  f_equal. rewrite N2Z.inj_div, N_nat_Z, N2Z.inj_mod. simpl.
  pose proof (Z.div_mod (Z.of_N x) 10). lia.
Qed.

Lemma pretty_N_go_head x s :
  (0 < x)%N → ∃ c t, pretty_N_go x s = String c t ∧ Ascii.is_nat c ≠ None.
Proof.
  revert s. induction (N.lt_wf_0 x) as [x _ IH]; intros s Hx.
  rewrite pretty_N_go_step by done.
  destruct (decide (x `div` 10 = 0)%N) as [->|Hd].
  - rewrite pretty_N_go_0. eexists _, _. split; [done|].
    by rewrite is_nat_pretty_N_char by (apply N.mod_lt; lia).
  - apply IH; [apply N.div_lt; lia|by apply N.neq_0_lt_0].
Qed.

Lemma ParseInt_unsigned c t n :
  Ascii.is_nat c ≠ None →
  Strconv.digits (String c t) 0 = Some n →
  Strconv.ParseInt (String c t) = if decide (- 2 ^ 63 <= n < 2 ^ 63) then Some n else None.
Proof.
  intros Hc Hd. unfold Strconv.ParseInt.
  assert (Hsign : match String c t with
                  | String "+" t' => (false, t')
                  | String "-" t' => (true, t')
                  | _ => (false, String c t)
                  end = (false, String c t)).
  { destruct c as [[] [] [] [] [] [] [] []]; try reflexivity; by destruct Hc. }
  rewrite Hsign. destruct (decide (String c t = "")) as [|_]; [done|].
  by rewrite Hd.
Qed.

Lemma ParseInt_negative body :
  Strconv.ParseInt (String "-" body)
  = if decide (body = "") then None
    else match Strconv.digits body 0 with
         | None => None
         | Some n => if decide (- 2 ^ 63 <= - n < 2 ^ 63) then Some (- n) else None
         end.
Proof. reflexivity. Qed.

Lemma Atoi_Itoa n :
  - 2 ^ 63 ≤ n < 2 ^ 63 → Strconv.Atoi (Strconv.Itoa n) = Some n.
Proof.
  intros Hn. unfold Strconv.Atoi, Strconv.Itoa, pretty, pretty_Z.
  destruct n as [|p|p].
  - reflexivity.
  - unfold pretty, pretty_positive, pretty, pretty_N.
    destruct (decide (N.pos p = 0)%N) as [|_]; [done|].
    destruct (pretty_N_go_head (N.pos p) "") as (c & t & Heq & Hc); [lia|].
    pose proof (digits_pretty_N_go (N.pos p) "") as Hd. rewrite Heq in *.
    rewrite (ParseInt_unsigned c t (Z.pos p) Hc Hd).
    by destruct (decide _).
  - unfold pretty, pretty_positive, pretty, pretty_N.
    destruct (decide (N.pos p = 0)%N) as [|_]; [done|].
    destruct (pretty_N_go_head (N.pos p) "") as (c & t & Heq & Hc); [lia|].
    pose proof (digits_pretty_N_go (N.pos p) "") as Hd. rewrite Heq in *.
    change (Strconv.digits "" (Z.of_N (N.pos p))) with (Some (Z.pos p)) in Hd.
    change ("-" +:+ String c t) with (String "-" (String c t)).
    rewrite ParseInt_negative.
    destruct (decide (String c t = "")) as [|_]; [done|].
    rewrite Hd. change (- Z.pos p) with (Z.neg p). by destruct (decide _).
Qed.

Lemma arg_lookups (a0 a1 a2 a3 a4 a5 : string) rest :
  let args := a0 :: a1 :: a2 :: a3 :: a4 :: a5 :: rest in
  ConfigArgs.arg args 0 = a0 ∧ ConfigArgs.arg args 1 = a1 ∧ ConfigArgs.arg args 2 = a2
  ∧ ConfigArgs.arg args 3 = a3 ∧ ConfigArgs.arg args 4 = a4 ∧ ConfigArgs.arg args 5 = a5
  ∧ (if decide (len args >= 7) then ConfigArgs.arg args 6 else "") = hd "" rest
  ∧ ¬ len args < 6.
Proof.
  cbv zeta. split_and!; try reflexivity.
  - destruct rest as [|a6 rest].
    + by destruct (decide _).
    + destruct (decide _) as [|Hno]; [done|]. unfold len in Hno. cbn [length] in Hno. lia.
  - unfold len. cbn [length]. lia.
Qed.

Lemma ParseArgs_six not_exist (host user password dbname port scriptsDir : string) rest :
  ConfigArgs.ParseArgs not_exist
    (host :: user :: password :: dbname :: port :: scriptsDir :: rest)
  = match Strconv.Atoi port with
    | None => Err ("invalid port number: " +:+ port)
    | Some p =>
        if not_exist scriptsDir then
          Err ("scripts directory does not exist: " +:+ scriptsDir)
        else if bool_decide (hd "" rest ≠ "") && not_exist (hd "" rest) then
          Err ("missed scripts file does not exist: " +:+ hd "" rest)
        else Ok {| Host := host; User := user; Password := password; DBName := dbname;
                   Port := p; ScriptsDir := scriptsDir; MissedScriptsFile := hd "" rest |}
    end.
Proof.
  unfold ConfigArgs.ParseArgs.
  destruct (arg_lookups host user password dbname port scriptsDir rest)
    as (-> & -> & -> & -> & -> & -> & -> & Hlen).
  destruct (decide _) as [|_]; [done|]. cbn [ScriptsDir MissedScriptsFile]. done.
Qed.

(** X24. [ParseArgs] accepts a command line exactly when it has at least six
    arguments, the fifth reads as a decimal [int], the scripts directory is
    not reported absent and neither is the seventh argument when it is there
    and not empty; the configuration is then made of the arguments in order,
    and arguments after the seventh are ignored. *)
Theorem ParseArgs_accepts (not_exist : string → bool) (args : list string) (cfg : Config) :
  ConfigArgs.ParseArgs not_exist args = Ok cfg ↔
  ∃ host user password dbname port scriptsDir rest,
    args = host :: user :: password :: dbname :: port :: scriptsDir :: rest
    ∧ Strconv.Atoi port = Some (Port cfg)
    ∧ not_exist scriptsDir = false
    ∧ (hd "" rest ≠ "" → not_exist (hd "" rest) = false)
    ∧ cfg = {| Host := host; User := user; Password := password; DBName := dbname;
               Port := Port cfg; ScriptsDir := scriptsDir;
               MissedScriptsFile := hd "" rest |}.
Proof.
  split.
  - destruct args as [|host [|user [|password [|dbname [|port [|scriptsDir rest]]]]]];
      try (unfold ConfigArgs.ParseArgs; by destruct (decide _) as [|Hlen];
           [|unfold len in Hlen; cbn [length] in Hlen; lia]).
    rewrite ParseArgs_six.
    destruct (Strconv.Atoi port) as [p|] eqn:Hport; [|done].
    destruct (not_exist scriptsDir) eqn:Hdir; [done|].
    destruct (bool_decide (hd "" rest ≠ "") && not_exist (hd "" rest)) eqn:Hfile; [done|].
    intros [= <-]. exists host, user, password, dbname, port, scriptsDir, rest.
    split_and!; [done..| |done].
    intros Hne. apply andb_false_iff in Hfile as [Hf|Hf]; [|done].
    by apply bool_decide_eq_false in Hf.
  - intros (host & user & password & dbname & port & scriptsDir & rest
            & -> & Hport & Hdir & Hfile & ->).
    rewrite ParseArgs_six, Hport, Hdir. simpl.
    destruct (bool_decide (hd "" rest ≠ "")) eqn:Hne; simpl; [|done].
    apply bool_decide_eq_true in Hne. by rewrite (Hfile Hne).
Qed.

(** X25. The port is not checked against the range of ports: every 64-bit
    integer written in decimal is accepted, read back as itself, and printed
    the same way in the DSN. *)
Theorem ParseArgs_port_round_trip (not_exist : string → bool)
    (host user password dbname scriptsDir : string) (port : Z) :
  - 2 ^ 63 ≤ port < 2 ^ 63 →
  not_exist scriptsDir = false →
  ∃ cfg,
    ConfigArgs.ParseArgs not_exist
      [host; user; password; dbname; Strconv.Itoa port; scriptsDir] = Ok cfg
    ∧ Port cfg = port
    ∧ ConfigArgs.DSN cfg
      = user +:+ ":" +:+ password +:+ "@tcp(" +:+ host +:+ ":" +:+ Strconv.Itoa port
        +:+ ")/" +:+ dbname +:+ "?parseTime=true&multiStatements=true".
Proof.
  intros Hport Hdir. eexists. rewrite ParseArgs_six, (Atoi_Itoa port Hport), Hdir.
  simpl. done.
Qed.

(** The errors of [ParseArgs], in the order they are looked for: the
    usage line with fewer than six arguments, then the port that is no
    number, then the scripts directory that does not exist, then the missed
    scripts file that does not exist. *)
Lemma ParseArgs_errors (not_exist : string → bool) (args : list string) :
  ((length args < 6)%nat → ConfigArgs.ParseArgs not_exist args = Err ConfigArgs.usage)
  ∧ ∀ host user password dbname port scriptsDir rest,
      args = host :: user :: password :: dbname :: port :: scriptsDir :: rest →
      (Strconv.Atoi port = None →
       ConfigArgs.ParseArgs not_exist args = Err ("invalid port number: " +:+ port))
      ∧ (Strconv.Atoi port ≠ None → not_exist scriptsDir = true →
         ConfigArgs.ParseArgs not_exist args
         = Err ("scripts directory does not exist: " +:+ scriptsDir))
      ∧ (Strconv.Atoi port ≠ None → not_exist scriptsDir = false →
         hd "" rest ≠ "" → not_exist (hd "" rest) = true →
         ConfigArgs.ParseArgs not_exist args
         = Err ("missed scripts file does not exist: " +:+ hd "" rest)).
Proof.
  split.
  - intros Hlen. unfold ConfigArgs.ParseArgs.
    destruct (decide _) as [|Hno]; [done|]. unfold len in Hno. lia.
  - intros host user password dbname port scriptsDir rest ->.
    rewrite ParseArgs_six. split_and!.
    + by intros ->.
    + intros Hport ->. by destruct (Strconv.Atoi port).
    + intros Hport -> Hne ->. destruct (Strconv.Atoi port); [|done].
      by rewrite bool_decide_eq_true_2.
Qed.

(** ** What the order of execution depends on *)




(** X27. [executeScript] looks for the script in the scripts directory under
    its base name first: when that file can be read, it is what is
    executed, and the path that git reported is not looked at, so two
    changed paths with the same base name execute the same file. *)
Theorem executeScript_reads_by_name (env : Env) (cfg : Config) (script1 script2 : ScriptInfo)
    (gitID : string) (isLast : bool) (content : string) (w : World) :
  Name script1 = Name script2 →
  os_ReadFile env (Filepath.Join (ScriptsDir cfg) (Name script1)) = Ok content →
  Migrator.executeScript env cfg script1 gitID isLast w
  = Migrator.executeScript env cfg script2 gitID isLast w
  ∧ script_content env cfg script1 = Some content
  ∧ script_content env cfg script2 = Some content.
Proof.
  intros Hname Hread. unfold Migrator.executeScript, script_content.
  rewrite <- Hname, Hread. done.
Qed.

(** ** The further properties at work *)

Lemma GetAllScripts_in_order_witness :
  ∃ all,
    Tracker.GetAllScripts (Scenario.start Scenario.interrupted_db [])
    = (after_round_trip (Scenario.start Scenario.interrupted_db []), Ret all)
    ∧ StronglySorted Z.le (SNO <$> all).
Proof.
  destruct (GetAllScripts_in_order (Scenario.start Scenario.interrupted_db []))
    as (all & Hget & Hsorted & _).
  - intros e rest. simpl. discriminate.
  - repeat constructor; discriminate.
  - exists all. split; [exact Hget|exact Hsorted].
Defined.

Lemma GetAllScripts_null_flag_witness :
  ∃ e, (Tracker.GetAllScripts (Scenario.start Scenario.null_flag_db [])).2
       = Fail ("failed to scan script record: " +:+ e).
Proof.
  refine (GetAllScripts_null_flag (Scenario.start Scenario.null_flag_db [])
            {| sno := 4; scriptName := "004_by_hand.sql"; completed := None;
               endofbatch := None; lastgitid := None |} _ _ _).
  - intros e rest. simpl. discriminate.
  - apply elem_of_app. right. apply list_elem_of_here.
  - left. reflexivity.
Defined.

Lemma GetHalfCommittedScripts_of_GetAllScripts_witness :
  (Tracker.GetHalfCommittedScripts (Scenario.start Scenario.interrupted_db [])).2
  = Ret [ {| SNO := 4; ScriptName := "004_add_tags.sql"; Completed := true;
             EndOfBatch := false; LastGitID := Scenario.later_commit |};
          {| SNO := 5; ScriptName := "005_add_votes.sql"; Completed := false;
             EndOfBatch := false; LastGitID := Scenario.later_commit |} ].
Proof.
  refine (GetHalfCommittedScripts_of_GetAllScripts
            (Scenario.start Scenario.interrupted_db [])
            (record_of <$> rows Scenario.interrupted_db) _ _ _ _).
  - simpl. repeat (apply NoDup_cons; split; [compute_done|]). apply NoDup_nil. done.
  - reflexivity.
  - reflexivity.
  - vm_compute. reflexivity.
Defined.

Lemma GetHalfCommittedScripts_no_terminator_witness :
  Forall (λ rec, EndOfBatch rec = false ∧ 3 < SNO rec)
    [ {| SNO := 4; ScriptName := "004_add_tags.sql"; Completed := true;
         EndOfBatch := false; LastGitID := Scenario.later_commit |};
      {| SNO := 5; ScriptName := "005_add_votes.sql"; Completed := false;
         EndOfBatch := false; LastGitID := Scenario.later_commit |} ].
Proof.
  refine (proj1 (GetHalfCommittedScripts_no_terminator
                   (Scenario.start Scenario.interrupted_db [])
                   (Tracker.GetHalfCommittedScripts
                      (Scenario.start Scenario.interrupted_db [])).1
                   _ _)).
  vm_compute. reflexivity.
Defined.

Lemma HasRecords_agrees_with_GetAllScripts_witness :
  (Tracker.HasRecords (Scenario.start Scenario.empty_db [])).2 = Ret false.
Proof.
  refine (HasRecords_agrees_with_GetAllScripts (Scenario.start Scenario.empty_db []) [] _ _).
  - intros e rest. simpl. discriminate.
  - vm_compute. reflexivity.
Defined.

Lemma RecordExecutionDirect_read_back_witness :
  index_bool
    (Tracker.executed_names
       (rows (db (Tracker.RecordExecutionDirect "004_add_tags.sql" true false
                    Scenario.later_commit (Scenario.start Scenario.migrated_db [])).1)))
    "004_add_tags.sql"
  = index_bool (Tracker.executed_names (rows Scenario.migrated_db)) "004_add_tags.sql"
    || (true && bool_decide ("004_add_tags.sql" = "004_add_tags.sql")).
Proof.
  refine (RecordExecutionDirect_read_back "004_add_tags.sql" true false
            Scenario.later_commit (Scenario.start Scenario.migrated_db [])
            (Tracker.RecordExecutionDirect "004_add_tags.sql" true false
               Scenario.later_commit (Scenario.start Scenario.migrated_db [])).1
            (Tracker.GetExecutedScriptNames
               (Tracker.RecordExecutionDirect "004_add_tags.sql" true false
                  Scenario.later_commit (Scenario.start Scenario.migrated_db [])).1).1
            _ _ _ "004_add_tags.sql").
  - reflexivity.
  - reflexivity.
Defined.

Lemma well_formed_migrated_db : well_formed Scenario.migrated_db.
Proof.
  split; [reflexivity|]. split.
  - simpl. repeat (apply NoDup_cons; split; [compute_done|]). apply NoDup_nil. done.
  - repeat constructor.
Qed.

Lemma well_formed_empty_db : well_formed Scenario.empty_db.
Proof. split; [reflexivity|]. split; [apply NoDup_nil; done|constructor]. Qed.

Lemma RecordExecutionDirect_terminator_is_checkpoint_witness :
  (Tracker.GetLastSuccessfulCommit
     (Tracker.RecordExecutionDirect "004_add_tags.sql" true true Scenario.later_commit
        (Scenario.start Scenario.migrated_db [])).1).2
  = Ret Scenario.later_commit.
Proof.
  refine (proj1 (RecordExecutionDirect_terminator_is_checkpoint "004_add_tags.sql" true
                   Scenario.later_commit (Scenario.start Scenario.migrated_db [])
                   (Tracker.RecordExecutionDirect "004_add_tags.sql" true true
                      Scenario.later_commit (Scenario.start Scenario.migrated_db [])).1
                   _ _ _ _)).
  - exact well_formed_migrated_db.
  - reflexivity.
  - reflexivity.
  - reflexivity.
Defined.

Lemma Run_leaves_no_transaction_witness :
  tx (Migrator.Run Scenario.failing_env Scenario.cfg (Scenario.start Scenario.empty_db [])).1
  = None.
Proof.
  refine (Run_leaves_no_transaction Scenario.failing_env Scenario.cfg
            (Scenario.start Scenario.empty_db []) _).
  reflexivity.
Defined.


Lemma Run_blocked_by_failed_script_witness :
  (Migrator.Run Scenario.settled_env Scenario.cfg
     (Scenario.start Scenario.interrupted_db [])).2 ≠ Ret tt.
Proof.
  refine (proj1 (Run_blocked_by_failed_script Scenario.settled_env Scenario.cfg
                   (Scenario.start Scenario.interrupted_db [])
                   (DB.new_row 5 "005_add_votes.sql" false false Scenario.later_commit)
                   _ _ _ _ _)).
  - reflexivity.
  - apply elem_of_app. right. apply list_elem_of_further, list_elem_of_here.
  - discriminate.
  - reflexivity.
  - intros t Ht Hend. simpl in Ht.
    repeat (apply elem_of_cons in Ht as [->|Ht]); try discriminate; try reflexivity.
    by apply elem_of_nil in Ht.
Defined.

Lemma Run_short_checkpoint_panics_witness :
  (Migrator.Run Scenario.fresh_env Scenario.cfg (Scenario.start Scenario.manual_db [])).2
  = Panic "runtime error: slice bounds out of range [:8] with length 6".
Proof.
  refine (proj1 (Run_short_checkpoint_panics Scenario.fresh_env Scenario.cfg
                   (Scenario.start Scenario.manual_db []) "manual" _ _ _ _ _ _)).
  - reflexivity.
  - reflexivity.
  - reflexivity.
  - reflexivity.
  - discriminate.
  - simpl. lia.
Defined.

Lemma ExecuteSingleScript_sets_checkpoint_witness :
  (Tracker.GetLastSuccessfulCommit
     (Migrator.ExecuteSingleScript Scenario.no_git_env Scenario.cfg "001_create_users.sql"
        (Scenario.start Scenario.empty_db [])).1).2
  = Ret "manual".
Proof.
  refine (proj1 (ExecuteSingleScript_sets_checkpoint Scenario.no_git_env Scenario.cfg
                   "001_create_users.sql" (Scenario.start Scenario.empty_db [])
                   (Migrator.ExecuteSingleScript Scenario.no_git_env Scenario.cfg
                      "001_create_users.sql" (Scenario.start Scenario.empty_db [])).1
                   _ _ _)).
  - exact well_formed_empty_db.
  - vm_compute. reflexivity.
  - vm_compute. reflexivity.
Defined.

Lemma Run_after_manual_script_panics_witness :
  (Migrator.Run Scenario.fresh_env Scenario.cfg
     (Migrator.ExecuteSingleScript Scenario.no_git_env Scenario.cfg "001_create_users.sql"
        (Scenario.start Scenario.empty_db [])).1).2
  = Panic "runtime error: slice bounds out of range [:8] with length 6".
Proof.
  refine (proj1 (Run_after_manual_script_panics Scenario.no_git_env Scenario.fresh_env
                   Scenario.cfg Scenario.cfg "001_create_users.sql" "exit status 128"
                   (Scenario.start Scenario.empty_db [])
                   (Migrator.ExecuteSingleScript Scenario.no_git_env Scenario.cfg
                      "001_create_users.sql" (Scenario.start Scenario.empty_db [])).1
                   _ _ _ _ _ _)).
  - exact well_formed_empty_db.
  - reflexivity.
  - vm_compute. reflexivity.
  - reflexivity.
  - vm_compute. reflexivity.
  - vm_compute. reflexivity.
Defined.

Lemma Run_outside_repository_witness :
  (Migrator.Run Scenario.no_git_env Scenario.cfg (Scenario.start Scenario.empty_db [])).2
  = Fail "scripts directory is not within a git repository".
Proof.
  refine (f_equal snd (Run_outside_repository Scenario.no_git_env Scenario.cfg
                         (Scenario.start Scenario.empty_db []) _)).
  reflexivity.
Defined.


Lemma Run_execute_moves_checkpoint_witness :
  (Tracker.GetLastSuccessfulCommit
     (Migrator.Run_execute Scenario.fresh_env Scenario.cfg Scenario.fresh_found
        (Scenario.start Scenario.empty_db [])).1).2
  = Ret Scenario.head_commit.
Proof.
  refine (proj1 (Run_execute_moves_checkpoint Scenario.fresh_env Scenario.cfg
                   Scenario.fresh_found (Scenario.start Scenario.empty_db [])
                   (Migrator.Run_execute Scenario.fresh_env Scenario.cfg Scenario.fresh_found
                      (Scenario.start Scenario.empty_db [])).1
                   _ _ _ _ _)).
  - exact well_formed_empty_db.
  - discriminate.
  - vm_compute. reflexivity.
  - vm_compute. reflexivity.
  - vm_compute. reflexivity.
Defined.

Lemma executeMissedScripts_rows_witness :
  ∃ new,
    rows (db (Migrator.executeMissedScripts Scenario.catch_up_env Scenario.missed_cfg
                (Scenario.start Scenario.migrated_db [])).1)
    = rows Scenario.migrated_db ++ new
    ∧ scriptName <$> new = ["900_fix.sql"]
    ∧ Forall (λ r, endofbatch r = Some false) new.
Proof.
  destruct (executeMissedScripts_rows Scenario.catch_up_env Scenario.missed_cfg
              (Scenario.start Scenario.migrated_db [])
              (Migrator.executeMissedScripts Scenario.catch_up_env Scenario.missed_cfg
                 (Scenario.start Scenario.migrated_db [])).1)
    as (new & Hrows & Hnames & _ & Hlast).
  - discriminate.
  - vm_compute. reflexivity.
  - exists new. split; [exact Hrows|]. split; [exact Hnames|exact Hlast].
Defined.

Lemma DiffFileStatus_entries_witness :
  spaceless "Automated_Change_Scripts/001_create_users.sql" = true.
Proof.
  refine (proj2 (proj1 (DiffFileStatus_entries Scenario.tampered_env Scenario.head_commit
                          Scenario.later_commit
                          {[ "Automated_Change_Scripts/001_create_users.sql" := "M" ]}
                          "Automated_Change_Scripts/001_create_users.sql" "M" _ _))).
  - vm_compute. reflexivity.
  - vm_compute. reflexivity.
Defined.

Lemma ParseArgs_port_round_trip_witness :
  ∃ cfg,
    ConfigArgs.ParseArgs (λ _, false)
      ["localhost"; "root"; "password"; "mydb"; Strconv.Itoa (-1); "./migrations"] = Ok cfg
    ∧ Port cfg = -1
    ∧ ConfigArgs.DSN cfg
      = "root:password@tcp(localhost:-1)/mydb?parseTime=true&multiStatements=true".
Proof.
  refine (ParseArgs_port_round_trip (λ _, false) "localhost" "root" "password" "mydb"
            "./migrations" (-1) _ _).
  - lia.
  - reflexivity.
Defined.


Lemma executeScript_reads_by_name_witness :
  Migrator.executeScript Scenario.fresh_env Scenario.cfg
    {| Name := "001_create_users.sql";
       Path := "Automated_Change_Scripts/001_create_users.sql";
       Timestamp := Time.Unix 1700000000 |}
    Scenario.head_commit false (Scenario.start Scenario.empty_db [])
  = Migrator.executeScript Scenario.fresh_env Scenario.cfg
      {| Name := "001_create_users.sql";
         Path := "Archive/001_create_users.sql";
         Timestamp := Time.Unix 1600000000 |}
      Scenario.head_commit false (Scenario.start Scenario.empty_db []).
Proof.
  refine (proj1 (executeScript_reads_by_name Scenario.fresh_env Scenario.cfg _ _
                   Scenario.head_commit false "CREATE TABLE users (id INT);"
                   (Scenario.start Scenario.empty_db []) _ _)).
  - reflexivity.
  - vm_compute. reflexivity.
Defined.
